(** * ppsci.data.process.transform.preprocess

    A shallow embedding of the preprocessing transforms of
    [ppsci/data/process/transform/preprocess.py] (Translate, Scale,
    Normalize, Log1p, CropData, SqueezeData, FunctionalTransform) and the
    properties of their constructors and [__call__] methods.

    Python objects have identity: a [dict] and a [numpy.ndarray] are
    references into a store, and [{**d}] builds a new dict object that
    holds the same array references as [d].  The embedding keeps that
    store explicit.

    The arrays are arrays of numbers ([Dict[str, np.ndarray]] in the
    annotations of the module).  The type of the elements and its
    arithmetic are parameters of the development; the examples run on
    binary64 floats.  The result of a numpy operation that builds an
    array ([a - b], [a / b], [np.log1p(a)], [a.reshape(s)],
    [a[:, i:j, k:l]]) is a new array object.  The arithmetic gives it
    elements of its own; slicing makes it a view of the memory of the
    array it was cut from, and so does [reshape] where the layout
    allows it.  The store records for every array object where its
    elements are, whether it may be written and whether its dtype takes
    a float, since the in-place operators of Translate and Scale write
    through to every array that shares the memory and raise where numpy
    refuses to write. *)

From stdpp Require Import base strings list gmap.
From Stdlib Require Import ZArith Floats.

Local Open Scope string_scope.
Local Open Scope list_scope.

(** ** Exceptions *)

(** The exceptions a call can raise.  The [ValueError]s of this module
    are formatted from one value each, which the constructor carries:
    [ValueError_apply_keys got] is
    [f"apply_keys should be a non empty subset of ('input', 'label'), but got {got}"]
    and [ValueError_ndim n] is
    [f"Only support squeeze data to ndim=3 now, but got ndim={n}"].
    The others are raised by Python and numpy themselves:
    [ValueError_read_only] is numpy's [ValueError: output array is
    read-only], and [UFuncTypeError] its refusal to apply an operator
    with a Python float to an array whose dtype cannot hold the result
    (for an integer array, the float64 result cannot be cast to the
    dtype under the rule [same_kind]).  [InvalidReference] stands for the use
    of a reference that names no object of the store and has no
    counterpart in Python. *)
Inductive exn : Type :=
| ValueError_apply_keys (got : list string)
| ValueError_ndim (n : nat)
| ValueError_unpack (given : nat)
| ValueError_broadcast (s1 s2 : list nat)
| ValueError_reshape (size : nat) (newshape : list nat)
| ValueError_read_only
| UFuncTypeError
| IndexError_tuple
| IndexError_too_many_indices (ndim : nat)
| KeyError (key : string)
| TypeError_not_a_mapping
| InvalidReference.

Inductive result (A : Type) : Type :=
| Ok (a : A)
| Raise (e : exn).
Arguments Ok {A} a.
Arguments Raise {A} e.

(** ** Construction-time validation of [apply_keys] *)

(** [len(apply_keys) == 0 or len(set(apply_keys) | {"input", "label"}) > 2],
    the condition of lines 90, 127, 176 and 212. *)
Definition invalid_apply_keys (apply_keys : list string) : bool :=
  (length apply_keys =? 0)%nat
  || (2 <? size ((list_to_set apply_keys : gset string) ∪ {[ "input"; "label" ]}))%nat.

(** ** Arrays *)

(** A [numpy.ndarray] of floats: its shape and its elements in row-major
    (C) order. *)
Record ndarray (F : Type) : Type := mk_ndarray {
  shape : list nat;
  data : list F
}.
Arguments mk_ndarray {F} shape data.
Arguments shape {F} _.
Arguments data {F} _.

Definition ndim {F} (a : ndarray F) : nat := length (shape a).

(** Number of elements of an array of the given shape. *)
Definition numel (s : list nat) : nat := foldr Nat.mul 1 s.

(** [chunks n sz xs]: the [n] consecutive blocks of [sz] elements of [xs],
    the sub-arrays along the first axis. *)
Fixpoint chunks {A} (n sz : nat) (xs : list A) : list (list A) :=
  match n with
  | 0 => []
  | S n' => take sz xs :: chunks n' sz (drop sz xs)
  end.

(** *** Broadcasting *)

(** numpy's rule on shapes read from the last axis: two lengths are
    compatible when they are equal or one of them is 1. *)
Fixpoint broadcast_rev (s1 s2 : list nat) : option (list nat) :=
  match s1, s2 with
  | [], s | s, [] => Some s
  | a :: r1, b :: r2 =>
      if (a =? b)%nat then cons a <$> broadcast_rev r1 r2
      else if (a =? 1)%nat then cons b <$> broadcast_rev r1 r2
      else if (b =? 1)%nat then cons a <$> broadcast_rev r1 r2
      else None
  end.

Definition broadcast_shapes (s1 s2 : list nat) : option (list nat) :=
  reverse <$> broadcast_rev (reverse s1) (reverse s2).

(** [expand target s xs]: the elements of an array of shape [s] (as long
    as [target]) repeated along every axis where [s] has length 1 and
    [target] has not. *)
Fixpoint expand {A} (target s : list nat) (xs : list A) : list A :=
  match target, s with
  | m :: ts, n :: rs =>
      if (n =? m)%nat
      then flat_map (expand ts rs) (chunks n (numel rs) xs)
      else concat (replicate m (expand ts rs xs))
  | _, _ => xs
  end.

Definition broadcast_to {F} (target : list nat) (a : ndarray F) : list F :=
  expand target
    (replicate (length target - length (shape a)) 1 ++ shape a) (data a).

(** *** Slicing *)

(** One entry of a subscript: [:] or [start:stop]. *)
Inductive index : Type :=
| Full
| Slice (start stop : Z).

(** Python's adjustment of [start:stop] to a sequence of length [n]: a
    negative bound counts from the end, and both are clamped to [0, n].
    Returns the first index and the number of elements. *)
Definition slice_indices (start stop : Z) (n : nat) : nat * nat :=
  let clamp (i : Z) : Z :=
    if (i <? 0)%Z then Z.max (i + Z.of_nat n) 0 else Z.min i (Z.of_nat n) in
  (Z.to_nat (clamp start), Z.to_nat (clamp stop - clamp start)).

Definition index_range (i : option index) (n : nat) : nat * nat :=
  match i with
  | None | Some Full => (0, n)
  | Some (Slice start stop) => slice_indices start stop n
  end.

Fixpoint slice_shape (idx : list index) (s : list nat) : list nat :=
  match s with
  | [] => []
  | n :: rest => (index_range (head idx) n).2 :: slice_shape (tail idx) rest
  end.

Fixpoint slice_data {A} (idx : list index) (s : list nat) (xs : list A)
  : list A :=
  match s with
  | [] => xs
  | n :: rest =>
      let '(lo, cnt) := index_range (head idx) n in
      flat_map (slice_data (tail idx) rest)
               (take cnt (drop lo (chunks n (numel rest) xs)))
  end.

(** [a[idx]] for a tuple of slices. *)
Definition getitem {F} (a : ndarray F) (idx : list index) : result (ndarray F) :=
  if (ndim a <? length idx)%nat
  then Raise (IndexError_too_many_indices (ndim a))
  else Ok (mk_ndarray (slice_shape idx (shape a))
                      (slice_data idx (shape a) (data a))).

(** [a.reshape(newshape)]: the same elements under another shape. *)
Definition reshape {F} (a : ndarray F) (newshape : list nat) : result (ndarray F) :=
  if (numel newshape =? length (data a))%nat
  then Ok (mk_ndarray newshape (data a))
  else Raise (ValueError_reshape (length (data a)) newshape).

(** [t[i]] for a tuple of ints and a literal index. *)
Definition tuple_get (t : list Z) (i : nat) : result Z :=
  match t !! i with
  | Some x => Ok x
  | None => Raise IndexError_tuple
  end.

(** ** Dicts *)

(** A Python dict from names to array references, in insertion order. *)
Abbreviation dict := (list (string * nat)) (only parsing).

Fixpoint dict_get {V} (d : list (string * V)) (key : string) : option V :=
  match d with
  | [] => None
  | (k, v) :: d' => if decide (k = key) then Some v else dict_get d' key
  end.

(** [d[key] = v]: the value of an existing key is replaced where it is, a
    new key goes last. *)
Fixpoint dict_set {V} (d : list (string * V)) (key : string) (v : V)
  : list (string * V) :=
  match d with
  | [] => [(key, v)]
  | (k, w) :: d' =>
      if decide (k = key) then (k, v) :: d' else (k, w) :: dict_set d' key v
  end.

(** ** The memory of arrays *)

(** Where the elements of an array object are.  [buffer] names the
    allocation and [cells] the place in it of each element, in row-major
    order: two array objects with the same buffer and a common cell share
    that element, as a view and its base do.  [writeable] is
    [a.flags.writeable].  [takes_float] says that an operator with a
    Python float can store its result in the array: it holds for the
    floating and the complex dtypes (and for arrays of Python objects),
    to which numpy casts the result under the rule [same_kind], and not
    for the integer and boolean dtypes. *)
Record memory : Type := mk_memory {
  buffer : nat;
  cells : list nat;
  writeable : bool;
  takes_float : bool
}.

(** A buffer that no array object has. *)
Definition fresh_buffer (lay : list memory) : nat :=
  S (max_list (buffer <$> lay)).

(** The memory of an array with [n] elements of its own. *)
Definition own_memory (lay : list memory) (n : nat) (takes_float : bool)
  : memory :=
  mk_memory (fresh_buffer lay) (seq 0 n) true takes_float.

(** Whether [a.reshape((B * C, H, W))] of an array of shape
    [[B, C, H, W]] is a view: numpy merges the first two axes without
    copying when one of them has at most one index, or the step in memory
    from one index of the first axis to the next is [C] times the step of
    the second axis; an array with no element is always viewed. *)
Definition merge_is_view (s : list nat) (cs : list nat) : bool :=
  match s with
  | [B; C; H; W] =>
      (length cs =? 0)%nat || (B <=? 1)%nat || (C <=? 1)%nat
      || match cs !! 0, cs !! (H * W)%nat, cs !! (C * (H * W))%nat with
         | Some c0, Some c1, Some c2 =>
             (Z.of_nat c2 - Z.of_nat c0
              =? Z.of_nat C * (Z.of_nat c1 - Z.of_nat c0))%Z
         | _, _, _ => false
         end
  | _ => false
  end.

(** ** The store and the monad of calls *)

(** The objects alive at some point: dict objects and array objects, each
    named by its index.  New objects go at the end, so a reference that
    is valid stays valid and keeps naming the same object.  [arrays]
    holds the elements of each array object as they are read through it,
    and [layout] its memory, under the same index. *)
Record store (F : Type) : Type := mk_store {
  dicts : list dict;
  arrays : list (ndarray F);
  layout : list memory
}.
Arguments mk_store {F} dicts arrays layout.
Arguments dicts {F} _.
Arguments arrays {F} _.
Arguments layout {F} _.

(** A store whose arrays have elements of their own each, are writeable
    and of a floating dtype, as the arrays [np.array([1.0, 2.0])] and
    [np.zeros(shape)] build. *)
Definition new_store {F} (dicts : list dict) (arrays : list (ndarray F))
  : store F :=
  mk_store dicts arrays
    (imap (λ i a, mk_memory i (seq 0 (length (data a))) true true) arrays).

(** A computation that reads and writes the store and returns a value or
    raises. *)
Definition M (F A : Type) : Type := store F → result A * store F.

Global Instance result_ret : MRet result := λ A a, Ok a.
Global Instance result_bind : MBind result := λ A B k m,
  match m with
  | Ok a => k a
  | Raise e => Raise e
  end.

Global Instance M_ret {F} : MRet (M F) := λ A a st, (Ok a, st).
Global Instance M_bind {F} : MBind (M F) := λ A B k m st,
  match m st with
  | (Ok a, st') => k a st'
  | (Raise e, st') => (Raise e, st')
  end.

Definition raise {F A} (e : exn) : M F A := λ st, (Raise e, st).

Definition lift {F A} (r : result A) : M F A := λ st, (r, st).

(** [for x in xs: body(x)] *)
Fixpoint for_each {F A} (xs : list A) (body : A → M F ()) : M F () :=
  match xs with
  | [] => mret ()
  | x :: xs' => body x ≫= λ _, for_each xs' body
  end.

Section Store.
Context {F : Type}.

Definition dict_load (d : nat) : M F dict := λ st,
  match dicts st !! d with
  | Some x => (Ok x, st)
  | None => (Raise InvalidReference, st)
  end.

Definition dict_new (x : dict) : M F nat := λ st,
  (Ok (length (dicts st)), mk_store (dicts st ++ [x]) (arrays st) (layout st)).

(** [{**d}] *)
Definition dict_copy (d : nat) : M F nat :=
  x ← dict_load d; dict_new x.

(** [key in d] *)
Definition dict_contains (d : nat) (key : string) : M F bool :=
  x ← dict_load d; mret (bool_decide (is_Some (dict_get x key))).

(** [d[key]] *)
Definition dict_getitem (d : nat) (key : string) : M F nat :=
  x ← dict_load d;
  match dict_get x key with
  | Some r => mret r
  | None => raise (KeyError key)
  end.

(** [d[key] = r] *)
Definition dict_setitem (d : nat) (key : string) (r : nat) : M F () := λ st,
  match dicts st !! d with
  | Some x =>
      (Ok (), mk_store (<[d := dict_set x key r]> (dicts st)) (arrays st)
                       (layout st))
  | None => (Raise InvalidReference, st)
  end.

(** [d.items()], read when the loop starts.  The loops of this module
    assign only to keys the dict already has, which leaves its keys and
    their order as they are. *)
Definition dict_items (d : nat) : M F (list (string * nat)) := dict_load d.

Definition array_load (r : nat) : M F (ndarray F) := λ st,
  match arrays st !! r with
  | Some a => (Ok a, st)
  | None => (Raise InvalidReference, st)
  end.

(** A new array object with the elements [a]; [mem] gives its memory in
    the store where it is made. *)
Definition array_new (mem : store F → memory) (a : ndarray F) : M F nat := λ st,
  (Ok (length (arrays st)),
   mk_store (dicts st) (arrays st ++ [a]) (layout st ++ [mem st])).

(** The memory of the array [t] that numpy computes from the array
    object [source] by arithmetic ([a - b], [a / b], [a * x],
    [np.log1p(a)]): elements of its own, writeable, and of a dtype that
    takes a float, since a division and a product with a float give
    one whatever the dtype of [source] is. *)
Definition computed (source : nat) (t : ndarray F) : store F → memory :=
  λ st, own_memory (layout st) (length (data t)) true.

(** The memory of the array [t] that a subscript of slices cuts from the
    array object [source]: a view.  It has the buffer, the flag and the
    dtype of [source], and its cells are what the subscript selects from
    the cells of [source]; [subscript] is the subscript that made [t],
    run on the array of these cells. *)
Definition view (subscript : ndarray nat → result (ndarray nat))
    (source : nat) (t : ndarray F) : store F → memory := λ st,
  match arrays st !! source, layout st !! source with
  | Some v, Some m =>
      match subscript (mk_ndarray (shape v) (cells m)) with
      | Ok c => mk_memory (buffer m) (data c) (writeable m) (takes_float m)
      | Raise _ => own_memory (layout st) (length (data t)) (takes_float m)
      end
  | _, _ => own_memory (layout st) (length (data t)) true
  end.

(** The memory of [source.reshape((B * C, H, W))]: a view with the cells
    of [source] in the same order where numpy can merge the axes in
    place, a copy with the dtype of [source] otherwise. *)
Definition reshaped (source : nat) (t : ndarray F) : store F → memory := λ st,
  match arrays st !! source, layout st !! source with
  | Some v, Some m =>
      if merge_is_view (shape v) (cells m)
      then mk_memory (buffer m) (cells m) (writeable m) (takes_float m)
      else own_memory (layout st) (length (data t)) (takes_float m)
  | _, _ => own_memory (layout st) (length (data t)) true
  end.

(** The array [a] with [g] applied to every element. *)
Definition map_data (g : F → F) (a : ndarray F) : ndarray F :=
  mk_ndarray (shape a) (g <$> data a).

(** What is read through an array object with the memory [m'] and the
    elements [a] once [g] has been applied in place to the array with
    the memory [target]: the elements in a cell of [target] have
    changed. *)
Definition written (g : F → F) (target m' : memory) (a : ndarray F)
  : ndarray F :=
  if decide (buffer m' = buffer target)
  then mk_ndarray (shape a)
         (imap (λ j x, match cells m' !! j with
                       | Some c => if bool_decide (c ∈ cells target)
                                   then g x else x
                       | None => x
                       end) (data a))
  else a.

(** The array objects once [g] has been applied in place to the object
    [r], whose memory is [target]: [r] has [g] of each of its elements,
    and every other object shows the change where it shares a cell. *)
Definition write_through (g : F → F) (r : nat) (target : memory)
    (arrs : list (ndarray F)) (lay : list memory) : list (ndarray F) :=
  imap (λ i a,
          if decide (i = r) then map_data g a
          else match lay !! i with
               | Some m' => written g target m' a
               | None => a
               end) arrs.

(** An in-place operator of [ndarray] ([+=], [*=]) with a Python float
    on the right, which makes [g x] of the element [x].  numpy refuses a
    read-only array first ([ValueError]), then an array whose dtype
    cannot take the result ([UFuncTypeError], for the integer and
    boolean dtypes).  Otherwise the elements are overwritten in the
    memory of the array object itself, and the operator returns that
    object. *)
Definition array_inplace (g : F → F) (r : nat) : M F nat := λ st,
  match arrays st !! r, layout st !! r with
  | Some a, Some m =>
      if negb (writeable m) then (Raise ValueError_read_only, st)
      else if negb (takes_float m) then (Raise UFuncTypeError, st)
      else (Ok r, mk_store (dicts st)
                    (write_through g r m (arrays st) (layout st))
                    (layout st))
  | _, _ => (Raise InvalidReference, st)
  end.

(** [d[key] = f(value)], where [f] builds a new array, whose memory
    [mem] tells. *)
Definition update_body (mem : nat → ndarray F → store F → memory)
    (f : ndarray F → result (ndarray F)) (d : nat)
  : string * nat → M F () :=
  λ '(key, value),
    v ← array_load value;
    t ← lift (f v);
    r ← array_new (mem value t) t;
    dict_setitem d key r.

(** [for key, value in d.items(): d[key] = f(value)] *)
Definition update_values (mem : nat → ndarray F → store F → memory)
    (f : ndarray F → result (ndarray F)) (d : nat)
  : M F () :=
  items ← dict_items d;
  for_each items (update_body mem f d).

(** The shape the [__call__] methods of Normalize, Log1p, CropData and
    SqueezeData share: copy both dicts, run the loop on the copy of each
    selected one, return the copies and the weights. *)
Definition on_selected (apply_keys : list string) (loop : nat → M F ())
    (input_item label_item : nat) (weight_item : option nat)
  : M F (nat * nat * option nat) :=
  input_item_copy ← dict_copy input_item;
  label_item_copy ← dict_copy label_item;
  (if bool_decide ("input" ∈ apply_keys)
   then loop input_item_copy else mret ());;
  (if bool_decide ("label" ∈ apply_keys)
   then loop label_item_copy else mret ());;
  mret (input_item_copy, label_item_copy, weight_item).

(** *** What a dict holds *)

(** The arrays a dict refers to, by name. *)
Definition deref (arrs : list (ndarray F)) (x : dict)
  : option (list (string * ndarray F)) :=
  mapM (λ kr, (kr.1,.) <$> arrs !! kr.2) x.

(** The content of the dict object [d]: its names in order, each with the
    array it holds. *)
Definition content (st : store F) (d : nat)
  : option (list (string * ndarray F)) :=
  dicts st !! d ≫= deref (arrays st).

(** [c'] has the names of [c], each with [f] of its array. *)
Definition values_mapped (f : ndarray F → result (ndarray F))
    (c c' : list (string * ndarray F)) : Prop :=
  Forall2 (λ kv kt, kt.1 = kv.1 ∧ f kv.2 = Ok kt.2) c c'.

(** [item_result arrs f (key, r) t]: [f] maps the array at [r] to [t]. *)
Definition item_result (arrs : list (ndarray F))
    (f : ndarray F → result (ndarray F)) (kr : string * nat)
    (t : ndarray F) : Prop :=
  ∃ v, arrs !! kr.2 = Some v ∧ f v = Ok t.

(** Every object of [st] is in [st'] under the same reference, the dicts
    with the same entries and the arrays with the same elements. *)
Definition store_extends (st st' : store F) : Prop :=
  dicts st `prefix_of` dicts st' ∧ arrays st `prefix_of` arrays st'.
End Store.

(** ** The transforms *)

Section Transforms.
Context {F : Type}.
Variables (fadd fsub fmul fdiv : F → F → F) (flog1p : F → F).

(** Elementwise binary operator of two arrays, with broadcasting. *)
Definition np_binop (op : F → F → F) (a b : ndarray F) : result (ndarray F) :=
  match broadcast_shapes (shape a) (shape b) with
  | Some s => Ok (mk_ndarray s (zip_with op (broadcast_to s a) (broadcast_to s b)))
  | None => Raise (ValueError_broadcast (shape a) (shape b))
  end.

Definition np_sub := np_binop fsub.
Definition np_div := np_binop fdiv.

(** *** Translate *)

Record Translate : Type := { Translate_offset : list (string * F) }.

Definition Translate_init (offset : list (string * F)) : Translate :=
  {| Translate_offset := offset |}.

Definition Translate_call (self : Translate)
    (input_dict label_dict : nat) (weight_dict : option nat)
  : M F (nat * nat * option nat) :=
  input_dict_copy ← dict_copy input_dict;
  for_each (Translate_offset self).*1 (λ key,
    present ← dict_contains input_dict key;
    if present : bool then
      a ← dict_getitem input_dict_copy key;
      off ← lift (from_option Ok (Raise (KeyError key))
                    (dict_get (Translate_offset self) key));
      a' ← array_inplace (λ x, fadd x off) a;
      dict_setitem input_dict_copy key a'
    else mret ());;
  mret (input_dict_copy, label_dict, weight_dict).

(** *** Scale *)

Record Scale : Type := { Scale_scale : list (string * F) }.

Definition Scale_init (scale : list (string * F)) : Scale :=
  {| Scale_scale := scale |}.

Definition Scale_call (self : Scale)
    (input_dict label_dict : nat) (weight_dict : option nat)
  : M F (nat * nat * option nat) :=
  input_dict_copy ← dict_copy input_dict;
  for_each (Scale_scale self).*1 (λ key,
    present ← dict_contains input_dict key;
    if present : bool then
      a ← dict_getitem input_dict_copy key;
      factor ← lift (from_option Ok (Raise (KeyError key))
                       (dict_get (Scale_scale self) key));
      a' ← array_inplace (λ x, fmul x factor) a;
      dict_setitem input_dict_copy key a'
    else mret ());;
  mret (input_dict_copy, label_dict, weight_dict).

(** *** Normalize *)

Record Normalize : Type := {
  Normalize_mean : ndarray F;
  Normalize_std : ndarray F;
  Normalize_apply_keys : list string
}.

Definition Normalize_init (mean std : ndarray F) (apply_keys : list string)
  : result Normalize :=
  if invalid_apply_keys apply_keys
  then Raise (ValueError_apply_keys apply_keys)
  else Ok {| Normalize_mean := mean; Normalize_std := std;
             Normalize_apply_keys := apply_keys |}.

(** [(value - self.mean) / self.std] *)
Definition normalize (self : Normalize) (value : ndarray F) : result (ndarray F) :=
  d ← np_sub value (Normalize_mean self); np_div d (Normalize_std self).

Definition Normalize_call (self : Normalize)
    (input_item label_item : nat) (weight_item : option nat)
  : M F (nat * nat * option nat) :=
  input_item_copy ← dict_copy input_item;
  label_item_copy ← dict_copy label_item;
  (if bool_decide ("input" ∈ Normalize_apply_keys self)
   then update_values computed (normalize self) input_item_copy else mret ());;
  (if bool_decide ("label" ∈ Normalize_apply_keys self)
   then update_values computed (normalize self) label_item_copy else mret ());;
  mret (input_item_copy, label_item_copy, weight_item).

(** *** Log1p *)

Record Log1p : Type := {
  Log1p_scale : F;
  Log1p_apply_keys : list string
}.

Definition Log1p_init (scale : F) (apply_keys : list string) : result Log1p :=
  if invalid_apply_keys apply_keys
  then Raise (ValueError_apply_keys apply_keys)
  else Ok {| Log1p_scale := scale; Log1p_apply_keys := apply_keys |}.

(** [np.log1p(value / self.scale)] *)
Definition log1p (self : Log1p) (value : ndarray F) : result (ndarray F) :=
  Ok (mk_ndarray (shape value)
        ((λ x, flog1p (fdiv x (Log1p_scale self))) <$> data value)).

Definition Log1p_call (self : Log1p)
    (input_item label_item : nat) (weight_item : option nat)
  : M F (nat * nat * option nat) :=
  input_item_copy ← dict_copy input_item;
  label_item_copy ← dict_copy label_item;
  (if bool_decide ("input" ∈ Log1p_apply_keys self)
   then update_values computed (log1p self) input_item_copy else mret ());;
  (if bool_decide ("label" ∈ Log1p_apply_keys self)
   then update_values computed (log1p self) label_item_copy else mret ());;
  mret (input_item_copy, label_item_copy, weight_item).
End Transforms.

(** *** CropData *)

Section Subscript.
Context {F : Type}.

Record CropData : Type := {
  CropData_xmin : list Z;
  CropData_xmax : list Z;
  CropData_apply_keys : list string
}.

Definition CropData_init (xmin xmax : list Z) (apply_keys : list string)
  : result CropData :=
  if invalid_apply_keys apply_keys
  then Raise (ValueError_apply_keys apply_keys)
  else Ok {| CropData_xmin := xmin; CropData_xmax := xmax;
             CropData_apply_keys := apply_keys |}.

(** [value[:, self.xmin[0] : self.xmax[0], self.xmin[1] : self.xmax[1]]] *)
Definition crop (self : CropData) (value : ndarray F) : result (ndarray F) :=
  x0 ← tuple_get (CropData_xmin self) 0;
  x1 ← tuple_get (CropData_xmax self) 0;
  y0 ← tuple_get (CropData_xmin self) 1;
  y1 ← tuple_get (CropData_xmax self) 1;
  getitem value [Full; Slice x0 x1; Slice y0 y1].
End Subscript.

Section ShapeTransforms.
Context {F : Type}.

(** The array the subscript returns is a view of [value]. *)
Definition CropData_call (self : CropData)
    (input_item label_item : nat) (weight_item : option nat)
  : M F (nat * nat * option nat) :=
  input_item_copy ← dict_copy input_item;
  label_item_copy ← dict_copy label_item;
  (if bool_decide ("input" ∈ CropData_apply_keys self)
   then update_values (view (crop self)) (crop self) input_item_copy
   else mret ());;
  (if bool_decide ("label" ∈ CropData_apply_keys self)
   then update_values (view (crop self)) (crop self) label_item_copy
   else mret ());;
  mret (input_item_copy, label_item_copy, weight_item).

(** *** SqueezeData *)

Record SqueezeData : Type := { SqueezeData_apply_keys : list string }.

Definition SqueezeData_init (apply_keys : list string) : result SqueezeData :=
  if invalid_apply_keys apply_keys
  then Raise (ValueError_apply_keys apply_keys)
  else Ok {| SqueezeData_apply_keys := apply_keys |}.

(** The loop of lines 222-229 and 231-238 over the items of [d]:
    [[
    if value.ndim == 4:
        B, C, H, W = value.shape
        d[key] = value.reshape((B * C, H, W))
    if value.ndim != 3:
        raise ValueError(...)
    ]]
    The second test reads [value], the array the loop variable is bound
    to, not [d[key]]. *)
Definition squeeze_body (d : nat) : string * nat → M F () :=
  λ '(key, value),
    v ← array_load value;
    (if (ndim v =? 4)%nat then
       match shape v with
       | [B; C; H; W] =>
           t ← lift (reshape v [B * C; H; W]);
           r ← array_new (reshaped value t) t;
           dict_setitem d key r
       | s => raise (ValueError_unpack (length s))
       end
     else mret ());;
    if negb (ndim v =? 3)%nat
    then raise (ValueError_ndim (ndim v))
    else mret ().

Definition squeeze_values (d : nat) : M F () :=
  items ← dict_items d;
  for_each items (squeeze_body d).

Definition SqueezeData_call (self : SqueezeData)
    (input_item label_item : nat) (weight_item : option nat)
  : M F (nat * nat * option nat) :=
  input_item_copy ← dict_copy input_item;
  label_item_copy ← dict_copy label_item;
  (if bool_decide ("input" ∈ SqueezeData_apply_keys self)
   then squeeze_values input_item_copy else mret ());;
  (if bool_decide ("label" ∈ SqueezeData_apply_keys self)
   then squeeze_values label_item_copy else mret ());;
  mret (input_item_copy, label_item_copy, weight_item).

(** *** FunctionalTransform *)

(** The wrapped function is any Python callable of three dicts: it may
    read and write the store, return anything or raise. *)
Record FunctionalTransform (R : Type) : Type := {
  transform_func : nat → nat → nat → M F R
}.
Arguments transform_func {R} _ _ _ _.

Definition FunctionalTransform_init {R} (f : nat → nat → nat → M F R)
  : FunctionalTransform R :=
  {| transform_func := f |}.

(** [{**d}] where [d] may be [None], which is not a mapping. *)
Definition dict_copy_object (d : option nat) : M F nat :=
  match d with
  | Some d => dict_copy d
  | None => raise TypeError_not_a_mapping
  end.

(** [__call__(self, *data)]: [data] is the tuple of the positional
    arguments, [None] among them as [None]. *)
Definition FunctionalTransform_call {R} (self : FunctionalTransform R)
    (data : list (option nat)) : M F R :=
  match data with
  | [data_dict; label_dict; weight_dict] =>
      data_dict_copy ← dict_copy_object data_dict;
      label_dict_copy ← dict_copy_object label_dict;
      weight_dict_copy ← match weight_dict with
                         | Some w => dict_copy w
                         | None => dict_new []
                         end;
      transform_func self data_dict_copy label_dict_copy weight_dict_copy
  | _ => raise (ValueError_unpack (length data))
  end.
End ShapeTransforms.
Arguments transform_func {F R} _ _ _ _.
Arguments FunctionalTransform_call {F R} _ _.

(** ** Vocabulary of the properties *)

Section Vocabulary.
Context {F : Type}.
Implicit Types (st : store F) (v : ndarray F) (c : list (string * ndarray F))
  (f : ndarray F → result (ndarray F)) (K : list string).

(** The keys of the dict object [d], in order. *)
Definition keys st (d : nat) : option (list string) :=
  (λ x : dict, x.*1) <$> dicts st !! d.

(** The elements of an array are as many as its shape says. *)
Definition wf_ndarray v : Prop := length (data v) = numel (shape v).

(** What a selected, respectively unselected, dict must become. *)
Definition selected_result (apply_keys : list string) (name : string) f
    (c c' : list (string * ndarray F)) : Prop :=
  if bool_decide (name ∈ apply_keys) then values_mapped f c c' else c' = c.

(** [v[:, x0:x1, y0:y1]] of an array with at least three axes. *)
Definition crop_box (x0 x1 y0 y1 : Z) v : ndarray F :=
  mk_ndarray (slice_shape [Full; Slice x0 x1; Slice y0 y1] (shape v))
             (slice_data [Full; Slice x0 x1; Slice y0 y1] (shape v) (data v)).

(** The arrays a call visits, in the order of the loops: the inputs when
    selected, then the labels when selected. *)
Definition visited (apply_keys : list string) (ci cl : list (string * ndarray F))
  : list (string * ndarray F) :=
  (if bool_decide ("input" ∈ apply_keys) then ci else [])
  ++ (if bool_decide ("label" ∈ apply_keys) then cl else []).

(** The number of axes of the first array that has not three. *)
Fixpoint first_unsupported c : option nat :=
  match c with
  | [] => None
  | kv :: c' =>
      if (ndim kv.2 =? 3)%nat then first_unsupported c' else Some (ndim kv.2)
  end.

(** However [m] ends, it has changed no dict object but [d], and [d]
    still has the keys [K] in the same order. *)
Definition keeps_keys {A} (d : nat) K (m : M F A) : Prop :=
  ∀ st x res st', dicts st !! d = Some x → x.*1 = K → m st = (res, st') →
    ∃ x', dicts st' = <[d := x']> (dicts st) ∧ x'.*1 = K.
End Vocabulary.

Section Dispatch.
Context {F : Type}.
Variables (fadd fsub fmul fdiv : F → F → F) (flog1p : F → F).

(** The six transforms of the module that are not user functions. *)
Inductive builtin : Type :=
| BTranslate (t : Translate (F:=F))
| BScale (t : Scale (F:=F))
| BNormalize (t : Normalize (F:=F))
| BLog1p (t : Log1p (F:=F))
| BCropData (t : CropData)
| BSqueezeData (t : SqueezeData).

(** [t(input, label, weight)] *)
Definition builtin_call (t : builtin)
  : nat → nat → option nat → M F (nat * nat * option nat) :=
  match t with
  | BTranslate t => Translate_call fadd t
  | BScale t => Scale_call fmul t
  | BNormalize t => Normalize_call fsub fdiv t
  | BLog1p t => Log1p_call fdiv flog1p t
  | BCropData t => CropData_call t
  | BSqueezeData t => SqueezeData_call t
  end.

(** The loop of Translate and Scale, for the operator [op] and the table
    of offsets or factors. *)
Definition inplace_body (op : F → F → F) (table : list (string * F))
    (input_dict input_dict_copy : nat) (key : string) : M F () :=
  present ← dict_contains input_dict key;
  if present : bool then
    a ← dict_getitem input_dict_copy key;
    x ← lift (from_option Ok (Raise (KeyError key)) (dict_get table key));
    a' ← array_inplace (λ y, op y x) a;
    dict_setitem input_dict_copy key a'
  else mret ().

Definition inplace_call (op : F → F → F) (table : list (string * F))
    (input_dict label_dict : nat) (weight_dict : option nat)
  : M F (nat * nat * option nat) :=
  input_dict_copy ← dict_copy input_dict;
  for_each table.*1 (inplace_body op table input_dict input_dict_copy);;
  mret (input_dict_copy, label_dict, weight_dict).

(** The array objects after the in-place operator has run on the object
    [r], when no other object shares its memory. *)
Definition overwrite (g : F → F) (r : nat) (arrs : list (ndarray F))
  : list (ndarray F) :=
  match arrs !! r with
  | Some a => <[r := map_data g a]> arrs
  | None => arrs
  end.

(** The array objects after the iteration of the loop of Translate or
    Scale for [key], on an input dict with the entries [xi]. *)
Definition inplace_step (op : F → F → F) (table : list (string * F))
    (xi : dict) (arrs : list (ndarray F)) (key : string) : list (ndarray F) :=
  match dict_get xi key, dict_get table key with
  | Some r, Some x => overwrite (λ y, op y x) r arrs
  | _, _ => arrs
  end.

(** The array objects after the iteration of the loop for [key],
    whatever memory the arrays share: the object under [key] is written
    in place, through to every object that shares its cells. *)
Definition inplace_write (op : F → F → F) (table : list (string * F))
    (xi : dict) (lay : list memory) (arrs : list (ndarray F)) (key : string)
  : list (ndarray F) :=
  match dict_get xi key, dict_get table key with
  | Some r, Some x =>
      match lay !! r with
      | Some m => write_through (λ y, op y x) r m arrs lay
      | None => arrs
      end
  | _, _ => arrs
  end.

(** What Translate or Scale is to make of the array [v] held under
    [key]. *)
Definition adjusted (op : F → F → F) (table : list (string * F))
    (kv : string * ndarray F) : string * ndarray F :=
  match dict_get table kv.1 with
  | Some x => (kv.1, map_data (λ y, op y x) kv.2)
  | None => kv
  end.
End Dispatch.

(** ** Vocabulary of the further properties *)

Section Frames.
Context {F : Type}.
Implicit Types (st : store F).

(** However [m] ends, every array object is still there, with the
    elements it had; [m] may have created arrays. *)
Definition appends_arrays {A} (m : M F A) : Prop :=
  ∀ st res st', m st = (res, st') → arrays st `prefix_of` arrays st'.

(** However [m] ends, whether it returns or raises, the dict objects and
    the array objects that existed when it started are as they were. *)
Definition leaves_caller_objects {A} (m : M F A) : Prop :=
  ∀ st res st', m st = (res, st') →
    (∀ d, is_Some (dicts st !! d) → dicts st' !! d = dicts st !! d)
    ∧ (∀ a, is_Some (arrays st !! a) → arrays st' !! a = arrays st !! a).

(** numpy accepts the array object [r] on the left of [+=] and [*=] with
    a Python float: it is writeable and of a dtype that takes a
    float. *)
Definition updatable (lay : list memory) (r : nat) : bool :=
  match lay !! r with
  | Some m => writeable m && takes_float m
  | None => false
  end.

(** Moreover no other array object has its elements in the buffer of
    [r]: [r] is no view, and no view of it is there. *)
Definition sole_owner (lay : list memory) (r : nat) : bool :=
  match lay !! r with
  | Some m =>
      writeable m && takes_float m
      && forallb (λ im : nat * memory,
                    (im.1 =? r)%nat || negb (buffer im.2 =? buffer m)%nat)
                 (imap pair lay)
  | None => false
  end.

(** The exception numpy raises for [r] on the left of [+=] or [*=]. *)
Definition refusal (lay : list memory) (r : nat) : option exn :=
  match lay !! r with
  | Some m =>
      if negb (writeable m) then Some ValueError_read_only
      else if negb (takes_float m) then Some UFuncTypeError
      else None
  | None => Some InvalidReference
  end.

(** The exception of the first array on which [f] raises, in the order
    of the list. *)
Fixpoint first_failure (f : ndarray F → result (ndarray F))
    (c : list (string * ndarray F)) : option exn :=
  match c with
  | [] => None
  | kv :: c' =>
      match f kv.2 with
      | Ok _ => first_failure f c'
      | Raise e => Some e
      end
  end.
End Frames.

(** ** The function of the docstring of FunctionalTransform *)

Section Example.
Context {F : Type}.
Variable fmul : F → F → F.

(** [data_dict[key] = data_dict[key] * rand_ratio]: the product of an
    array and a Python float is a new array. *)
Definition example_body (rand_ratio : F) (data_dict : nat) (key : string)
  : M F () :=
  value ← dict_getitem data_dict key;
  v ← array_load value;
  r ← array_new (computed value (map_data (λ x, fmul x rand_ratio) v))
                (map_data (λ x, fmul x rand_ratio) v);
  dict_setitem data_dict key r.

(** The [transform_func] of the docstring; [rand_ratio] is the number
    [np.random.rand()] returns.  The loop runs over the keys the dict has
    when it starts, and assigns to these keys only. *)
Definition example_transform_func (rand_ratio : F)
    (data_dict label_dict weight_dict : nat) : M F (nat * nat * nat) :=
  x ← dict_load data_dict;
  for_each x.*1 (example_body rand_ratio data_dict);;
  mret (data_dict, label_dict, weight_dict).
End Example.

(** * Properties *)

(** ** Validation of [apply_keys] *)

Lemma input_label_disjoint (x : string) :
  x ≠ "input" → x ≠ "label" → ({[ x ]} : gset string) ## {[ "input"; "label" ]}.
Proof.
  intros Hi Hl. apply disjoint_singleton_l.
  rewrite elem_of_union, !elem_of_singleton. tauto.
Qed.

Lemma input_label_size : size ({[ "input"; "label" ]} : gset string) = 2.
Proof.
  rewrite size_union.
  - by rewrite !size_singleton.
  - apply disjoint_singleton_l. rewrite elem_of_singleton. discriminate.
Qed.

Lemma union_size_gt_2 (apply_keys : list string) :
  2 < size ((list_to_set apply_keys : gset string) ∪ {[ "input"; "label" ]})
  ↔ ∃ x, x ∈ apply_keys ∧ x ≠ "input" ∧ x ≠ "label".
Proof.
  split.
  - intros Hsz.
    destruct (decide (Exists (λ x, x ≠ "input" ∧ x ≠ "label") apply_keys))
      as [Hex | Hnex].
    + apply Exists_exists in Hex as (x & Hin & Hx). eauto.
    + apply not_Exists_Forall in Hnex; [| intros x; apply _].
      rewrite Forall_forall in Hnex.
      assert ((list_to_set apply_keys : gset string) ∪ {[ "input"; "label" ]}
              = {[ "input"; "label" ]}) as Heq.
      { apply set_eq. intros x. rewrite !elem_of_union, elem_of_list_to_set.
        rewrite !elem_of_singleton. split; [| tauto].
        intros [Hx | Hx]; [| done].
        specialize (Hnex x Hx). simpl in Hnex.
        destruct (decide (x = "input")); [tauto |].
        destruct (decide (x = "label")); tauto. }
      rewrite Heq, input_label_size in Hsz. lia.
  - intros (x & Hin & Hni & Hnl).
    assert (({[ x ]} ∪ {[ "input"; "label" ]} : gset string)
            ⊆ list_to_set apply_keys ∪ {[ "input"; "label" ]}) as Hsub.
    { apply union_mono_r. apply singleton_subseteq_l.
      by apply elem_of_list_to_set. }
    apply subseteq_size in Hsub.
    rewrite size_union in Hsub by (by apply input_label_disjoint).
    rewrite size_singleton, input_label_size in Hsub. lia.
Qed.

Lemma invalid_apply_keys_spec (apply_keys : list string) :
  invalid_apply_keys apply_keys = true
  ↔ apply_keys = [] ∨ ∃ x, x ∈ apply_keys ∧ x ≠ "input" ∧ x ≠ "label".
Proof.
  unfold invalid_apply_keys.
  rewrite orb_true_iff, Nat.eqb_eq, Nat.ltb_lt, union_size_gt_2.
  by rewrite length_zero_iff_nil.
Qed.

Lemma valid_apply_keys_spec (apply_keys : list string) :
  invalid_apply_keys apply_keys = false
  ↔ apply_keys ≠ [] ∧ ∀ x, x ∈ apply_keys → x = "input" ∨ x = "label".
Proof.
  rewrite <- not_true_iff_false, invalid_apply_keys_spec.
  split.
  - intros Hn. split; [tauto |].
    intros x Hx.
    destruct (decide (x = "input")); [tauto |].
    destruct (decide (x = "label")); [tauto |].
    exfalso. apply Hn. right. eauto.
  - intros [Hne Hall] [-> | (x & Hx & Hi & Hl)]; [done |].
    destruct (Hall x Hx); done.
Qed.

Section Constructors.
Context {F : Type}.
Implicit Types (mean std : ndarray F) (scale : F) (xmin xmax : list Z).

Lemma init_invalid mean std scale xmin xmax (apply_keys : list string) :
  invalid_apply_keys apply_keys = true →
  Normalize_init mean std apply_keys = Raise (ValueError_apply_keys apply_keys)
  ∧ Log1p_init scale apply_keys = Raise (ValueError_apply_keys apply_keys)
  ∧ CropData_init xmin xmax apply_keys = Raise (ValueError_apply_keys apply_keys)
  ∧ SqueezeData_init apply_keys = Raise (ValueError_apply_keys apply_keys).
Proof.
  intros H.
  unfold Normalize_init, Log1p_init, CropData_init, SqueezeData_init.
  by rewrite H.
Qed.

Lemma init_valid mean std scale xmin xmax (apply_keys : list string) :
  invalid_apply_keys apply_keys = false →
  Normalize_init mean std apply_keys
    = Ok {| Normalize_mean := mean; Normalize_std := std;
            Normalize_apply_keys := apply_keys |}
  ∧ Log1p_init scale apply_keys
    = Ok {| Log1p_scale := scale; Log1p_apply_keys := apply_keys |}
  ∧ CropData_init xmin xmax apply_keys
    = Ok {| CropData_xmin := xmin; CropData_xmax := xmax;
            CropData_apply_keys := apply_keys |}
  ∧ SqueezeData_init apply_keys
    = Ok {| SqueezeData_apply_keys := apply_keys |}.
Proof.
  intros H.
  unfold Normalize_init, Log1p_init, CropData_init, SqueezeData_init.
  by rewrite H.
Qed.
End Constructors.

(** C3.  The constructors of Normalize, Log1p, CropData and SqueezeData
    raise the [ValueError] that carries the given tuple when [apply_keys]
    is empty or has an element other than ["input"] and ["label"], as
    [()] and [("input", "extra")] do; on a non-empty tuple of elements of
    [{"input", "label"}] they return the object, with that tuple as its
    [apply_keys]. *)
Theorem init_apply_keys_checked
    {F : Type} (mean std : ndarray F) (scale : F) (xmin xmax : list Z)
    (apply_keys : list string) :
  ((apply_keys = [] ∨ ∃ x, x ∈ apply_keys ∧ x ≠ "input" ∧ x ≠ "label") →
   Normalize_init mean std apply_keys = Raise (ValueError_apply_keys apply_keys)
   ∧ Log1p_init scale apply_keys = Raise (ValueError_apply_keys apply_keys)
   ∧ CropData_init xmin xmax apply_keys = Raise (ValueError_apply_keys apply_keys)
   ∧ SqueezeData_init apply_keys = Raise (ValueError_apply_keys apply_keys))
  ∧ ((apply_keys ≠ [] ∧ ∀ x, x ∈ apply_keys → x = "input" ∨ x = "label") →
     Normalize_init mean std apply_keys
       = Ok {| Normalize_mean := mean; Normalize_std := std;
               Normalize_apply_keys := apply_keys |}
     ∧ Log1p_init scale apply_keys
       = Ok {| Log1p_scale := scale; Log1p_apply_keys := apply_keys |}
     ∧ CropData_init xmin xmax apply_keys
       = Ok {| CropData_xmin := xmin; CropData_xmax := xmax;
               CropData_apply_keys := apply_keys |}
     ∧ SqueezeData_init apply_keys
       = Ok {| SqueezeData_apply_keys := apply_keys |}).
Proof.
  split; intros H.
  - apply init_invalid. by apply invalid_apply_keys_spec.
  - apply init_valid. by apply valid_apply_keys_spec.
Qed.

Lemma init_apply_keys_checked_witness :
  (SqueezeData_init [] = Raise (ValueError_apply_keys [])
   ∧ SqueezeData_init ["input"; "extra"]
     = Raise (ValueError_apply_keys ["input"; "extra"]))
  ∧ CropData_init [0; 0]%Z [2; 3]%Z ["label"; "input"]
    = Ok {| CropData_xmin := [0; 0]%Z; CropData_xmax := [2; 3]%Z;
            CropData_apply_keys := ["label"; "input"] |}.
Proof.
  pose (m := mk_ndarray [] [0%float]).
  split; [split |].
  - apply (init_apply_keys_checked m m 1%float [] [] []).
    left. reflexivity.
  - apply (init_apply_keys_checked m m 1%float [] [] ["input"; "extra"]).
    right. exists "extra".
    split; [| split; discriminate].
    apply list_elem_of_In. simpl. tauto.
  - apply (init_apply_keys_checked m m 1%float [0; 0]%Z [2; 3]%Z
             ["label"; "input"]).
    split; [discriminate |].
    intros x Hx. apply list_elem_of_In in Hx. simpl in Hx.
    destruct Hx as [<- | [<- | []]]; tauto.
Defined.

(** ** Dicts as association lists *)

Section DictFacts.
Context {V : Type}.
Implicit Types (d pre rest : list (string * V)) (key : string) (v : V).

Lemma dict_get_is_Some d key : is_Some (dict_get d key) ↔ key ∈ d.*1.
Proof.
  induction d as [| [k w] d IH]; simpl.
  - split; [by intros [? ?] | by intros ?%elem_of_nil].
  - rewrite elem_of_cons. destruct (decide (k = key)) as [-> | Hne].
    + split; eauto.
    + rewrite IH. split; [by right |].
      intros [-> | ?]; done.
Qed.

Lemma dict_get_elem_of d key v : NoDup d.*1 → (key, v) ∈ d → dict_get d key = Some v.
Proof.
  induction d as [| [k w] d IH]; simpl; intros Hnd Hin.
  - by apply elem_of_nil in Hin.
  - apply NoDup_cons in Hnd as [Hk Hnd].
    apply elem_of_cons in Hin as [[= <- <-] | Hin].
    + by rewrite decide_True.
    + destruct (decide (k = key)) as [-> | Hne]; [| by apply IH].
      exfalso. apply Hk. apply list_elem_of_fmap. by exists (key, v).
Qed.

Lemma dict_get_Some_elem_of d key v : dict_get d key = Some v → (key, v) ∈ d.
Proof.
  induction d as [| [k w] d IH]; simpl; [done |].
  destruct (decide (k = key)) as [-> | Hne].
  - intros [= ->]. apply elem_of_cons. by left.
  - intros H. apply elem_of_cons. right. by apply IH.
Qed.

Lemma dict_set_keys d key v : key ∈ d.*1 → (dict_set d key v).*1 = d.*1.
Proof.
  induction d as [| [k w] d IH]; simpl.
  - by intros ?%elem_of_nil.
  - intros Hin. destruct (decide (k = key)) as [-> | Hne]; [done |].
    simpl. f_equal. apply IH.
    apply elem_of_cons in Hin as [-> | Hin]; done.
Qed.

Lemma dict_set_middle pre rest key v w :
  key ∉ pre.*1 → dict_set (pre ++ (key, w) :: rest) key v = pre ++ (key, v) :: rest.
Proof.
  induction pre as [| [k u] pre IH]; simpl; intros Hni.
  - by rewrite decide_True.
  - apply not_elem_of_cons in Hni as [Hne Hni].
    rewrite decide_False by done. by rewrite IH.
Qed.
End DictFacts.

(** ** Running the monad *)

Section MonadFacts.
Context {F : Type}.
Implicit Types (st : store F).

Lemma bind_ok {A B} (m : M F A) (k : A → M F B) st a st' :
  m st = (Ok a, st') → (m ≫= k) st = k a st'.
Proof. intros H. unfold mbind, M_bind. by rewrite H. Qed.

Lemma bind_raise {A B} (m : M F A) (k : A → M F B) st e st' :
  m st = (Raise e, st') → (m ≫= k) st = (Raise e, st').
Proof. intros H. unfold mbind, M_bind. by rewrite H. Qed.

Lemma bind_inv_ok {A B} (m : M F A) (k : A → M F B) st b st' :
  (m ≫= k) st = (Ok b, st') →
  ∃ a st1, m st = (Ok a, st1) ∧ k a st1 = (Ok b, st').
Proof.
  unfold mbind, M_bind. destruct (m st) as [[a | e] st1]; [eauto | done].
Qed.

Lemma dict_load_ok st d x : dicts st !! d = Some x → dict_load d st = (Ok x, st).
Proof. intros H. unfold dict_load. by rewrite H. Qed.

Lemma dict_copy_ok st d x :
  dicts st !! d = Some x →
  dict_copy d st = (Ok (length (dicts st)), mk_store (dicts st ++ [x]) (arrays st) (layout st)).
Proof.
  intros H. unfold dict_copy. by rewrite (bind_ok _ _ _ _ _ (dict_load_ok _ _ _ H)).
Qed.

Lemma array_load_ok st r a : arrays st !! r = Some a → array_load r st = (Ok a, st).
Proof. intros H. unfold array_load. by rewrite H. Qed.

Lemma dict_getitem_run st d x key :
  dicts st !! d = Some x →
  dict_getitem d key st
  = (match dict_get x key with
     | Some r => Ok r
     | None => Raise (KeyError key)
     end, st).
Proof.
  intros H. unfold dict_getitem.
  rewrite (bind_ok _ _ _ _ _ (dict_load_ok _ _ _ H)).
  by destruct (dict_get x key).
Qed.

Lemma dict_contains_run st d x key :
  dicts st !! d = Some x →
  dict_contains d key st = (Ok (bool_decide (is_Some (dict_get x key))), st).
Proof.
  intros H. unfold dict_contains.
  by rewrite (bind_ok _ _ _ _ _ (dict_load_ok _ _ _ H)).
Qed.

Lemma dict_setitem_ok st d x key r :
  dicts st !! d = Some x →
  dict_setitem d key r st
  = (Ok (), mk_store (<[d := dict_set x key r]> (dicts st)) (arrays st) (layout st)).
Proof. intros H. unfold dict_setitem. by rewrite H. Qed.
End MonadFacts.

(** ** The loop that replaces every value of a dict *)

Section UpdateValues.
Context {F : Type}.
Implicit Types (st : store F) (f : ndarray F → result (ndarray F))
  (mem : nat → ndarray F → store F → memory).

Lemma for_each_update_ok mem f d rest : ∀ ts pre st,
  dicts st !! d = Some (pre ++ rest) →
  NoDup (pre ++ rest).*1 →
  Forall2 (item_result (arrays st) f) rest ts →
  ∃ ms,
    for_each rest (update_body mem f d) st
    = (Ok (),
       mk_store
         (<[d := pre ++ zip rest.*1 (seq (length (arrays st)) (length rest))]>
            (dicts st))
         (arrays st ++ ts) (layout st ++ ms))
    ∧ length ms = length ts.
Proof.
  induction rest as [| [k r] rest IH]; intros ts pre st Hd Hnd Hall.
  - apply Forall2_nil_inv_l in Hall as ->. exists []. simpl.
    unfold mret, M_ret. rewrite !app_nil_r in *.
    rewrite list_insert_id by done. by destruct st.
  - apply Forall2_cons_inv_l in Hall as (t & ts' & (v & Hv & Hf) & Hall & ->).
    simpl in Hv. cbn [for_each].
    assert (d < length (dicts st)) as Hlt by (by eapply lookup_lt_Some).
    assert (k ∉ pre.*1) as Hk.
    { rewrite fmap_app in Hnd. apply NoDup_app in Hnd as (_ & Hdisj & _).
      intros Hin. apply (Hdisj k Hin). simpl. apply elem_of_cons. by left. }
    set (st2 := mk_store (<[d := pre ++ (k, length (arrays st)) :: rest]> (dicts st))
                         (arrays st ++ [t]) (layout st ++ [mem r t st])).
    assert (update_body mem f d (k, r) st = (Ok (), st2)) as Hbody.
    { unfold update_body.
      rewrite (bind_ok _ _ _ _ _ (array_load_ok _ _ _ Hv)).
      unfold lift at 1. unfold mbind at 1, M_bind at 1. rewrite Hf.
      unfold array_new at 1. unfold mbind at 1, M_bind at 1.
      erewrite dict_setitem_ok by (simpl; exact Hd).
      simpl. by rewrite dict_set_middle. }
    rewrite (bind_ok _ _ _ _ _ Hbody).
    destruct (IH ts' (pre ++ [(k, length (arrays st))]) st2)
      as (ms & Hrun & Hlen).
    + subst st2. simpl. rewrite <- app_assoc. simpl.
      by apply list_lookup_insert_eq.
    + rewrite <- app_assoc. simpl.
      rewrite !fmap_app in *. simpl in *. done.
    + subst st2. simpl.
      eapply Forall2_impl; [exact Hall |].
      intros [k' r'] t' (v' & Hv' & Hf'). exists v'. split; [| done].
      simpl in *. by apply lookup_app_l_Some.
    + exists (mem r t st :: ms). split; [| by simpl; rewrite Hlen].
      rewrite Hrun. subst st2. simpl. rewrite list_insert_insert_eq.
      rewrite length_app. simpl.
      rewrite <- !app_assoc. simpl.
      by replace (length (arrays st) + 1) with (S (length (arrays st))) by lia.
Qed.
End UpdateValues.

(** ** The content of dicts *)

Section Content.
Context {F : Type}.
Implicit Types (st : store F) (arrs : list (ndarray F)) (x : dict)
  (c : list (string * ndarray F)) (f : ndarray F → result (ndarray F))
  (mem : nat → ndarray F → store F → memory).

Lemma deref_keys arrs x c : deref arrs x = Some c → c.*1 = x.*1.
Proof.
  unfold deref. intros H%mapM_Some_1.
  induction H as [| [k r] [k' v] x c H _ IH]; [done |].
  simpl in *. destruct (arrs !! r); simplify_eq/=. by f_equal.
Qed.

Lemma deref_app arrs extra x c :
  deref arrs x = Some c → deref (arrs ++ extra) x = Some c.
Proof.
  unfold deref. intros H%mapM_Some_1. apply mapM_Some_2.
  eapply Forall2_impl; [exact H |].
  intros [k r] kv Hkv. simpl in *.
  destruct (arrs !! r) as [v |] eqn:Hr; [| done].
  by rewrite (lookup_app_l_Some _ _ _ _ Hr).
Qed.

Lemma deref_new c : ∀ arrs,
  deref (arrs ++ c.*2) (zip c.*1 (seq (length arrs) (length c))) = Some c.
Proof.
  unfold deref.
  induction c as [| [k t] c IH]; intros arrs; [done |].
  cbn [fmap list_fmap length seq zip zip_with mapM fst snd].
  rewrite lookup_app_r by lia. rewrite Nat.sub_diag. simpl.
  specialize (IH (arrs ++ [t])).
  rewrite <- app_assoc, length_app in IH. simpl in IH.
  replace (length arrs + 1) with (S (length arrs)) in IH by lia.
  by rewrite IH.
Qed.

Lemma deref_item_result arrs f x : ∀ c c',
  deref arrs x = Some c → values_mapped f c c' →
  Forall2 (item_result arrs f) x c'.*2.
Proof.
  unfold deref, values_mapped.
  induction x as [| [k r] x IH]; intros c c' Hc Hm.
  - apply mapM_Some_1 in Hc. apply Forall2_nil_inv_l in Hc as ->.
    apply Forall2_nil_inv_l in Hm as ->. constructor.
  - apply mapM_Some_1 in Hc.
    apply Forall2_cons_inv_l in Hc as (kv & c0 & Hkv & Hc & ->).
    apply Forall2_cons_inv_l in Hm as (kt & c0' & [Hk Hf] & Hm & ->).
    simpl in *. destruct (arrs !! r) as [v |] eqn:Hr; simplify_eq/=.
    constructor.
    + exists v. done.
    + eapply IH; [by apply mapM_Some_2 | done].
Qed.

Lemma values_mapped_keys f c c' : values_mapped f c c' → c'.*1 = c.*1.
Proof.
  induction 1 as [| kv kt c c' [Hk _] _ IH]; [done |].
  simpl. by f_equal.
Qed.

Lemma content_extends st st' d c :
  store_extends st st' → content st d = Some c → content st' d = Some c.
Proof.
  intros [[dk Hd] [ak Ha]]. unfold content. rewrite Hd, Ha.
  destruct (dicts st !! d) as [x |] eqn:Hx; [| done].
  rewrite (lookup_app_l_Some _ _ _ _ Hx). simpl.
  apply deref_app.
Qed.

Lemma content_frame st st' d c :
  dicts st' !! d = dicts st !! d → arrays st `prefix_of` arrays st' →
  content st d = Some c → content st' d = Some c.
Proof.
  intros Hd [ak Ha]. unfold content. rewrite Hd, Ha.
  destruct (dicts st !! d) as [x |]; [| done].
  simpl. apply deref_app.
Qed.

(** One loop: the dict [d] ends with [f] of each of its arrays, as new
    array objects; nothing else changes. *)
Lemma update_values_post mem f d st c c' :
  content st d = Some c → NoDup c.*1 → values_mapped f c c' →
  ∃ st', update_values mem f d st = (Ok (), st')
         ∧ content st' d = Some c'
         ∧ (∀ d', d' ≠ d → dicts st' !! d' = dicts st !! d')
         ∧ length (dicts st') = length (dicts st)
         ∧ arrays st `prefix_of` arrays st'.
Proof.
  unfold content. intros Hc Hnd Hm.
  destruct (dicts st !! d) as [x |] eqn:Hx; [| done]. simpl in Hc.
  pose proof (deref_keys _ _ _ Hc) as Hkeys.
  pose proof (values_mapped_keys _ _ _ Hm) as Hkeys'.
  pose proof (deref_item_result _ _ _ _ _ Hc Hm) as Hall.
  destruct (for_each_update_ok mem f d x c'.*2 [] st) as (ms & Hrun & _);
    [done | by simpl; rewrite <- Hkeys | done |].
  eexists. split; [| split; [| split; [| split]]].
  - unfold update_values, dict_items.
    rewrite (bind_ok _ _ _ _ _ (dict_load_ok _ _ _ Hx)).
    exact Hrun.
  - simpl. rewrite list_lookup_insert_eq by (by eapply lookup_lt_Some).
    simpl. rewrite <- Hkeys, <- Hkeys'.
    replace (length x) with (length c').
    + apply deref_new.
    + rewrite <- (length_fmap fst c'), <- (length_fmap fst x). congruence.
  - intros d' Hne. simpl. by apply list_lookup_insert_ne.
  - simpl. apply length_insert.
  - simpl. by eexists.
Qed.

End Content.

(** ** Copy, then replace the values of the selected dicts *)

Section OnSelected.
Context {F : Type}.
Implicit Types (st : store F) (c : list (string * ndarray F))
  (f : ndarray F → result (ndarray F))
  (mem : nat → ndarray F → store F → memory).

Lemma on_selected_update_ok apply_keys mem f input label weight st ci cl ci' cl' :
  content st input = Some ci → content st label = Some cl →
  NoDup ci.*1 → NoDup cl.*1 →
  selected_result apply_keys "input" f ci ci' →
  selected_result apply_keys "label" f cl cl' →
  ∃ st',
    on_selected apply_keys (update_values mem f) input label weight st
    = (Ok (length (dicts st), S (length (dicts st)), weight), st')
    ∧ content st' (length (dicts st)) = Some ci'
    ∧ content st' (S (length (dicts st))) = Some cl'
    ∧ (∀ d, d < length (dicts st) → dicts st' !! d = dicts st !! d)
    ∧ arrays st `prefix_of` arrays st'.
Proof.
  intros Hci Hcl Hndi Hndl Hi Hl.
  unfold content in Hci, Hcl.
  destruct (dicts st !! input) as [xi |] eqn:Hxi; [| done].
  destruct (dicts st !! label) as [xl |] eqn:Hxl; [| done].
  simpl in Hci, Hcl.
  set (n := length (dicts st)).
  set (st1 := mk_store (dicts st ++ [xi]) (arrays st) (layout st)).
  set (st2 := mk_store ((dicts st ++ [xi]) ++ [xl]) (arrays st) (layout st)).
  assert (content st2 n = Some ci) as Hci2.
  { unfold content, st2. simpl.
    rewrite lookup_app_l by (rewrite length_app; simpl; lia).
    rewrite lookup_app_r by (unfold n; lia).
    unfold n. rewrite Nat.sub_diag. done. }
  assert (content st2 (S n) = Some cl) as Hcl2.
  { unfold content, st2. simpl.
    rewrite lookup_app_r by (rewrite length_app; simpl; unfold n; lia).
    rewrite length_app. simpl. unfold n.
    replace (S (length (dicts st)) - (length (dicts st) + 1)) with 0 by lia.
    done. }
  assert (∀ d, d < n → dicts st2 !! d = dicts st !! d) as Hold2.
  { intros d Hd. unfold st2. simpl. rewrite <- app_assoc.
    by rewrite lookup_app_l. }
  (* the loop over the copy of the inputs *)
  assert (∃ st3,
    (if bool_decide ("input" ∈ apply_keys)
     then update_values mem f n else mret ()) st2 = (Ok (), st3)
    ∧ content st3 n = Some ci'
    ∧ content st3 (S n) = Some cl
    ∧ (∀ d, d < n → dicts st3 !! d = dicts st !! d)
    ∧ arrays st `prefix_of` arrays st3) as (st3 & Hrun3 & Hci3 & Hcl3 & Hold3 & Hpre3).
  { revert Hi. unfold selected_result.
    destruct (bool_decide ("input" ∈ apply_keys)); intros Hi.
    - destruct (update_values_post mem f n st2 ci ci' Hci2 Hndi Hi)
        as (st3 & Hrun & Hc & Hother & Hlen & Hpre).
      exists st3. split; [done |]. split; [done |]. split; [| split].
      + apply (content_frame st2); [apply Hother; lia | done | done].
      + intros d Hd. rewrite Hother by lia. by apply Hold2.
      + done.
    - subst ci'. exists st2. split; [done |]. split; [done |].
      split; [done |]. split; [done |]. done. }
  (* the loop over the copy of the labels *)
  assert (∃ st4,
    (if bool_decide ("label" ∈ apply_keys)
     then update_values mem f (S n) else mret ()) st3 = (Ok (), st4)
    ∧ content st4 n = Some ci'
    ∧ content st4 (S n) = Some cl'
    ∧ (∀ d, d < n → dicts st4 !! d = dicts st !! d)
    ∧ arrays st `prefix_of` arrays st4) as (st4 & Hrun4 & Hci4 & Hcl4 & Hold4 & Hpre4).
  { revert Hl. unfold selected_result.
    destruct (bool_decide ("label" ∈ apply_keys)); intros Hl.
    - destruct (update_values_post mem f (S n) st3 cl cl' Hcl3 Hndl Hl)
        as (st4 & Hrun & Hc & Hother & Hlen & Hpre).
      exists st4. split; [done |]. split; [| split; [done |]; split].
      + apply (content_frame st3); [apply Hother; lia | done | done].
      + intros d Hd. rewrite Hother by lia. by apply Hold3.
      + by etrans.
    - subst cl'. exists st3. split; [done |]. split; [done |].
      split; [done |]. split; [done |]. done. }
  exists st4. split; [| done].
  unfold on_selected.
  rewrite (bind_ok _ _ _ _ _ (dict_copy_ok _ _ _ Hxi)).
  assert (dicts st1 !! label = Some xl) as Hxl1.
  { unfold st1. simpl. by apply lookup_app_l_Some. }
  rewrite (bind_ok _ _ _ _ _ (dict_copy_ok _ _ _ Hxl1)).
  replace (length (dicts st1)) with (S n)
    by (unfold st1; simpl; rewrite length_app; simpl; unfold n; lia).
  change (mk_store (dicts st1 ++ [xl]) (arrays st1) (layout st1)) with st2.
  rewrite (bind_ok _ _ _ _ _ Hrun3). cbv beta.
  rewrite (bind_ok _ _ _ _ _ Hrun4).
  done.
Qed.

(** The transforms that build new arrays leave every dict and every
    array of the caller as it was. *)
Lemma on_selected_update_leaves_arguments apply_keys mem f input label weight st
    ci cl ci' cl' :
  content st input = Some ci → content st label = Some cl →
  NoDup ci.*1 → NoDup cl.*1 →
  selected_result apply_keys "input" f ci ci' →
  selected_result apply_keys "label" f cl cl' →
  ∃ r st',
    on_selected apply_keys (update_values mem f) input label weight st = (Ok r, st')
    ∧ (∀ d, is_Some (dicts st !! d) → dicts st' !! d = dicts st !! d)
    ∧ (∀ a, is_Some (arrays st !! a) → arrays st' !! a = arrays st !! a)
    ∧ (∀ d c, content st d = Some c → content st' d = Some c).
Proof.
  intros Hci Hcl Hndi Hndl Hi Hl.
  destruct (on_selected_update_ok apply_keys mem f input label weight st
              ci cl ci' cl' Hci Hcl Hndi Hndl Hi Hl)
    as (st' & Hrun & _ & _ & Hold & Hpre).
  eexists _, st'. split; [exact Hrun |].
  assert (∀ d, is_Some (dicts st !! d) → dicts st' !! d = dicts st !! d) as Hd.
  { intros d [x Hx]. apply Hold. by eapply lookup_lt_Some. }
  split; [done |]. split.
  - intros a [v Hv]. destruct Hpre as [k ->].
    by rewrite (lookup_app_l_Some _ _ _ _ Hv).
  - intros d c Hc. apply (content_frame st); [| done | done].
    apply Hd. unfold content in Hc.
    destruct (dicts st !! d); [by eexists | done].
Qed.
End OnSelected.

(** ** The arrays of numpy: what slicing and broadcasting compute *)

Section Arrays.
Context {A : Type}.
Implicit Types (xs row : list A) (n sz : nat).

Lemma chunks_length n sz xs : length (chunks n sz xs) = n.
Proof. revert xs. induction n as [| n IH]; intros xs; simpl; [done |]. by rewrite IH. Qed.

Lemma chunks_take n sz xs row : row ∈ chunks n sz xs → take sz row = row.
Proof.
  revert xs. induction n as [| n IH]; intros xs; simpl.
  - by intros ?%elem_of_nil.
  - intros [-> | Hin]%elem_of_cons; [| by eapply IH].
    rewrite take_take. f_equal. lia.
Qed.

Lemma chunks_nil n sz : chunks n sz ([] : list A) = replicate n [].
Proof.
  induction n as [| n IH]; simpl; [done |].
  by rewrite take_nil, drop_nil, IH.
Qed.

Lemma flat_map_ext_elem {B} (f g : A → list B) (l : list A) :
  (∀ x, x ∈ l → f x = g x) → flat_map f l = flat_map g l.
Proof.
  induction l as [| x l IH]; intros Hfg; simpl; [done |].
  rewrite (Hfg x) by (apply elem_of_cons; by left).
  rewrite IH; [done |]. intros y Hy. apply Hfg, elem_of_cons. by right.
Qed.

(** A slice of the last axis: the elements from [lo] on, [w] of them. *)
Lemma slice_last_axis W row : ∀ lo w,
  flat_map (λ x : list A, x) (take w (drop lo (chunks W 1 row)))
  = take w (drop lo (take W row)).
Proof.
  revert row. induction W as [| W IH]; intros row lo w.
  - simpl. by rewrite take_0, !drop_nil, !take_nil.
  - destruct row as [| a row].
    + rewrite chunks_nil, take_nil, drop_nil, take_nil.
      rewrite drop_replicate, take_replicate.
      generalize (w `min` (S W - lo)). intros m.
      induction m as [| m IHm]; simpl; [done |]. by rewrite IHm.
    + cbn [chunks]. rewrite firstn_cons. cbn [take drop].
      change (take 0 row) with (@nil A).
      destruct lo as [| lo].
      * destruct w as [| w]; [done |].
        rewrite !drop_0. cbn [take flat_map]. simpl.
        f_equal. pose proof (IH row 0 w) as IH0.
        by rewrite !drop_0 in IH0.
      * cbn [drop]. apply IH.
Qed.
End Arrays.

Section CropData.
Context {F : Type}.
Implicit Types (v : ndarray F).

(** The elements of [v[:, x0:x1, y0:y1]] for [v] of shape [[C, H, W]]:
    for every channel, the rows of the first slice, and of each row the
    columns of the second. *)
Lemma crop_box_data x0 x1 y0 y1 v C H W :
  shape v = [C; H; W] →
  data (crop_box x0 x1 y0 y1 v)
  = flat_map
      (λ channel,
         flat_map
           (λ row, take (slice_indices y0 y1 W).2
                        (drop (slice_indices y0 y1 W).1 row))
           (take (slice_indices x0 x1 H).2
                 (drop (slice_indices x0 x1 H).1 (chunks H W channel))))
      (chunks C (H * W) (data v)).
Proof.
  intros Hs. unfold crop_box. rewrite Hs.
  cbn [data slice_data head tail index_range numel foldr].
  rewrite drop_0, Nat.mul_1_r.
  rewrite firstn_all2 by (by rewrite chunks_length).
  apply flat_map_ext_elem. intros channel _.
  destruct (slice_indices x0 x1 H) as [lo0 h] eqn:E0.
  destruct (slice_indices y0 y1 W) as [lo1 w] eqn:E1.
  cbn [fst snd].
  apply flat_map_ext_elem. intros row Hrow.
  apply elem_of_take in Hrow as (i & Hrow & _).
  rewrite lookup_drop in Hrow.
  apply list_elem_of_lookup_2 in Hrow.
  by rewrite slice_last_axis, (chunks_take _ _ _ _ Hrow).
Qed.

(** Bounds inside the axis are taken as they are. *)
Lemma slice_indices_inside (start stop : Z) (n : nat) :
  (0 ≤ start ≤ stop)%Z → (stop ≤ Z.of_nat n)%Z →
  slice_indices start stop n = (Z.to_nat start, Z.to_nat stop - Z.to_nat start).
Proof.
  intros H1 H2. unfold slice_indices.
  destruct (Z.ltb_spec start 0), (Z.ltb_spec stop 0); try lia.
  f_equal; lia.
Qed.
End CropData.

Section Broadcast.
Context {F : Type}.
Implicit Types (a b : ndarray F) (s : list nat).

Lemma chunks_elem_length {A} n sz (xs row : list A) :
  length xs = n * sz → row ∈ chunks n sz xs → length row = sz.
Proof.
  revert xs. induction n as [| n IH]; intros xs Hlen; simpl.
  - by intros ?%elem_of_nil.
  - intros [-> | Hin]%elem_of_cons.
    + rewrite length_take. lia.
    + apply (IH (drop sz xs)); [| done]. rewrite length_drop. lia.
Qed.

Lemma chunks_concat {A} n sz (xs : list A) :
  length xs = n * sz → flat_map (λ row, row) (chunks n sz xs) = xs.
Proof.
  revert xs. induction n as [| n IH]; intros xs Hlen; simpl.
  - symmetry. by apply length_zero_iff_nil.
  - rewrite IH by (rewrite length_drop; lia). apply take_drop.
Qed.

(** An array of the target shape is broadcast to itself. *)
Lemma expand_same {A} s : ∀ xs : list A,
  length xs = numel s → expand s s xs = xs.
Proof.
  induction s as [| n rs IH]; intros xs Hlen; [done |].
  cbn [expand]. rewrite Nat.eqb_refl.
  rewrite (flat_map_ext_elem _ (λ row, row)).
  - by apply chunks_concat.
  - intros row Hrow. apply IH. by eapply chunks_elem_length.
Qed.

Lemma numel_ones k : numel (replicate k 1) = 1.
Proof. induction k as [| k IH]; simpl; [done |]. rewrite IH. done. Qed.

Lemma concat_replicate_replicate {A} n m (x : A) :
  concat (replicate n (replicate m x)) = replicate (n * m) x.
Proof.
  induction n as [| n IH]; simpl; [done |]. by rewrite IH, replicate_add.
Qed.

(** A scalar is broadcast to as many copies as the target has elements. *)
Lemma expand_scalar {A} s (m : A) :
  expand s (replicate (length s) 1) [m] = replicate (numel s) m.
Proof.
  induction s as [| n rs IH]; [done |].
  cbn [length replicate expand numel foldr].
  destruct (1 =? n)%nat eqn:E.
  - apply Nat.eqb_eq in E as <-.
    cbn [chunks flat_map]. rewrite numel_ones. cbn [take].
    rewrite app_nil_r, IH. f_equal. unfold numel. lia.
  - by rewrite IH, concat_replicate_replicate.
Qed.

Lemma broadcast_shapes_scalar s : broadcast_shapes s [] = Some s.
Proof.
  unfold broadcast_shapes. rewrite reverse_nil.
  destruct (reverse s) eqn:E; simpl.
  - by rewrite <- (reverse_involutive s), E.
  - by rewrite <- E, reverse_involutive.
Qed.

Lemma broadcast_shapes_same s : broadcast_shapes s s = Some s.
Proof.
  unfold broadcast_shapes.
  assert (∀ l, broadcast_rev l l = Some l) as Hrev.
  { induction l as [| x l IH]; simpl; [done |].
    by rewrite Nat.eqb_refl, IH. }
  by rewrite Hrev; simpl; rewrite reverse_involutive.
Qed.

(** [a op m] for a scalar [m] ([0.0], or an array of no axis): [op] with
    [m] on every element. *)
Lemma np_binop_scalar (op : F → F → F) a (m : F) :
  wf_ndarray a →
  np_binop op a (mk_ndarray [] [m])
  = Ok (mk_ndarray (shape a) ((λ x, op x m) <$> data a)).
Proof.
  intros Hwf. unfold np_binop. cbn [shape].
  rewrite broadcast_shapes_scalar. unfold broadcast_to. cbn [shape data].
  rewrite Nat.sub_diag, Nat.sub_0_r, app_nil_r. cbn [replicate app].
  rewrite expand_same by done. rewrite expand_scalar.
  by rewrite zip_with_replicate_r_eq.
Qed.

(** [a op b] for arrays of one shape: [op] element by element. *)
Lemma np_binop_same_shape (op : F → F → F) a b :
  shape a = shape b → wf_ndarray a → wf_ndarray b →
  np_binop op a b = Ok (mk_ndarray (shape a) (zip_with op (data a) (data b))).
Proof.
  intros Hs Ha Hb. unfold np_binop. rewrite <- Hs.
  rewrite broadcast_shapes_same. unfold broadcast_to. rewrite <- Hs.
  rewrite Nat.sub_diag. cbn [replicate app].
  rewrite !expand_same; [done | | done].
  unfold wf_ndarray in Hb. by rewrite Hs.
Qed.
End Broadcast.

(** ** Normalize *)

Lemma normalize_scalars {F : Type} (fsub fdiv : F → F → F)
    (self : Normalize) (v : ndarray F) (m s : F) :
  Normalize_mean self = mk_ndarray [] [m] →
  Normalize_std self = mk_ndarray [] [s] →
  wf_ndarray v →
  normalize fsub fdiv self v
  = Ok (mk_ndarray (shape v) ((λ x, fdiv (fsub x m) s) <$> data v)).
Proof.
  intros Hm Hs Hwf. unfold normalize, np_sub, np_div. rewrite Hm, Hs.
  rewrite np_binop_scalar by done. simpl.
  rewrite np_binop_scalar by (unfold wf_ndarray; simpl; by rewrite length_fmap).
  simpl. by rewrite <- list_fmap_compose.
Qed.

(** C6.  [Normalize.__call__] returns new dicts for the inputs and the
    labels and the weights it was given.  A dict selected by [apply_keys]
    holds, under each name, [(v - mean) / std] of the array [v] the
    argument held there (numpy's broadcast subtraction and division); a
    dict that is not selected holds what the argument held.  For a scalar
    mean [m] and a scalar std [s], [(v - mean) / std] has the shape of
    [v] and the elements [(x - m) / s]. *)
Theorem Normalize_call_normalizes
    {F : Type} (fsub fdiv : F → F → F) (self : Normalize)
    (input_item label_item : nat) (weight_item : option nat) (st : store F)
    (ci cl ci' cl' : list (string * ndarray F)) :
  content st input_item = Some ci →
  content st label_item = Some cl →
  NoDup ci.*1 → NoDup cl.*1 →
  selected_result (Normalize_apply_keys self) "input"
    (λ v, d ← np_sub fsub v (Normalize_mean self);
          np_div fdiv d (Normalize_std self)) ci ci' →
  selected_result (Normalize_apply_keys self) "label"
    (λ v, d ← np_sub fsub v (Normalize_mean self);
          np_div fdiv d (Normalize_std self)) cl cl' →
  (∃ input_item_copy label_item_copy st',
     Normalize_call fsub fdiv self input_item label_item weight_item st
     = (Ok (input_item_copy, label_item_copy, weight_item), st')
     ∧ content st' input_item_copy = Some ci'
     ∧ content st' label_item_copy = Some cl')
  ∧ (∀ (v : ndarray F) (m s : F),
       Normalize_mean self = mk_ndarray [] [m] →
       Normalize_std self = mk_ndarray [] [s] →
       wf_ndarray v →
       (d ← np_sub fsub v (Normalize_mean self);
        np_div fdiv d (Normalize_std self))
       = Ok (mk_ndarray (shape v) ((λ x, fdiv (fsub x m) s) <$> data v))).
Proof.
  intros Hci Hcl Hndi Hndl Hi Hl. split.
  - destruct (on_selected_update_ok (Normalize_apply_keys self) computed
                (normalize fsub fdiv self) input_item label_item weight_item
                st ci cl ci' cl' Hci Hcl Hndi Hndl Hi Hl)
      as (st' & Hrun & Hci' & Hcl' & _).
    exists (length (dicts st)), (S (length (dicts st))), st'. done.
  - intros v m s. apply normalize_scalars.
Qed.

Lemma Normalize_call_normalizes_witness :
  ∃ input_item_copy label_item_copy st',
    Normalize_call PrimFloat.sub PrimFloat.div
      {| Normalize_mean := mk_ndarray [] [0%float];
         Normalize_std := mk_ndarray [] [2%float];
         Normalize_apply_keys := ["input"] |}
      0 1 None
      (new_store [[("x", 0)]; [("u", 1)]]
                [mk_ndarray [] [4%float]; mk_ndarray [2] [1%float; 3%float]])
    = (Ok (input_item_copy, label_item_copy, None), st')
    ∧ content st' input_item_copy = Some [("x", mk_ndarray [] [2%float])]
    ∧ content st' label_item_copy
      = Some [("u", mk_ndarray [2] [1%float; 3%float])].
Proof.
  refine (proj1 (Normalize_call_normalizes PrimFloat.sub PrimFloat.div
           {| Normalize_mean := mk_ndarray [] [0%float];
              Normalize_std := mk_ndarray [] [2%float];
              Normalize_apply_keys := ["input"] |}
           0 1 None
           (new_store [[("x", 0)]; [("u", 1)]]
                     [mk_ndarray [] [4%float];
                      mk_ndarray [2] [1%float; 3%float]])
           [("x", mk_ndarray [] [4%float])]
           [("u", mk_ndarray [2] [1%float; 3%float])]
           [("x", mk_ndarray [] [2%float])]
           [("u", mk_ndarray [2] [1%float; 3%float])]
           eq_refl eq_refl (NoDup_singleton _) (NoDup_singleton _) _ _)).
  - unfold selected_result. simpl.
    constructor; [| constructor]. split; reflexivity.
  - reflexivity.
Defined.

(** ** CropData *)

Section Crop.
Context {F : Type}.
Implicit Types (v : ndarray F) (self : CropData).

Lemma crop_3d self x0 y0 x1 y1 v :
  CropData_xmin self !! 0 = Some x0 → CropData_xmin self !! 1 = Some y0 →
  CropData_xmax self !! 0 = Some x1 → CropData_xmax self !! 1 = Some y1 →
  (3 ≤ ndim v)%nat →
  crop self v = Ok (crop_box x0 x1 y0 y1 v).
Proof.
  intros Hx0 Hy0 Hx1 Hy1 Hn.
  unfold crop, tuple_get. rewrite Hx0, Hy0, Hx1, Hy1. simpl.
  unfold getitem. simpl length.
  destruct (ndim v <? 3)%nat eqn:Hlt; [| done].
  apply Nat.ltb_lt in Hlt. lia.
Qed.

Lemma values_mapped_fmap (f : ndarray F → result (ndarray F))
    (g : ndarray F → ndarray F) (c : list (string * ndarray F)) :
  Forall (λ kv, f kv.2 = Ok (g kv.2)) c →
  values_mapped f c (prod_map id g <$> c).
Proof.
  unfold values_mapped. induction 1 as [| [k v] c Hf _ IH]; constructor; done.
Qed.

Lemma crop_box_shape x0 x1 y0 y1 v C H W :
  shape v = [C; H; W] →
  shape (crop_box x0 x1 y0 y1 v)
  = [C; (slice_indices x0 x1 H).2; (slice_indices y0 y1 W).2].
Proof. intros Hs. unfold crop_box. by rewrite Hs. Qed.
End Crop.

(** C7.  With [xmin = (x0, y0, ...)] and [xmax = (x1, y1, ...)],
    [CropData.__call__] on dicts whose selected arrays have three axes
    returns new dicts where every array [v] of a selected dict is
    replaced by [v[:, x0:x1, y0:y1]]: its shape is the number of
    channels and the lengths of the two slices, and its elements are,
    channel by channel, the rows of the first slice cut to the columns of
    the second.  A dict that is not selected holds what the argument
    held.  With [xmin = (0, 0)] and [xmax = (2, 3)], shape [[C, 5, 5]]
    becomes [[C, 2, 3]]. *)
Theorem CropData_call_crops
    {F : Type} (self : CropData) (x0 y0 x1 y1 : Z)
    (input_item label_item : nat) (weight_item : option nat) (st : store F)
    (ci cl : list (string * ndarray F)) :
  CropData_xmin self !! 0 = Some x0 → CropData_xmin self !! 1 = Some y0 →
  CropData_xmax self !! 0 = Some x1 → CropData_xmax self !! 1 = Some y1 →
  content st input_item = Some ci →
  content st label_item = Some cl →
  NoDup ci.*1 → NoDup cl.*1 →
  ("input" ∈ CropData_apply_keys self → Forall (λ kv, ndim kv.2 = 3) ci) →
  ("label" ∈ CropData_apply_keys self → Forall (λ kv, ndim kv.2 = 3) cl) →
  (∃ input_item_copy label_item_copy st',
    CropData_call self input_item label_item weight_item st
    = (Ok (input_item_copy, label_item_copy, weight_item), st')
    ∧ content st' input_item_copy
      = Some (if bool_decide ("input" ∈ CropData_apply_keys self)
              then prod_map id (crop_box x0 x1 y0 y1) <$> ci else ci)
    ∧ content st' label_item_copy
      = Some (if bool_decide ("label" ∈ CropData_apply_keys self)
              then prod_map id (crop_box x0 x1 y0 y1) <$> cl else cl))
  ∧ (∀ (v : ndarray F) C H W, shape v = [C; H; W] →
       shape (crop_box x0 x1 y0 y1 v)
       = [C; (slice_indices x0 x1 H).2; (slice_indices y0 y1 W).2]
       ∧ data (crop_box x0 x1 y0 y1 v)
         = flat_map
             (λ channel,
                flat_map
                  (λ row, take (slice_indices y0 y1 W).2
                               (drop (slice_indices y0 y1 W).1 row))
                  (take (slice_indices x0 x1 H).2
                        (drop (slice_indices x0 x1 H).1
                              (chunks H W channel))))
             (chunks C (H * W) (data v)))
  ∧ (∀ (v : ndarray F) C, shape v = [C; 5; 5] →
       shape (crop_box 0 2 0 3 v) = [C; 2; 3]).
Proof.
  intros Hx0 Hy0 Hx1 Hy1 Hci Hcl Hndi Hndl H3i H3l.
  split; [| split].
  - assert (∀ name (c : list (string * ndarray F)),
      (name ∈ CropData_apply_keys self → Forall (λ kv, ndim kv.2 = 3) c) →
      selected_result (CropData_apply_keys self) name (crop self) c
        (if bool_decide (name ∈ CropData_apply_keys self)
         then prod_map id (crop_box x0 x1 y0 y1) <$> c else c)) as Hsel.
    { intros name c H3. unfold selected_result. case_bool_decide; [| done].
      apply values_mapped_fmap.
      eapply Forall_impl; [by apply H3 |].
      intros [k v] Hn. simpl in *. apply crop_3d; [done.. | lia]. }
    destruct (on_selected_update_ok (CropData_apply_keys self)
                (view (crop self)) (crop self)
                input_item label_item weight_item st ci cl _ _
                Hci Hcl Hndi Hndl (Hsel _ _ H3i) (Hsel _ _ H3l))
      as (st' & Hrun & Hci' & Hcl' & _).
    exists (length (dicts st)), (S (length (dicts st))), st'. done.
  - intros v C H W Hs. split; [by apply crop_box_shape |].
    by apply crop_box_data.
  - intros v C Hs. by rewrite (crop_box_shape _ _ _ _ _ _ _ _ Hs).
Qed.

Lemma CropData_call_crops_witness :
  ∃ input_item_copy label_item_copy st',
    CropData_call
      {| CropData_xmin := [0; 0]%Z; CropData_xmax := [2; 3]%Z;
         CropData_apply_keys := ["input"; "label"] |}
      0 1 None
      (new_store [[("input", 0)]; [("label", 1)]]
                [mk_ndarray [3; 5; 5] (replicate 75 0%float);
                 mk_ndarray [1; 5; 5] (replicate 25 1%float)])
    = (Ok (input_item_copy, label_item_copy, None), st')
    ∧ content st' input_item_copy
      = Some [("input", mk_ndarray [3; 2; 3] (replicate 18 0%float))]
    ∧ content st' label_item_copy
      = Some [("label", mk_ndarray [1; 2; 3] (replicate 6 1%float))].
Proof.
  refine (proj1 (CropData_call_crops
    {| CropData_xmin := [0; 0]%Z; CropData_xmax := [2; 3]%Z;
       CropData_apply_keys := ["input"; "label"] |}
    0 0 2 3 0 1 None
    (new_store [[("input", 0)]; [("label", 1)]]
              [mk_ndarray [3; 5; 5] (replicate 75 0%float);
               mk_ndarray [1; 5; 5] (replicate 25 1%float)])
    [("input", mk_ndarray [3; 5; 5] (replicate 75 0%float))]
    [("label", mk_ndarray [1; 5; 5] (replicate 25 1%float))]
    eq_refl eq_refl eq_refl eq_refl eq_refl eq_refl
    (NoDup_singleton _) (NoDup_singleton _) _ _));
    intros _; repeat constructor.
Defined.

(** ** SqueezeData *)

Section Squeeze.
Context {F : Type}.
Implicit Types (st : store F) (v : ndarray F) (c : list (string * ndarray F)).

Lemma squeeze_body_rank3 d k r st v :
  arrays st !! r = Some v → ndim v = 3 →
  squeeze_body d (k, r) st = (Ok (), st).
Proof.
  intros Hv Hn. unfold squeeze_body.
  rewrite (bind_ok _ _ _ _ _ (array_load_ok _ _ _ Hv)).
  by rewrite Hn.
Qed.

Lemma squeeze_body_raises d k r st v :
  arrays st !! r = Some v → ndim v ≠ 3 →
  (ndim v = 4 → wf_ndarray v) → is_Some (dicts st !! d) →
  ∃ st', squeeze_body d (k, r) st = (Raise (ValueError_ndim (ndim v)), st').
Proof.
  intros Hv Hn Hwf [x Hx]. unfold squeeze_body.
  rewrite (bind_ok _ _ _ _ _ (array_load_ok _ _ _ Hv)).
  destruct (ndim v =? 4)%nat eqn:H4.
  - apply Nat.eqb_eq in H4. specialize (Hwf H4).
    unfold ndim in H4, Hn |- *.
    destruct (shape v) as [| B [| C [| H [| W [| ? ?]]]]] eqn:Hs;
      simpl in H4; try lia.
    assert (reshape v [B * C; H; W]
            = Ok (mk_ndarray [B * C; H; W] (data v))) as Hre.
    { unfold reshape, wf_ndarray in *. rewrite Hwf, Hs. simpl.
      replace (B * C * (H * (W * 1))) with (B * (C * (H * (W * 1)))) by lia.
      by rewrite Nat.eqb_refl. }
    eexists.
    unfold mbind at 1, M_bind at 1.
    unfold mbind at 1, M_bind at 1. unfold lift at 1. rewrite Hre.
    unfold mbind at 1, M_bind at 1. unfold array_new at 1.
    erewrite dict_setitem_ok by (simpl; exact Hx).
    simpl. reflexivity.
  - eexists. unfold mbind at 1, M_bind at 1.
    unfold mret at 1, M_ret at 1.
    apply Nat.eqb_neq in Hn. rewrite Hn. reflexivity.
Qed.

Lemma for_each_squeeze_rank3 d st (x : dict) : ∀ c,
  deref (arrays st) x = Some c → Forall (λ kv, ndim kv.2 = 3) c →
  for_each x (squeeze_body d) st = (Ok (), st).
Proof.
  unfold deref. induction x as [| [k r] x IH]; intros c Hc H3; [done |].
  apply mapM_Some_1 in Hc.
  apply Forall2_cons_inv_l in Hc as ([k' v] & c' & Hkv & Hc & ->).
  apply Forall_cons in H3 as [Hn H3]. simpl in *.
  destruct (arrays st !! r) as [v0 |] eqn:Hr; simplify_eq/=.
  rewrite (bind_ok _ _ _ _ _ (squeeze_body_rank3 d k' r st v Hr Hn)).
  apply (IH c'); [by apply mapM_Some_2 | done].
Qed.

Lemma for_each_squeeze_raises d st (x : dict) : ∀ c1 k v c2,
  deref (arrays st) x = Some (c1 ++ (k, v) :: c2) →
  Forall (λ kv, ndim kv.2 = 3) c1 → ndim v ≠ 3 →
  (ndim v = 4 → wf_ndarray v) → is_Some (dicts st !! d) →
  ∃ st', for_each x (squeeze_body d) st
         = (Raise (ValueError_ndim (ndim v)), st').
Proof.
  unfold deref. induction x as [| [k0 r] x IH]; intros c1 k v c2 Hc H3 Hn Hwf Hd.
  - apply mapM_Some_1 in Hc. apply Forall2_nil_inv_l in Hc.
    by destruct c1.
  - apply mapM_Some_1 in Hc.
    apply Forall2_cons_inv_l in Hc as ([k' v'] & c' & Hkv & Hc & Heq).
    simpl in Hkv.
    destruct (arrays st !! r) as [v0 |] eqn:Hr; [| done].
    simpl in Hkv, Heq. cbn [for_each].
    destruct c1 as [| [k1 v1] c1]; simpl in Heq; simplify_eq.
    + match goal with
      | Hr : arrays st !! r = Some ?v0 |- context [squeeze_body d (?k0, r)] =>
          destruct (squeeze_body_raises d k0 r st v0 Hr Hn Hwf Hd) as [st' Hrun]
      end.
      exists st'. by rewrite (bind_raise _ _ _ _ _ Hrun).
    + apply Forall_cons in H3 as [Hn1 H3]. simpl in Hn1.
      match goal with
      | Hr : arrays st !! r = Some ?v0 |- context [squeeze_body d (?k0, r)] =>
          rewrite (bind_ok _ _ _ _ _ (squeeze_body_rank3 d k0 r st v0 Hr Hn1))
      end.
      eapply IH; [by apply mapM_Some_2 | done..].
Qed.

Lemma squeeze_values_rank3 d st c :
  content st d = Some c → Forall (λ kv, ndim kv.2 = 3) c →
  squeeze_values d st = (Ok (), st).
Proof.
  unfold content. intros Hc H3.
  destruct (dicts st !! d) as [x |] eqn:Hx; [| done]. simpl in Hc.
  unfold squeeze_values, dict_items.
  rewrite (bind_ok _ _ _ _ _ (dict_load_ok _ _ _ Hx)).
  by apply (for_each_squeeze_rank3 d st x c).
Qed.

Lemma squeeze_values_raises d st c1 k v c2 :
  content st d = Some (c1 ++ (k, v) :: c2) →
  Forall (λ kv, ndim kv.2 = 3) c1 → ndim v ≠ 3 →
  (ndim v = 4 → wf_ndarray v) →
  ∃ st', squeeze_values d st = (Raise (ValueError_ndim (ndim v)), st').
Proof.
  unfold content. intros Hc H3 Hn Hwf.
  destruct (dicts st !! d) as [x |] eqn:Hx; [| done]. simpl in Hc.
  unfold squeeze_values, dict_items.
  rewrite (bind_ok _ _ _ _ _ (dict_load_ok _ _ _ Hx)).
  apply (for_each_squeeze_raises d st x c1 k v c2); [done.. |].
  by rewrite Hx.
Qed.
End Squeeze.

Section SqueezeCall.
Context {F : Type}.
Implicit Types (st : store F) (v : ndarray F) (c : list (string * ndarray F)).

Lemma first_unsupported_None c :
  first_unsupported c = None ↔ Forall (λ kv, ndim kv.2 = 3) c.
Proof.
  induction c as [| kv c IH]; simpl.
  - split; [constructor | done].
  - rewrite Forall_cons. destruct (ndim kv.2 =? 3)%nat eqn:E.
    + apply Nat.eqb_eq in E. rewrite IH. tauto.
    + apply Nat.eqb_neq in E. split; [done | tauto].
Qed.

Lemma first_unsupported_Some c n :
  first_unsupported c = Some n →
  ∃ c1 k v c2, c = c1 ++ (k, v) :: c2 ∧ Forall (λ kv, ndim kv.2 = 3) c1
               ∧ ndim v = n ∧ n ≠ 3.
Proof.
  induction c as [| [k v] c IH]; simpl; [done |].
  destruct (ndim v =? 3)%nat eqn:E.
  - apply Nat.eqb_eq in E. intros (c1 & k' & v' & c2 & -> & H3 & Hn)%IH.
    exists ((k, v) :: c1), k', v', c2. split; [done |]. split; [| done].
    by constructor.
  - apply Nat.eqb_neq in E. intros [= <-].
    exists [], k, v, c. split; [done |]. split; [constructor | done].
Qed.

Lemma first_unsupported_split c1 k v c2 :
  Forall (λ kv, ndim kv.2 = 3) c1 → ndim v ≠ 3 →
  first_unsupported (c1 ++ (k, v) :: c2) = Some (ndim v).
Proof.
  intros H3 Hn. induction H3 as [| kv c1 Hkv _ IH]; simpl.
  - apply Nat.eqb_neq in Hn. by rewrite Hn.
  - apply Nat.eqb_eq in Hkv. by rewrite Hkv.
Qed.

Lemma first_unsupported_app c c' :
  first_unsupported (c ++ c')
  = match first_unsupported c with
    | Some n => Some n
    | None => first_unsupported c'
    end.
Proof.
  induction c as [| kv c IH]; simpl; [done |].
  by destruct (ndim kv.2 =? 3)%nat.
Qed.

(** The outcome of one loop of SqueezeData. *)
Lemma squeeze_values_outcome d st c :
  content st d = Some c →
  Forall (λ kv, ndim kv.2 = 4 → wf_ndarray kv.2) c →
  match first_unsupported c with
  | None => squeeze_values d st = (Ok (), st)
  | Some n => ∃ st', squeeze_values d st = (Raise (ValueError_ndim n), st')
  end.
Proof.
  intros Hc Hwf. destruct (first_unsupported c) as [n |] eqn:E.
  - apply first_unsupported_Some in E as (c1 & k & v & c2 & -> & H3 & <- & Hn).
    apply (squeeze_values_raises d st c1 k v c2); [done.. |].
    apply Forall_app in Hwf as [_ Hwf]. by apply Forall_cons in Hwf as [Hwf _].
  - apply first_unsupported_None in E. by apply (squeeze_values_rank3 d st c).
Qed.

(** Both copies are made before any loop runs. *)
Lemma on_selected_copies apply_keys (loop : nat → M F ())
    input label weight st ci cl :
  content st input = Some ci → content st label = Some cl →
  ∃ st2,
    on_selected apply_keys loop input label weight st
    = ((if bool_decide ("input" ∈ apply_keys)
        then loop (length (dicts st)) else mret ());;
       (if bool_decide ("label" ∈ apply_keys)
        then loop (S (length (dicts st))) else mret ());;
       mret (length (dicts st), S (length (dicts st)), weight)) st2
    ∧ content st2 (length (dicts st)) = Some ci
    ∧ content st2 (S (length (dicts st))) = Some cl
    ∧ arrays st2 = arrays st
    ∧ (∀ d, d < length (dicts st) → dicts st2 !! d = dicts st !! d).
Proof.
  unfold content. intros Hci Hcl.
  destruct (dicts st !! input) as [xi |] eqn:Hxi; [| done].
  destruct (dicts st !! label) as [xl |] eqn:Hxl; [| done].
  simpl in Hci, Hcl.
  exists (mk_store ((dicts st ++ [xi]) ++ [xl]) (arrays st) (layout st)).
  split; [| split; [| split; [| split]]].
  - unfold on_selected.
    rewrite (bind_ok _ _ _ _ _ (dict_copy_ok _ _ _ Hxi)).
    assert (dicts (mk_store (dicts st ++ [xi]) (arrays st) (layout st)) !! label = Some xl)
      as Hxl1 by (simpl; by apply lookup_app_l_Some).
    rewrite (bind_ok _ _ _ _ _ (dict_copy_ok _ _ _ Hxl1)).
    simpl. rewrite length_app. simpl.
    by replace (length (dicts st) + 1) with (S (length (dicts st))) by lia.
  - simpl. rewrite lookup_app_l by (rewrite length_app; simpl; lia).
    rewrite lookup_app_r by lia. by rewrite Nat.sub_diag.
  - simpl. rewrite lookup_app_r by (rewrite length_app; simpl; lia).
    rewrite length_app. simpl.
    by replace (S (length (dicts st)) - (length (dicts st) + 1)) with 0 by lia.
  - done.
  - intros d Hd. simpl. rewrite <- app_assoc. by rewrite lookup_app_l.
Qed.

(** The outcome of [SqueezeData.__call__]: it raises for the first
    visited array that has not three axes, and returns copies with the
    arrays of the arguments when there is none. *)
Lemma SqueezeData_call_outcome (self : SqueezeData)
    input label weight st ci cl :
  content st input = Some ci → content st label = Some cl →
  Forall (λ kv, ndim kv.2 = 4 → wf_ndarray kv.2)
         (visited (SqueezeData_apply_keys self) ci cl) →
  match first_unsupported (visited (SqueezeData_apply_keys self) ci cl) with
  | None =>
      ∃ st', SqueezeData_call self input label weight st
             = (Ok (length (dicts st), S (length (dicts st)), weight), st')
             ∧ content st' (length (dicts st)) = Some ci
             ∧ content st' (S (length (dicts st))) = Some cl
             ∧ arrays st' = arrays st
             ∧ (∀ d, d < length (dicts st) → dicts st' !! d = dicts st !! d)
  | Some n =>
      ∃ st', SqueezeData_call self input label weight st
             = (Raise (ValueError_ndim n), st')
  end.
Proof.
  intros Hci Hcl Hwf.
  destruct (on_selected_copies (SqueezeData_apply_keys self) squeeze_values
              input label weight st ci cl Hci Hcl)
    as (st2 & Hrun & Hci2 & Hcl2 & Harr & Hold).
  change (SqueezeData_call self) with
    (on_selected (F:=F) (SqueezeData_apply_keys self) squeeze_values).
  rewrite Hrun. clear Hrun.
  unfold visited in *.
  rewrite first_unsupported_app.
  apply Forall_app in Hwf as [Hwfi Hwfl].
  destruct (bool_decide ("input" ∈ SqueezeData_apply_keys self)).
  - pose proof (squeeze_values_outcome _ _ _ Hci2 Hwfi) as Hi.
    destruct (first_unsupported ci) as [n |].
    { destruct Hi as [st' Hi]. exists st'.
      by rewrite (bind_raise _ _ _ _ _ Hi). }
    rewrite (bind_ok _ _ _ _ _ Hi). cbv beta.
    destruct (bool_decide ("label" ∈ SqueezeData_apply_keys self)).
    + pose proof (squeeze_values_outcome _ _ _ Hcl2 Hwfl) as Hl.
      destruct (first_unsupported cl) as [n |].
      { destruct Hl as [st' Hl]. exists st'.
        by rewrite (bind_raise _ _ _ _ _ Hl). }
      rewrite (bind_ok _ _ _ _ _ Hl). by exists st2.
    + simpl. by exists st2.
  - simpl first_unsupported at 1.
    destruct (bool_decide ("label" ∈ SqueezeData_apply_keys self)).
    + pose proof (squeeze_values_outcome _ _ _ Hcl2 Hwfl) as Hl.
      destruct (first_unsupported cl) as [n |].
      { destruct Hl as [st' Hl]. exists st'.
        unfold mbind at 1, M_bind at 1. unfold mret at 1, M_ret at 1.
        by rewrite (bind_raise _ _ _ _ _ Hl). }
      unfold mbind at 1, M_bind at 1. unfold mret at 1, M_ret at 1.
      rewrite (bind_ok _ _ _ _ _ Hl). by exists st2.
    + simpl. by exists st2.
Qed.
End SqueezeCall.

(** ** Computations that keep the keys of a dict *)

Section KeepsKeys.
Context {F : Type}.
Implicit Types (st : store F) (K : list string).

Lemma keeps_keys_dicts_same {A} d K (m : M F A) :
  (∀ st res st', m st = (res, st') → dicts st' = dicts st) →
  keeps_keys d K m.
Proof.
  intros Hsame st x res st' Hx HK Hrun. exists x.
  rewrite (Hsame _ _ _ Hrun). by rewrite list_insert_id.
Qed.

Lemma keeps_keys_ret {A} d K (a : A) : keeps_keys (F:=F) d K (mret a).
Proof. apply keeps_keys_dicts_same. by intros st res st' [= _ <-]. Qed.

Lemma keeps_keys_raise {A} d K e : keeps_keys (F:=F) d K (raise (A:=A) e).
Proof. apply keeps_keys_dicts_same. by intros st res st' [= _ <-]. Qed.

Lemma keeps_keys_lift {A} d K (r : result A) : keeps_keys (F:=F) d K (lift r).
Proof. apply keeps_keys_dicts_same. by intros st res st' [= _ <-]. Qed.

Lemma keeps_keys_when d K (b : bool) (m : M F ()) :
  keeps_keys d K m → keeps_keys d K (if b then m else mret ()).
Proof. intros Hm. destruct b; [done | apply keeps_keys_ret]. Qed.

Lemma keeps_keys_bind {A B} d K (m : M F A) (k : A → M F B) :
  keeps_keys d K m → (∀ a, keeps_keys d K (k a)) → keeps_keys d K (m ≫= k).
Proof.
  intros Hm Hk st x res st' Hx HK Hrun.
  unfold mbind, M_bind in Hrun.
  destruct (m st) as [[a | e] st1] eqn:Hm1.
  - destruct (Hm _ _ _ _ Hx HK Hm1) as (x1 & Hd1 & HK1).
    assert (dicts st1 !! d = Some x1) as Hx1.
    { rewrite Hd1. apply list_lookup_insert_eq. by eapply lookup_lt_Some. }
    destruct (Hk a _ _ _ _ Hx1 HK1 Hrun) as (x' & Hd' & HK').
    exists x'. split; [| done].
    by rewrite Hd', Hd1, list_insert_insert_eq.
  - injection Hrun as <- <-. by apply (Hm _ _ _ _ Hx HK Hm1).
Qed.

Lemma keeps_keys_for_each {A} d K (xs : list A) (body : A → M F ()) :
  (∀ a, a ∈ xs → keeps_keys d K (body a)) →
  keeps_keys d K (for_each xs body).
Proof.
  induction xs as [| a xs IH]; intros Hbody; simpl.
  - apply keeps_keys_ret.
  - apply keeps_keys_bind.
    + apply Hbody. apply elem_of_cons. by left.
    + intros _. apply IH. intros a' Ha'. apply Hbody.
      apply elem_of_cons. by right.
Qed.

Lemma keeps_keys_dict_load d K d' : keeps_keys d K (dict_load (F:=F) d').
Proof.
  apply keeps_keys_dicts_same. intros st res st'. unfold dict_load.
  by destruct (dicts st !! d'); intros [= _ <-].
Qed.

Lemma keeps_keys_dict_contains d K d' key :
  keeps_keys d K (dict_contains (F:=F) d' key).
Proof.
  apply keeps_keys_bind; [apply keeps_keys_dict_load |].
  intros x. apply keeps_keys_ret.
Qed.

Lemma keeps_keys_array_load d K r : keeps_keys d K (array_load (F:=F) r).
Proof.
  apply keeps_keys_dicts_same. intros st res st'. unfold array_load.
  by destruct (arrays st !! r); intros [= _ <-].
Qed.

Lemma keeps_keys_array_new d K mem (a : ndarray F) :
  keeps_keys d K (array_new mem a).
Proof.
  apply keeps_keys_dicts_same. intros st res st'. unfold array_new.
  by intros [= _ <-].
Qed.

Lemma keeps_keys_array_inplace d K (f : F → F) r :
  keeps_keys d K (array_inplace f r).
Proof.
  apply keeps_keys_dicts_same. intros st res st'. unfold array_inplace.
  destruct (arrays st !! r), (layout st !! r) as [m |];
    try (by intros [= _ <-]).
  by destruct (writeable m), (takes_float m); intros [= _ <-].
Qed.

Lemma keeps_keys_dict_setitem d K key r :
  key ∈ K → keeps_keys d K (dict_setitem (F:=F) d key r).
Proof.
  intros Hkey st x res st' Hx HK. unfold dict_setitem. rewrite Hx.
  intros [= _ <-]. exists (dict_set x key r). split; [done |].
  rewrite dict_set_keys; [done | by rewrite HK].
Qed.

(** [d[key]] followed by code that is run only when [key] is in [d]. *)
Lemma keeps_keys_getitem_bind {B} d K key (k : nat → M F B) :
  (key ∈ K → ∀ a, keeps_keys d K (k a)) →
  keeps_keys d K (dict_getitem d key ≫= k).
Proof.
  intros Hk st x res st' Hx HK Hrun.
  unfold mbind, M_bind in Hrun.
  rewrite (dict_getitem_run _ _ _ _ Hx) in Hrun.
  destruct (dict_get x key) as [r |] eqn:Hget.
  - assert (key ∈ K) as Hin.
    { rewrite <- HK. apply dict_get_is_Some. by rewrite Hget. }
    by apply (Hk Hin r st x res st').
  - injection Hrun as <- <-.
    exists x. by rewrite list_insert_id.
Qed.

Lemma keeps_keys_update_values mem (f : ndarray F → result (ndarray F)) d K :
  keeps_keys d K (update_values mem f d).
Proof.
  intros st x res st' Hx HK Hrun.
  unfold update_values, dict_items in Hrun.
  rewrite (bind_ok _ _ _ _ _ (dict_load_ok _ _ _ Hx)) in Hrun.
  revert st x res st' Hx HK Hrun.
  assert (∀ items : list (string * nat), items.*1 ⊆ K →
          keeps_keys d K (for_each items (update_body mem f d))) as Hloop.
  { intros items Hsub. apply keeps_keys_for_each.
    intros [k r] Hin. unfold update_body.
    apply keeps_keys_bind; [apply keeps_keys_array_load |]. intros v.
    apply keeps_keys_bind; [apply keeps_keys_lift |]. intros t.
    apply keeps_keys_bind; [apply keeps_keys_array_new |]. intros r'.
    apply keeps_keys_dict_setitem. apply Hsub.
    apply list_elem_of_fmap. by exists (k, r). }
  intros st x res st' Hx HK Hrun.
  apply (Hloop x) with (st := st) (x := x) (res := res); [| done..].
  by rewrite HK.
Qed.

Lemma keeps_keys_squeeze_values d K :
  keeps_keys d K (squeeze_values (F:=F) d).
Proof.
  intros st x res st' Hx HK Hrun.
  unfold squeeze_values, dict_items in Hrun.
  rewrite (bind_ok _ _ _ _ _ (dict_load_ok _ _ _ Hx)) in Hrun.
  revert st x res st' Hx HK Hrun.
  assert (∀ items : list (string * nat), items.*1 ⊆ K →
          keeps_keys d K (for_each items (squeeze_body (F:=F) d))) as Hloop.
  { intros items Hsub. apply keeps_keys_for_each.
    intros [k r] Hin. unfold squeeze_body.
    assert (k ∈ K) as Hk.
    { apply Hsub. apply list_elem_of_fmap. by exists (k, r). }
    apply keeps_keys_bind; [apply keeps_keys_array_load |]. intros v.
    apply keeps_keys_bind.
    - destruct (ndim v =? 4)%nat; [| apply keeps_keys_ret].
      destruct (shape v) as [| B [| C [| H [| W [| ? ?]]]]];
        try apply keeps_keys_raise.
      apply keeps_keys_bind; [apply keeps_keys_lift |]. intros t.
      apply keeps_keys_bind; [apply keeps_keys_array_new |]. intros r'.
      by apply keeps_keys_dict_setitem.
    - intros _. destruct (negb _); [apply keeps_keys_raise | apply keeps_keys_ret]. }
  intros st x res st' Hx HK Hrun.
  apply (Hloop x) with (st := st) (x := x) (res := res); [| done..].
  by rewrite HK.
Qed.
End KeepsKeys.

(** ** The built-in transforms keep the keys *)

Section Builtin.
Context {F : Type}.
Variables (fadd fsub fmul fdiv : F → F → F) (flog1p : F → F).
Implicit Types (st : store F).

Lemma Translate_call_inplace (self : Translate) :
  Translate_call fadd self = inplace_call fadd (Translate_offset self).
Proof. reflexivity. Qed.

Lemma Scale_call_inplace (self : Scale) :
  Scale_call fmul self = inplace_call fmul (Scale_scale self).
Proof. reflexivity. Qed.

Lemma keeps_keys_inplace_body (op : F → F → F) table input d K key :
  keeps_keys d K (inplace_body op table input d key).
Proof.
  unfold inplace_body.
  apply keeps_keys_bind; [apply keeps_keys_dict_contains |].
  intros [|]; [| apply keeps_keys_ret].
  apply keeps_keys_getitem_bind. intros Hkey a.
  apply keeps_keys_bind; [apply keeps_keys_lift |]. intros x.
  apply keeps_keys_bind; [apply keeps_keys_array_inplace |]. intros a'.
  by apply keeps_keys_dict_setitem.
Qed.

Lemma inplace_call_keys (op : F → F → F) table input label weight st i' l' w' st' :
  inplace_call op table input label weight st = (Ok (i', l', w'), st') →
  ∃ xi xi',
    dicts st !! input = Some xi ∧ i' = length (dicts st)
    ∧ l' = label ∧ w' = weight
    ∧ dicts st' !! i' = Some xi' ∧ xi'.*1 = xi.*1
    ∧ (∀ d, d < length (dicts st) → dicts st' !! d = dicts st !! d).
Proof.
  unfold inplace_call. intros Hrun.
  apply bind_inv_ok in Hrun as (n & st1 & Hcopy & Hrun).
  unfold dict_copy in Hcopy.
  apply bind_inv_ok in Hcopy as (xi & st0 & Hload & Hnew).
  unfold dict_load in Hload.
  destruct (dicts st !! input) as [xi0 |] eqn:Hxi; [| done].
  injection Hload as <- <-. unfold dict_new in Hnew.
  injection Hnew as <- <-.
  apply bind_inv_ok in Hrun as ([] & st2 & Hloop & Hret).
  injection Hret as <- <- <- <-.
  assert (dicts (mk_store (dicts st ++ [xi0]) (arrays st) (layout st)) !! length (dicts st)
          = Some xi0) as Hx1.
  { simpl. rewrite lookup_app_r by lia. by rewrite Nat.sub_diag. }
  destruct (keeps_keys_for_each (length (dicts st)) xi0.*1 table.*1
              (inplace_body op table input (length (dicts st)))
              (λ a _, keeps_keys_inplace_body op table input _ _ a)
              _ _ _ _ Hx1 eq_refl Hloop) as (xi' & Hd' & HK').
  exists xi0, xi'. split; [done |]. split; [done |]. split; [done |].
  split; [done |]. rewrite Hd'. simpl. split; [| split; [done |]].
  - apply list_lookup_insert_eq. rewrite length_app. simpl. lia.
  - intros d Hd. rewrite list_lookup_insert_ne by lia.
    by apply lookup_app_l.
Qed.

Lemma on_selected_keys apply_keys (loop : nat → M F ())
    input label weight st i' l' w' st' :
  (∀ d K, keeps_keys d K (loop d)) →
  is_Some (dicts st !! label) →
  on_selected apply_keys loop input label weight st = (Ok (i', l', w'), st') →
  ∃ xi xl xi' xl',
    dicts st !! input = Some xi ∧ dicts st !! label = Some xl
    ∧ w' = weight
    ∧ dicts st' !! i' = Some xi' ∧ xi'.*1 = xi.*1
    ∧ dicts st' !! l' = Some xl' ∧ xl'.*1 = xl.*1
    ∧ (∀ d, d < length (dicts st) → dicts st' !! d = dicts st !! d).
Proof.
  intros Hloop [xl0 Hxl] Hrun. unfold on_selected in Hrun.
  apply bind_inv_ok in Hrun as (n & st1 & Hcopy & Hrun).
  unfold dict_copy in Hcopy.
  apply bind_inv_ok in Hcopy as (xi & st0 & Hload & Hnew).
  unfold dict_load in Hload.
  destruct (dicts st !! input) as [xi0 |] eqn:Hxi; [| done].
  injection Hload as <- <-. unfold dict_new in Hnew.
  injection Hnew as <- <-.
  apply bind_inv_ok in Hrun as (n2 & st2 & Hcopy & Hrun).
  unfold dict_copy in Hcopy.
  apply bind_inv_ok in Hcopy as (xl & st0 & Hload & Hnew).
  unfold dict_load in Hload. simpl in Hload.
  rewrite (lookup_app_l_Some _ _ _ _ Hxl) in Hload.
  injection Hload as <- <-. unfold dict_new in Hnew. simpl in Hnew.
  injection Hnew as <- <-.
  apply bind_inv_ok in Hrun as ([] & st3 & Hloop1 & Hrun).
  apply bind_inv_ok in Hrun as ([] & st4 & Hloop2 & Hret).
  injection Hret as <- <- <- <-.
  set (n := length (dicts st)) in *.
  set (st2 := mk_store ((dicts st ++ [xi0]) ++ [xl0]) (arrays st) (layout st)) in *.
  assert (dicts st2 !! n = Some xi0) as Hx2.
  { simpl. rewrite lookup_app_l by (rewrite length_app; simpl; lia).
    rewrite lookup_app_r by (unfold n; lia). unfold n.
    by rewrite Nat.sub_diag. }
  destruct (keeps_keys_when n xi0.*1 _ _ (Hloop n _) _ _ _ _ Hx2 eq_refl Hloop1)
    as (xi' & Hd3 & HK3).
  assert (length (dicts st2) = S (S n)) as Hlen2.
  { unfold st2, n. simpl. rewrite !length_app. simpl. lia. }
  assert (length (dicts st ++ [xi0]) = S n) as Hlen1.
  { unfold n. rewrite length_app. simpl. lia. }
  rewrite Hlen1 in *.
  assert (dicts st3 !! S n = Some xl0) as Hx3.
  { rewrite Hd3, list_lookup_insert_ne by lia. unfold st2. simpl.
    rewrite lookup_app_r by lia. rewrite Hlen1. by rewrite Nat.sub_diag. }
  destruct (keeps_keys_when (S n) xl0.*1 _ _ (Hloop (S n) _) _ _ _ _
              Hx3 eq_refl Hloop2) as (xl' & Hd4 & HK4).
  exists xi0, xl0, xi', xl'.
  split; [done |]. split; [done |]. split; [done |].
  rewrite Hd4, Hd3.
  split; [| split; [done |]; split; [| split; [done |]]].
  - rewrite list_lookup_insert_ne by lia.
    apply list_lookup_insert_eq. rewrite Hlen2. lia.
  - apply list_lookup_insert_eq. rewrite length_insert, Hlen2. lia.
  - intros d Hd. rewrite !list_lookup_insert_ne by lia.
    unfold st2. simpl. rewrite <- app_assoc. by apply lookup_app_l.
Qed.

(** C9.  When a built-in transform (Translate, Scale, Normalize, Log1p,
    CropData, SqueezeData) returns, each of the three dicts it returns
    has the keys of the corresponding argument, in the same order; the
    weights are returned as they were given. *)
Theorem builtin_call_keeps_keys (t : builtin)
    (input label : nat) (weight : option nat) st
    (input' label' : nat) (weight' : option nat) st' :
  is_Some (dicts st !! label) →
  (∀ w, weight = Some w → is_Some (dicts st !! w)) →
  builtin_call fadd fsub fmul fdiv flog1p t input label weight st
  = (Ok (input', label', weight'), st') →
  is_Some (keys st input)
  ∧ keys st' input' = keys st input
  ∧ keys st' label' = keys st label
  ∧ weight' = weight
  ∧ (∀ w, weight = Some w → keys st' w = keys st w).
Proof.
  intros Hlabel Hweight Hrun.
  assert (∀ w, (∀ d, d < length (dicts st) → dicts st' !! d = dicts st !! d) →
               weight = Some w → keys st' w = keys st w) as Hw.
  { intros w Hold Hw. unfold keys. rewrite Hold; [done |].
    destruct (Hweight w Hw) as [x Hx]. by eapply lookup_lt_Some. }
  assert (∀ apply_keys (loop : nat → M F ()),
    (∀ d K, keeps_keys d K (loop d)) →
    on_selected apply_keys loop input label weight st
    = (Ok (input', label', weight'), st') →
    is_Some (keys st input)
    ∧ keys st' input' = keys st input
    ∧ keys st' label' = keys st label
    ∧ weight' = weight
    ∧ (∀ w, weight = Some w → keys st' w = keys st w)) as Hsel.
  { intros apply_keys loop Hloop Hsel.
    destruct (on_selected_keys _ _ _ _ _ _ _ _ _ _ Hloop Hlabel Hsel)
      as (xi & xl & xi' & xl' & Hxi & Hxl & -> & Hxi' & HKi & Hxl' & HKl & Hold).
    unfold keys. rewrite Hxi, Hxl, Hxi', Hxl'. simpl. rewrite HKi, HKl.
    split; [by eexists |]. split; [done |]. split; [done |]. split; [done |].
    intros w. by apply Hw. }
  assert (∀ op table,
    inplace_call op table input label weight st
    = (Ok (input', label', weight'), st') →
    is_Some (keys st input)
    ∧ keys st' input' = keys st input
    ∧ keys st' label' = keys st label
    ∧ weight' = weight
    ∧ (∀ w, weight = Some w → keys st' w = keys st w)) as Hinp.
  { intros op table Hinp.
    destruct (inplace_call_keys _ _ _ _ _ _ _ _ _ _ Hinp)
      as (xi & xi' & Hxi & -> & -> & -> & Hxi' & HKi & Hold).
    unfold keys. rewrite Hxi, Hxi'. simpl. rewrite HKi.
    split; [by eexists |]. split; [done |]. split; [| split; [done |]].
    - rewrite Hold; [done |].
      destruct Hlabel as [x Hx]. by eapply lookup_lt_Some.
    - intros w. by apply Hw. }
  destruct t as [t | t | t | t | t | t]; simpl in Hrun.
  - by apply (Hinp fadd (Translate_offset t)).
  - by apply (Hinp fmul (Scale_scale t)).
  - apply (Hsel (Normalize_apply_keys t)
             (update_values computed (normalize fsub fdiv t)));
      [| done].
    intros d K. apply keeps_keys_update_values.
  - apply (Hsel (Log1p_apply_keys t)
             (update_values computed (log1p fdiv flog1p t)));
      [| done].
    intros d K. apply keeps_keys_update_values.
  - apply (Hsel (CropData_apply_keys t)
             (update_values (view (crop t)) (crop t))); [| done].
    intros d K. apply keeps_keys_update_values.
  - apply (Hsel (SqueezeData_apply_keys t) squeeze_values); [| done].
    intros d K. apply keeps_keys_squeeze_values.
Qed.
End Builtin.

Lemma builtin_call_keeps_keys_witness :
  let st := new_store [[("x", 0); ("y", 1)]; [("u", 1)]]
                     [mk_ndarray [1] [1%float]; mk_ndarray [1] [5%float]] in
  let r := builtin_call PrimFloat.add PrimFloat.sub PrimFloat.mul
             PrimFloat.div (λ x, x)
             (BTranslate (Translate_init [("x", 2%float); ("z", 1%float)]))
             0 1 (Some 1) st in
  r.1 = Ok (2, 1, Some 1)
  ∧ keys r.2 2 = Some ["x"; "y"]
  ∧ keys r.2 1 = Some ["u"].
Proof.
  intros st r.
  destruct (builtin_call_keeps_keys PrimFloat.add PrimFloat.sub PrimFloat.mul
              PrimFloat.div (λ x, x)
              (BTranslate (Translate_init [("x", 2%float); ("z", 1%float)]))
              0 1 (Some 1) st 2 1 (Some 1) r.2)
    as (_ & Hi & Hl & _).
  - by eexists.
  - intros w [= <-]. by eexists.
  - reflexivity.
  - split; [reflexivity |]. split; [exact Hi | exact Hl].
Defined.

(** ** SqueezeData: the check of the number of axes *)

(** C2 (the code does otherwise).  SqueezeData on an input dict that
    holds an array of shape [[2, 3, 4, 5]]: the array is reshaped and
    stored in the copy, then the test [value.ndim != 3] reads the array
    the loop variable still names, which has four axes, and the call
    raises the [ValueError] for [ndim=4] instead of returning shape
    [[6, 4, 5]]. *)
Theorem SqueezeData_call_rank4_example :
  (SqueezeData_call {| SqueezeData_apply_keys := ["input"; "label"] |}
     0 1 None
     (new_store [[("x", 0)]; []]
               [mk_ndarray [2; 3; 4; 5] (replicate 120 0%float)])).1
  = Raise (ValueError_ndim 4).
Proof. vm_compute. reflexivity. Qed.

(** The call raises for the first visited array that has not three axes,
    four included. *)
Lemma SqueezeData_call_raises
    {F : Type} (self : SqueezeData) input label weight (st : store F)
    ci cl c1 k v c2 :
  content st input = Some ci → content st label = Some cl →
  Forall (λ kv, wf_ndarray kv.2) (visited (SqueezeData_apply_keys self) ci cl) →
  visited (SqueezeData_apply_keys self) ci cl = c1 ++ (k, v) :: c2 →
  Forall (λ kv, ndim kv.2 = 3) c1 →
  ndim v ≠ 3 →
  ∃ st', SqueezeData_call self input label weight st
         = (Raise (ValueError_ndim (ndim v)), st').
Proof.
  intros Hci Hcl Hwf Hvis H3 Hn.
  assert (Forall (λ kv : string * ndarray F, ndim kv.2 = 4 → wf_ndarray kv.2)
                 (visited (SqueezeData_apply_keys self) ci cl)) as Hwf4.
  { eapply Forall_impl; [exact Hwf |]. by intros kv Hkv _. }
  pose proof (SqueezeData_call_outcome self input label weight st ci cl
                Hci Hcl Hwf4) as Hout.
  by rewrite Hvis, (first_unsupported_split c1 k v c2 H3 Hn) in Hout.
Qed.

(** C4 (the code does otherwise).  SqueezeData on an input dict that
    holds an array of shape [[1, 1, 1, 2]] under ["a"] and an array of
    shape [[2, 3]] under ["b"].  The array under ["b"] is the only one
    whose number of axes is neither three nor four, and the error is to
    name it.  The call raises at ["a"] instead, by the test that reads
    the array the loop variable still names after the reshape, and the
    [ValueError] reports [ndim=4]; the array under ["b"] is never looked
    at.  With the array of two axes first, the error reports [ndim=2]. *)
Theorem SqueezeData_call_reports_rank4_first :
  (SqueezeData_call {| SqueezeData_apply_keys := ["input"; "label"] |}
     0 1 None
     (new_store [[("a", 0); ("b", 1)]; []]
                [mk_ndarray [1; 1; 1; 2] (replicate 2 0%float);
                 mk_ndarray [2; 3] (replicate 6 0%float)])).1
  = Raise (ValueError_ndim 4)
  ∧ (SqueezeData_call {| SqueezeData_apply_keys := ["input"; "label"] |}
       0 1 None
       (new_store [[("b", 1); ("a", 0)]; []]
                  [mk_ndarray [1; 1; 1; 2] (replicate 2 0%float);
                   mk_ndarray [2; 3] (replicate 6 0%float)])).1
    = Raise (ValueError_ndim 2).
Proof. vm_compute. split; reflexivity. Qed.

(** The check of the number of axes in general.  The selected arrays
    are visited in the order of the loops (inputs, then labels).  If one
    of them has neither three nor four axes, the call raises the
    [ValueError] that reports a number of axes other than three: that of
    the first visited array that has not three axes, which is this
    array's own when every array before it has three.  If all of them
    have three axes, the call returns copies of the dicts that hold the
    arrays of the arguments, and no array has changed. *)
Lemma SqueezeData_call_checks_ndim
    {F : Type} (self : SqueezeData)
    (input_item label_item : nat) (weight_item : option nat) (st : store F)
    (ci cl : list (string * ndarray F)) :
  content st input_item = Some ci →
  content st label_item = Some cl →
  Forall (λ kv, wf_ndarray kv.2) (visited (SqueezeData_apply_keys self) ci cl) →
  (∀ k v, (k, v) ∈ visited (SqueezeData_apply_keys self) ci cl →
     ndim v ≠ 3 → ndim v ≠ 4 →
     ∃ n st',
       SqueezeData_call self input_item label_item weight_item st
       = (Raise (ValueError_ndim n), st')
       ∧ n ≠ 3
       ∧ first_unsupported (visited (SqueezeData_apply_keys self) ci cl) = Some n
       ∧ (∀ c1 c2,
            visited (SqueezeData_apply_keys self) ci cl = c1 ++ (k, v) :: c2 →
            Forall (λ kv, ndim kv.2 = 3) c1 → n = ndim v))
  ∧ (Forall (λ kv, ndim kv.2 = 3) (visited (SqueezeData_apply_keys self) ci cl) →
     ∃ input_item_copy label_item_copy st',
       SqueezeData_call self input_item label_item weight_item st
       = (Ok (input_item_copy, label_item_copy, weight_item), st')
       ∧ content st' input_item_copy = Some ci
       ∧ content st' label_item_copy = Some cl
       ∧ arrays st' = arrays st).
Proof.
  intros Hci Hcl Hwf.
  assert (Forall (λ kv : string * ndarray F, ndim kv.2 = 4 → wf_ndarray kv.2)
                 (visited (SqueezeData_apply_keys self) ci cl)) as Hwf4.
  { eapply Forall_impl; [exact Hwf |]. by intros kv Hkv _. }
  pose proof (SqueezeData_call_outcome self input_item label_item weight_item
                st ci cl Hci Hcl Hwf4) as Hout.
  split.
  - intros k v Hin Hn3 Hn4.
    destruct (first_unsupported (visited (SqueezeData_apply_keys self) ci cl))
      as [n |] eqn:Hfirst.
    + destruct Hout as [st' Hrun]. exists n, st'.
      split; [done |].
      pose proof (first_unsupported_Some _ _ Hfirst)
        as (a1 & k' & v' & a2 & Heq & Ha1 & Hn & Hne).
      split; [done |]. split; [done |].
      intros c1 c2 Hvis H3.
      rewrite Hvis, (first_unsupported_split c1 k v c2 H3 Hn3) in Hfirst.
      by injection Hfirst.
    + apply first_unsupported_None in Hfirst.
      rewrite Forall_forall in Hfirst. by specialize (Hfirst _ Hin).
  - intros H3. apply first_unsupported_None in H3. rewrite H3 in Hout.
    destruct Hout as (st' & Hrun & Hci' & Hcl' & Harr & _).
    by exists (length (dicts st)), (S (length (dicts st))), st'.
Qed.

Lemma SqueezeData_call_checks_ndim_witness :
  (∃ st', SqueezeData_call {| SqueezeData_apply_keys := ["input"] |} 0 1 None
            (new_store [[("x", 0)]; []]
                      [mk_ndarray [2; 3] (replicate 6 0%float)])
          = (Raise (ValueError_ndim 2), st'))
  ∧ (∃ input_item_copy label_item_copy st',
       SqueezeData_call {| SqueezeData_apply_keys := ["input"; "label"] |}
         0 1 None
         (new_store [[("x", 0)]; [("u", 0)]]
                   [mk_ndarray [1; 2; 3] (replicate 6 0%float)])
       = (Ok (input_item_copy, label_item_copy, None), st')
       ∧ content st' input_item_copy
         = Some [("x", mk_ndarray [1; 2; 3] (replicate 6 0%float))]
       ∧ content st' label_item_copy
         = Some [("u", mk_ndarray [1; 2; 3] (replicate 6 0%float))]
       ∧ arrays st' = [mk_ndarray [1; 2; 3] (replicate 6 0%float)]).
Proof.
  split.
  - destruct (proj1 (SqueezeData_call_checks_ndim
                {| SqueezeData_apply_keys := ["input"] |} 0 1 None
                (new_store [[("x", 0)]; []]
                          [mk_ndarray [2; 3] (replicate 6 0%float)])
                [("x", mk_ndarray [2; 3] (replicate 6 0%float))] []
                eq_refl eq_refl
                ltac:(repeat constructor))
              "x" (mk_ndarray [2; 3] (replicate 6 0%float))
              ltac:(repeat constructor) ltac:(discriminate) ltac:(discriminate))
      as (n & st' & Hrun & _ & Hfirst & _).
    injection Hfirst as <-. by exists st'.
  - apply (proj2 (SqueezeData_call_checks_ndim
                {| SqueezeData_apply_keys := ["input"; "label"] |} 0 1 None
                (new_store [[("x", 0)]; [("u", 0)]]
                          [mk_ndarray [1; 2; 3] (replicate 6 0%float)])
                [("x", mk_ndarray [1; 2; 3] (replicate 6 0%float))]
                [("u", mk_ndarray [1; 2; 3] (replicate 6 0%float))]
                eq_refl eq_refl
                ltac:(repeat constructor))).
    repeat constructor.
Defined.

(** ** FunctionalTransform *)

(** C8.  [FunctionalTransform.__call__] on a data dict, a label dict and
    weights that are a dict or [None] calls the user function on three
    new dict objects, none of which is an object of the caller: the first
    two have the entries of the data and label dicts (the same array
    objects under the same names), the third has the entries of the
    weights, and no entry when the weights are [None].  No other object
    has changed when the function starts, and the call ends as the
    function ends: with its value or its exception, and with its store. *)
Theorem FunctionalTransform_call_copies
    {F R : Type} (self : FunctionalTransform (F:=F) R)
    (data_dict label_dict : nat) (weight_dict : option nat) (st : store F)
    (xd xl xw : dict) :
  dicts st !! data_dict = Some xd →
  dicts st !! label_dict = Some xl →
  match weight_dict with
  | Some w => dicts st !! w = Some xw
  | None => xw = []
  end →
  ∃ data_dict_copy label_dict_copy weight_dict_copy st1,
    FunctionalTransform_call self
      [Some data_dict; Some label_dict; weight_dict] st
    = transform_func self data_dict_copy label_dict_copy weight_dict_copy st1
    ∧ dicts st !! data_dict_copy = None
    ∧ dicts st !! label_dict_copy = None
    ∧ dicts st !! weight_dict_copy = None
    ∧ NoDup [data_dict_copy; label_dict_copy; weight_dict_copy]
    ∧ dicts st1 !! data_dict_copy = Some xd
    ∧ dicts st1 !! label_dict_copy = Some xl
    ∧ dicts st1 !! weight_dict_copy = Some xw
    ∧ store_extends st st1
    ∧ arrays st1 = arrays st.
Proof.
  intros Hxd Hxl Hxw.
  set (n := length (dicts st)).
  exists n, (S n), (S (S n)),
    (mk_store (((dicts st ++ [xd]) ++ [xl]) ++ [xw]) (arrays st) (layout st)).
  split; [| split; [| split; [| split; [| split; [| split; [| split; [| split; [| split]]]]]]]].
  - unfold FunctionalTransform_call, dict_copy_object.
    rewrite (bind_ok _ _ _ _ _ (dict_copy_ok _ _ _ Hxd)).
    assert (dicts (mk_store (dicts st ++ [xd]) (arrays st) (layout st)) !! label_dict
            = Some xl) as Hxl1 by (simpl; by apply lookup_app_l_Some).
    rewrite (bind_ok _ _ _ _ _ (dict_copy_ok _ _ _ Hxl1)).
    cbn [dicts arrays]. rewrite length_app. simpl length. fold n.
    replace (n + 1) with (S n) by lia.
    destruct weight_dict as [w |].
    + assert (dicts (mk_store ((dicts st ++ [xd]) ++ [xl]) (arrays st) (layout st)) !! w
              = Some xw) as Hxw2.
      { simpl. apply lookup_app_l_Some. by apply lookup_app_l_Some. }
      rewrite (bind_ok _ _ _ _ _ (dict_copy_ok _ _ _ Hxw2)).
      cbn [dicts arrays]. rewrite !length_app. simpl length. fold n.
      by replace (n + 1 + 1) with (S (S n)) by lia.
    + subst xw. unfold mbind at 1, M_bind at 1. unfold dict_new at 1.
      cbn [dicts arrays]. rewrite !length_app. simpl length. fold n.
      by replace (n + 1 + 1) with (S (S n)) by lia.
  - apply lookup_ge_None. unfold n. lia.
  - apply lookup_ge_None. unfold n. lia.
  - apply lookup_ge_None. unfold n. lia.
  - repeat constructor; rewrite ?elem_of_cons, ?elem_of_nil; lia.
  - cbn [dicts]. rewrite <- !app_assoc. rewrite lookup_app_r by (unfold n; lia).
    unfold n. by rewrite Nat.sub_diag.
  - cbn [dicts]. rewrite <- !app_assoc. rewrite lookup_app_r by (unfold n; lia).
    unfold n. by replace (S (length (dicts st)) - length (dicts st)) with 1 by lia.
  - cbn [dicts]. rewrite <- !app_assoc. rewrite lookup_app_r by (unfold n; lia).
    unfold n.
    by replace (S (S (length (dicts st))) - length (dicts st)) with 2 by lia.
  - split; cbn [dicts arrays]; [| done].
    rewrite <- !app_assoc. by eexists.
  - done.
Qed.

Lemma FunctionalTransform_call_copies_witness :
  ∃ data_dict_copy label_dict_copy weight_dict_copy st1,
    FunctionalTransform_call
      (FunctionalTransform_init (λ d l w, mret (d, l, w)))
      [Some 0; Some 1; None]
      (new_store [[("x", 0)]; [("u", 1)]]
                [mk_ndarray [1] [1%float]; mk_ndarray [1] [2%float]])
    = (Ok (data_dict_copy, label_dict_copy, weight_dict_copy), st1)
    ∧ NoDup [0; 1; data_dict_copy; label_dict_copy; weight_dict_copy]
    ∧ dicts st1 !! data_dict_copy = Some [("x", 0)]
    ∧ dicts st1 !! label_dict_copy = Some [("u", 1)]
    ∧ dicts st1 !! weight_dict_copy = Some [].
Proof.
  destruct (FunctionalTransform_call_copies
              (FunctionalTransform_init (λ d l w, mret (d, l, w)))
              0 1 None
              (new_store [[("x", 0)]; [("u", 1)]]
                        [mk_ndarray [1] [1%float]; mk_ndarray [1] [2%float]])
              [("x", 0)] [("u", 1)] [] eq_refl eq_refl eq_refl)
    as (d & l & w & st1 & Hrun & Hd & Hl & Hw & Hnd & Hd1 & Hl1 & Hw1 & _).
  exists d, l, w, st1.
  split; [exact Hrun |]. split; [| by repeat split].
  apply lookup_ge_None in Hd, Hl, Hw. simpl in Hd, Hl, Hw.
  apply NoDup_cons. split.
  { rewrite !elem_of_cons, elem_of_nil. lia. }
  apply NoDup_cons. split; [| done].
  rewrite !elem_of_cons, elem_of_nil. lia.
Defined.

(** The call with no argument, or any number but three, fails on the
    unpacking of [data]; a data or label argument that is [None] is not a
    mapping. *)
Lemma FunctionalTransform_call_arity {F R : Type}
    (self : FunctionalTransform (F:=F) R) (data : list (option nat)) st :
  length data ≠ 3 →
  FunctionalTransform_call self data st
  = (Raise (ValueError_unpack (length data)), st).
Proof.
  intros Hlen. by destruct data as [| ? [| ? [| ? [| ? ?]]]].
Qed.

(** ** Repeated elements of [apply_keys] *)

Section RepeatedKeys.
Context {F : Type}.
Variables (fsub fdiv : F → F → F) (flog1p : F → F).

Lemma on_selected_same_elements (ak ak' : list string) (loop : nat → M F ()) :
  (∀ x, x ∈ ak ↔ x ∈ ak') → on_selected ak loop = on_selected ak' loop.
Proof.
  intros Hsame. unfold on_selected.
  by rewrite (bool_decide_ext _ _ (Hsame "input")),
             (bool_decide_ext _ _ (Hsame "label")).
Qed.

(** C10.  The constructors of Normalize, Log1p, CropData and SqueezeData
    raise only for the empty tuple and for a tuple with an element other
    than ["input"] and ["label"]: a non-empty tuple of these two names is
    accepted however often a name is repeated.  The object built with
    repeated names behaves in a call as the one built with each name
    listed once. *)
Theorem init_accepts_repeated_keys
    (mean std : ndarray F) (scale : F) (xmin xmax : list Z)
    (apply_keys : list string) :
  (apply_keys ≠ [] →
   (∀ x, x ∈ apply_keys → x = "input" ∨ x = "label") →
   Normalize_init mean std apply_keys
     = Ok {| Normalize_mean := mean; Normalize_std := std;
             Normalize_apply_keys := apply_keys |}
   ∧ Log1p_init scale apply_keys
     = Ok {| Log1p_scale := scale; Log1p_apply_keys := apply_keys |}
   ∧ CropData_init xmin xmax apply_keys
     = Ok {| CropData_xmin := xmin; CropData_xmax := xmax;
             CropData_apply_keys := apply_keys |}
   ∧ SqueezeData_init apply_keys
     = Ok {| SqueezeData_apply_keys := apply_keys |})
  ∧ (∀ e,
       Normalize_init mean std apply_keys = Raise e
       ∨ Log1p_init scale apply_keys = Raise e
       ∨ CropData_init xmin xmax apply_keys = Raise e
       ∨ SqueezeData_init apply_keys = Raise e →
       apply_keys = [] ∨ ∃ x, x ∈ apply_keys ∧ x ≠ "input" ∧ x ≠ "label")
  ∧ Normalize_call fsub fdiv
      {| Normalize_mean := mean; Normalize_std := std;
         Normalize_apply_keys := apply_keys |}
    = Normalize_call fsub fdiv
        {| Normalize_mean := mean; Normalize_std := std;
           Normalize_apply_keys := remove_dups apply_keys |}
  ∧ Log1p_call fdiv flog1p
      {| Log1p_scale := scale; Log1p_apply_keys := apply_keys |}
    = Log1p_call fdiv flog1p
        {| Log1p_scale := scale; Log1p_apply_keys := remove_dups apply_keys |}
  ∧ CropData_call (F:=F)
      {| CropData_xmin := xmin; CropData_xmax := xmax;
         CropData_apply_keys := apply_keys |}
    = CropData_call
        {| CropData_xmin := xmin; CropData_xmax := xmax;
           CropData_apply_keys := remove_dups apply_keys |}
  ∧ SqueezeData_call (F:=F) {| SqueezeData_apply_keys := apply_keys |}
    = SqueezeData_call {| SqueezeData_apply_keys := remove_dups apply_keys |}.
Proof.
  assert (∀ x, x ∈ apply_keys ↔ x ∈ remove_dups apply_keys) as Hsame.
  { intros x. symmetry. apply elem_of_remove_dups. }
  split; [| split; [| split; [| split; [| split]]]].
  - intros Hne Hall. apply init_valid. by apply valid_apply_keys_spec.
  - intros e He. apply invalid_apply_keys_spec.
    unfold Normalize_init, Log1p_init, CropData_init, SqueezeData_init in He.
    destruct (invalid_apply_keys apply_keys); [done |].
    by destruct He as [He | [He | [He | He]]].
  - apply (on_selected_same_elements _ _
             (update_values computed
                (λ v, d ← np_sub fsub v mean; np_div fdiv d std))
             Hsame).
  - apply (on_selected_same_elements _ _
             (update_values computed (λ v,
                Ok (mk_ndarray (shape v)
                      ((λ x, flog1p (fdiv x scale)) <$> data v))))
             Hsame).
  - apply (on_selected_same_elements _ _
             (update_values
                (view (crop {| CropData_xmin := xmin; CropData_xmax := xmax;
                               CropData_apply_keys := apply_keys |}))
                (crop {| CropData_xmin := xmin; CropData_xmax := xmax;
                         CropData_apply_keys := apply_keys |}))
             Hsame).
  - apply (on_selected_same_elements _ _ squeeze_values Hsame).
Qed.
End RepeatedKeys.

Lemma init_accepts_repeated_keys_witness :
  SqueezeData_init ["input"; "input"]
  = Ok {| SqueezeData_apply_keys := ["input"; "input"] |}
  ∧ Normalize_init (mk_ndarray [] [0%float]) (mk_ndarray [] [2%float])
      ["label"; "input"; "label"]
    = Ok {| Normalize_mean := mk_ndarray [] [0%float];
            Normalize_std := mk_ndarray [] [2%float];
            Normalize_apply_keys := ["label"; "input"; "label"] |}.
Proof.
  split.
  - apply (init_accepts_repeated_keys PrimFloat.sub PrimFloat.div (λ x, x)
             (mk_ndarray [] [0%float]) (mk_ndarray [] [2%float]) 1%float
             [] [] ["input"; "input"]).
    + discriminate.
    + intros x Hx. apply list_elem_of_In in Hx. simpl in Hx.
      destruct Hx as [<- | [<- | []]]; tauto.
  - apply (init_accepts_repeated_keys PrimFloat.sub PrimFloat.div (λ x, x)
             (mk_ndarray [] [0%float]) (mk_ndarray [] [2%float]) 1%float
             [] [] ["label"; "input"; "label"]).
    + discriminate.
    + intros x Hx. apply list_elem_of_In in Hx. simpl in Hx.
      destruct Hx as [<- | [<- | [<- | []]]]; tauto.
Defined.

(** ** Translate and Scale, array object by array object *)

Section Inplace.
Context {F : Type}.
Variables (op : F → F → F) (table : list (string * F)).
Implicit Types (st : store F) (xi : dict) (arrs : list (ndarray F))
  (lay : list memory).

Lemma dict_set_get_same {V} (d : list (string * V)) key v :
  dict_get d key = Some v → dict_set d key v = d.
Proof.
  induction d as [| [k w] d IH]; simpl; [done |].
  destruct (decide (k = key)) as [-> | Hne].
  - by intros [= ->].
  - intros H. by rewrite IH.
Qed.

Lemma length_overwrite (g : F → F) r arrs :
  length (overwrite g r arrs) = length arrs.
Proof.
  unfold overwrite. destruct (arrs !! r); [apply length_insert | done].
Qed.

Lemma lookup_overwrite (g : F → F) r arrs r' :
  overwrite g r arrs !! r'
  = if decide (r = r') then map_data g <$> arrs !! r' else arrs !! r'.
Proof.
  unfold overwrite. destruct (decide (r = r')) as [<- | Hne].
  - destruct (arrs !! r) as [a |] eqn:Hr.
    + rewrite list_lookup_insert_eq by (by eapply lookup_lt_Some). done.
    + by rewrite Hr.
  - destruct (arrs !! r); [| done]. by rewrite list_lookup_insert_ne.
Qed.

Lemma length_inplace_step xi arrs key :
  length (inplace_step op table xi arrs key) = length arrs.
Proof.
  unfold inplace_step.
  destruct (dict_get xi key), (dict_get table key);
    auto using length_overwrite.
Qed.

(** *** The in-place operator *)

Lemma length_write_through (g : F → F) r m arrs lay :
  length (write_through g r m arrs lay) = length arrs.
Proof. unfold write_through. apply length_imap. Qed.

Lemma shape_written (g : F → F) target m' (a : ndarray F) :
  shape (written g target m' a) = shape a.
Proof. unfold written. by destruct (decide _). Qed.

Lemma lookup_write_through_shape (g : F → F) r m arrs lay i :
  shape <$> write_through g r m arrs lay !! i = shape <$> arrs !! i.
Proof.
  unfold write_through. rewrite list_lookup_imap.
  destruct (arrs !! i) as [a |]; [| done]. simpl.
  destruct (decide (i = r)); [done |].
  destruct (lay !! i); [| done]. by rewrite shape_written.
Qed.

Lemma updatable_spec lay r :
  updatable lay r →
  ∃ m, lay !! r = Some m ∧ writeable m = true ∧ takes_float m = true.
Proof.
  unfold updatable. destruct (lay !! r) as [m |]; [| done].
  intros [Hw Hi]%andb_True. exists m.
  by rewrite (Is_true_true_1 _ Hw), (Is_true_true_1 _ Hi).
Qed.

Lemma updatable_refusal lay r : updatable lay r → refusal lay r = None.
Proof.
  intros (m & Hm & Hw & Hi)%updatable_spec. unfold refusal.
  by rewrite Hm, Hw, Hi.
Qed.

Lemma sole_owner_updatable lay r : sole_owner lay r → updatable lay r.
Proof.
  unfold sole_owner, updatable. destruct (lay !! r) as [m |]; [| done].
  by intros [H _]%andb_True.
Qed.

Lemma sole_owner_alone lay r r' m m' :
  sole_owner lay r → lay !! r = Some m → lay !! r' = Some m' →
  buffer m' = buffer m → r' = r.
Proof.
  unfold sole_owner. intros Hsole Hm Hm' Hbuf. rewrite Hm in Hsole.
  apply andb_True in Hsole as [_ Hall]. apply Is_true_true_1 in Hall.
  rewrite forallb_forall in Hall.
  specialize (Hall (r', m')). simpl in Hall.
  rewrite Hbuf, Nat.eqb_refl, orb_false_r in Hall.
  apply Nat.eqb_eq, Hall.
  apply list_elem_of_In, list_elem_of_lookup. exists r'.
  by rewrite list_lookup_imap, Hm'.
Qed.

Lemma array_inplace_ok (g : F → F) r st a :
  arrays st !! r = Some a → updatable (layout st) r →
  ∃ m, layout st !! r = Some m
       ∧ array_inplace g r st
         = (Ok r, mk_store (dicts st)
                    (write_through g r m (arrays st) (layout st))
                    (layout st)).
Proof.
  intros Ha (m & Hm & Hw & Hi)%updatable_spec. exists m. split; [done |].
  unfold array_inplace. by rewrite Ha, Hm, Hw, Hi.
Qed.

Lemma array_inplace_refused (g : F → F) r st a e :
  arrays st !! r = Some a → refusal (layout st) r = Some e →
  array_inplace g r st = (Raise e, st).
Proof.
  unfold refusal, array_inplace. intros Ha. rewrite Ha.
  destruct (layout st !! r) as [m |]; [| by intros [= <-]].
  destruct (writeable m); simpl; [| by intros [= <-]].
  destruct (takes_float m); simpl; [done | by intros [= <-]].
Qed.

(** Written in place, an array object that shares its memory with no
    other is the only one that changes. *)
Lemma write_through_sole (g : F → F) r m arrs lay :
  lay !! r = Some m → sole_owner lay r →
  write_through g r m arrs lay = overwrite g r arrs.
Proof.
  intros Hm Hsole. apply list_eq. intros i.
  unfold write_through. rewrite list_lookup_imap, lookup_overwrite.
  destruct (decide (r = i)) as [<- | Hne].
  - destruct (arrs !! r); [| done]. simpl. by rewrite decide_True.
  - destruct (arrs !! i) as [a |]; [| done]. simpl.
    rewrite decide_False by done.
    destruct (lay !! i) as [m' |] eqn:Hm'; [| done].
    unfold written. destruct (decide (buffer m' = buffer m)) as [Hbuf |]; [| done].
    exfalso. apply Hne. symmetry.
    by apply (sole_owner_alone lay r i m m').
Qed.

Lemma length_inplace_write xi lay arrs key :
  length (inplace_write op table xi lay arrs key) = length arrs.
Proof.
  unfold inplace_write.
  destruct (dict_get xi key) as [r |], (dict_get table key); try done.
  destruct (lay !! r); [apply length_write_through | done].
Qed.

Lemma inplace_write_sole xi lay arrs key :
  (∀ r, dict_get xi key = Some r → sole_owner lay r) →
  inplace_write op table xi lay arrs key = inplace_step op table xi arrs key.
Proof.
  intros Hsole. unfold inplace_write, inplace_step.
  destruct (dict_get xi key) as [r |]; [| done].
  destruct (dict_get table key) as [x |]; [| done].
  pose proof (Hsole r eq_refl) as Hr.
  destruct (updatable_spec _ _ (sole_owner_updatable _ _ Hr)) as (m & Hm & _).
  rewrite Hm. by apply write_through_sole.
Qed.

Lemma foldl_inplace_write_sole xi lay (ks : list string) : ∀ arrs,
  (∀ k r, k ∈ ks → dict_get xi k = Some r → sole_owner lay r) →
  foldl (inplace_write op table xi lay) arrs ks
  = foldl (inplace_step op table xi) arrs ks.
Proof.
  induction ks as [| key ks IH]; intros arrs Hsole; [done |].
  cbn [foldl]. rewrite inplace_write_sole.
  - apply IH. intros k r Hk. apply Hsole, elem_of_cons. by right.
  - intros r. apply Hsole, elem_of_cons. by left.
Qed.

(** One iteration on an array numpy accepts: the dicts are as before,
    the array object under [key] has been written in place. *)
Lemma inplace_body_run input copy key st xi :
  dicts st !! input = Some xi → dicts st !! copy = Some xi →
  (∀ r, dict_get xi key = Some r →
        r < length (arrays st) ∧ updatable (layout st) r) →
  key ∈ table.*1 →
  inplace_body op table input copy key st
  = (Ok (), mk_store (dicts st)
              (inplace_write op table xi (layout st) (arrays st) key)
              (layout st)).
Proof.
  intros Hin Hcopy Hvalid Hkey. unfold inplace_body, inplace_write.
  rewrite (bind_ok _ _ _ _ _ (dict_contains_run _ _ _ key Hin)).
  destruct (dict_get xi key) as [r |] eqn:Hget.
  - rewrite bool_decide_true by (by eexists).
    assert (dict_getitem copy key st = (Ok r, st)) as Hitem.
    { by rewrite (dict_getitem_run _ _ _ _ Hcopy), Hget. }
    rewrite (bind_ok _ _ _ _ _ Hitem).
    apply dict_get_is_Some in Hkey as [x Hx]. rewrite Hx.
    unfold lift at 1. unfold mbind at 1, M_bind at 1. simpl from_option.
    destruct (Hvalid r eq_refl) as [Hlt Hup].
    destruct (lookup_lt_is_Some_2 _ _ Hlt) as [a Ha].
    destruct (array_inplace_ok (λ y, op y x) r st a Ha Hup) as (m & Hm & Hrun).
    rewrite (bind_ok _ _ _ _ _ Hrun), Hm.
    erewrite dict_setitem_ok by (simpl; exact Hcopy).
    simpl. rewrite (dict_set_get_same _ _ _ Hget).
    by rewrite list_insert_id by done.
  - rewrite bool_decide_false by (by intros [? ?]).
    unfold mret, M_ret. by destruct st.
Qed.

(** One iteration on an array numpy refuses: the operator raises, and
    nothing is written. *)
Lemma inplace_body_refused input copy key st xi r e :
  dicts st !! input = Some xi → dicts st !! copy = Some xi →
  dict_get xi key = Some r → r < length (arrays st) →
  refusal (layout st) r = Some e →
  key ∈ table.*1 →
  inplace_body op table input copy key st = (Raise e, st).
Proof.
  intros Hin Hcopy Hget Hlt Href Hkey. unfold inplace_body.
  rewrite (bind_ok _ _ _ _ _ (dict_contains_run _ _ _ key Hin)).
  rewrite Hget, bool_decide_true by (by eexists).
  assert (dict_getitem copy key st = (Ok r, st)) as Hitem.
  { by rewrite (dict_getitem_run _ _ _ _ Hcopy), Hget. }
  rewrite (bind_ok _ _ _ _ _ Hitem).
  apply dict_get_is_Some in Hkey as [x Hx]. rewrite Hx.
  unfold lift at 1. unfold mbind at 1, M_bind at 1. simpl from_option.
  destruct (lookup_lt_is_Some_2 _ _ Hlt) as [a Ha].
  by rewrite (bind_raise _ _ _ _ _
                (array_inplace_refused (λ y, op y x) r st a e Ha Href)).
Qed.

Lemma for_each_inplace_run input copy xi (ks : list string) : ∀ st,
  dicts st !! input = Some xi → dicts st !! copy = Some xi →
  (∀ k r, k ∈ ks → dict_get xi k = Some r →
          r < length (arrays st) ∧ updatable (layout st) r) →
  ks ⊆ table.*1 →
  for_each ks (inplace_body op table input copy) st
  = (Ok (), mk_store (dicts st)
              (foldl (inplace_write op table xi (layout st)) (arrays st) ks)
              (layout st)).
Proof.
  induction ks as [| key ks IH]; intros st Hin Hcopy Hvalid Hsub.
  - simpl. unfold mret, M_ret. by destruct st.
  - cbn [for_each foldl].
    rewrite (bind_ok _ _ _ _ _
               (inplace_body_run input copy key st xi Hin Hcopy
                  (λ r, Hvalid key r ltac:(apply elem_of_cons; by left))
                  ltac:(apply Hsub, elem_of_cons; by left))).
    rewrite IH; [done | done | done | |].
    + intros k r Hk Hget. simpl. rewrite length_inplace_write.
      apply (Hvalid k r); [apply elem_of_cons; by right | done].
    + intros k Hk. apply Hsub, elem_of_cons. by right.
Qed.

Lemma for_each_app_ok {A} (xs ys : list A) (body : A → M F ()) st st1 :
  for_each xs body st = (Ok (), st1) →
  for_each (xs ++ ys) body st = for_each ys body st1.
Proof.
  revert st. induction xs as [| x xs IH]; intros st Hrun; simpl in *.
  - by injection Hrun as <-.
  - unfold mbind, M_bind in *.
    destruct (body x st) as [[[] | e] st0]; [| done]. by apply IH.
Qed.

(** The whole call on arrays numpy accepts: a new dict with the entries
    of the input dict, and every configured key of the input dict has had
    its array object written in place, in the order of the table. *)
Lemma inplace_call_run input label weight st xi :
  dicts st !! input = Some xi →
  (∀ k r, k ∈ table.*1 → dict_get xi k = Some r →
          r < length (arrays st) ∧ updatable (layout st) r) →
  inplace_call op table input label weight st
  = (Ok (length (dicts st), label, weight),
     mk_store (dicts st ++ [xi])
              (foldl (inplace_write op table xi (layout st)) (arrays st)
                     table.*1)
              (layout st)).
Proof.
  intros Hin Hvalid. unfold inplace_call.
  rewrite (bind_ok _ _ _ _ _ (dict_copy_ok _ _ _ Hin)).
  assert (for_each table.*1 (inplace_body op table input (length (dicts st)))
            (mk_store (dicts st ++ [xi]) (arrays st) (layout st))
          = (Ok (), mk_store (dicts st ++ [xi])
                      (foldl (inplace_write op table xi (layout st))
                             (arrays st) table.*1)
                      (layout st)))
    as Hloop.
  { apply (for_each_inplace_run input (length (dicts st)) xi table.*1
             (mk_store (dicts st ++ [xi]) (arrays st) (layout st))); simpl.
    - by apply lookup_app_l_Some.
    - rewrite lookup_app_r by lia. by rewrite Nat.sub_diag.
    - done.
    - done. }
  by rewrite (bind_ok _ _ _ _ _ Hloop).
Qed.

(** The call when numpy refuses the array under the key [k] of the
    table: the operator raises there, after the arrays under the keys
    before [k] have been written; they stay written. *)
Lemma inplace_call_refused input label weight st xi pre k post r e :
  dicts st !! input = Some xi →
  table.*1 = pre ++ k :: post →
  (∀ k' r', k' ∈ pre → dict_get xi k' = Some r' →
            r' < length (arrays st) ∧ updatable (layout st) r') →
  dict_get xi k = Some r → r < length (arrays st) →
  refusal (layout st) r = Some e →
  inplace_call op table input label weight st
  = (Raise e,
     mk_store (dicts st ++ [xi])
              (foldl (inplace_write op table xi (layout st)) (arrays st) pre)
              (layout st)).
Proof.
  intros Hin Htab Hvalid Hget Hlt Href. unfold inplace_call.
  rewrite (bind_ok _ _ _ _ _ (dict_copy_ok _ _ _ Hin)).
  set (st0 := mk_store (dicts st ++ [xi]) (arrays st) (layout st)).
  set (st1 := mk_store (dicts st ++ [xi])
                (foldl (inplace_write op table xi (layout st)) (arrays st) pre)
                (layout st)).
  assert (dicts st0 !! input = Some xi) as Hin0
    by (simpl; by apply lookup_app_l_Some).
  assert (dicts st0 !! length (dicts st) = Some xi) as Hcopy0.
  { simpl. rewrite lookup_app_r by lia. by rewrite Nat.sub_diag. }
  assert (for_each pre (inplace_body op table input (length (dicts st))) st0
          = (Ok (), st1)) as Hpre.
  { apply (for_each_inplace_run input (length (dicts st)) xi pre st0);
      [done | done | done |].
    intros k' Hk'. rewrite Htab. apply elem_of_app. by left. }
  assert (for_each table.*1 (inplace_body op table input (length (dicts st))) st0
          = (Raise e, st1)) as Hloop.
  { rewrite Htab, (for_each_app_ok _ _ _ _ _ Hpre). cbn [for_each].
    apply bind_raise.
    apply (inplace_body_refused input (length (dicts st)) k st1 xi r e);
      [done | done | done | | done |].
    - unfold st1. simpl. clear -Hlt.
      assert (∀ (ks : list string) arrs,
                length (foldl (inplace_write op table xi (layout st)) arrs ks)
                = length arrs) as Hlen.
      { induction ks as [| key ks IH]; intros arrs; [done |].
        cbn [foldl]. by rewrite IH, length_inplace_write. }
      by rewrite Hlen.
    - rewrite Htab. apply elem_of_app. right. apply elem_of_cons. by left. }
  by rewrite (bind_raise _ _ _ _ _ Hloop).
Qed.

Lemma NoDup_snd_key xi k1 k2 r :
  NoDup xi.*2 → (k1, r) ∈ xi → (k2, r) ∈ xi → k1 = k2.
Proof.
  induction xi as [| [k r0] xi IH]; simpl; intros Hnd H1 H2.
  - by apply elem_of_nil in H1.
  - apply NoDup_cons in Hnd as [Hr Hnd].
    apply elem_of_cons in H1 as [H1 | H1];
      apply elem_of_cons in H2 as [H2 | H2]; simplify_eq.
    + done.
    + exfalso. apply Hr. apply list_elem_of_fmap. by eexists (_, _).
    + exfalso. apply Hr. apply list_elem_of_fmap. by eexists (_, _).
    + by apply IH.
Qed.

(** An array object that no visited key holds is not written. *)
Lemma foldl_inplace_lookup_other xi (ks : list string) r : ∀ arrs,
  (∀ k, k ∈ ks → k ∈ table.*1 → dict_get xi k ≠ Some r) →
  foldl (inplace_step op table xi) arrs ks !! r = arrs !! r.
Proof.
  induction ks as [| key ks IH]; intros arrs Hother; [done |].
  cbn [foldl]. rewrite IH.
  - unfold inplace_step.
    destruct (dict_get xi key) as [r0 |] eqn:Hget; [| done].
    destruct (dict_get table key) as [x |] eqn:Hx; [| done].
    rewrite lookup_overwrite, decide_False; [done |].
    intros ->. apply (Hother key); [apply elem_of_cons; by left | | done].
    apply dict_get_is_Some. by rewrite Hx.
  - intros k Hk. apply Hother, elem_of_cons. by right.
Qed.

(** An array object held under one key only is written once, with the
    entry of the table for that key. *)
Lemma foldl_inplace_lookup xi (ks : list string) k r : ∀ arrs,
  NoDup ks → NoDup xi.*1 → NoDup xi.*2 → (k, r) ∈ xi →
  foldl (inplace_step op table xi) arrs ks !! r
  = if decide (k ∈ ks)
    then match dict_get table k with
         | Some x => map_data (λ y, op y x) <$> arrs !! r
         | None => arrs !! r
         end
    else arrs !! r.
Proof.
  intros arrs Hks Hk1 Hk2 Hin. revert arrs.
  induction Hks as [| key ks Hkey Hks IH]; intros arrs; [done |].
  cbn [foldl].
  destruct (decide (key = k)) as [-> | Hne].
  - rewrite decide_True by (apply elem_of_cons; by left).
    rewrite IH, decide_False by done.
    unfold inplace_step. rewrite (dict_get_elem_of _ _ _ Hk1 Hin).
    destruct (dict_get table k) as [x |]; [| done].
    by rewrite lookup_overwrite, decide_True.
  - rewrite IH.
    assert (inplace_step op table xi arrs key !! r = arrs !! r) as ->.
    { unfold inplace_step.
      destruct (dict_get xi key) as [r0 |] eqn:Hget; [| done].
      destruct (dict_get table key) as [x |]; [| done].
      rewrite lookup_overwrite, decide_False; [done |].
      intros ->. apply Hne.
      apply (NoDup_snd_key xi key k r Hk2); [| done].
      by apply dict_get_Some_elem_of. }
    destruct (decide (k ∈ ks)) as [Hk | Hk].
    + rewrite decide_True; [done |]. apply elem_of_cons. by right.
    + rewrite decide_False; [done |].
      intros [-> | ?]%elem_of_cons; done.
Qed.

(** Translate and Scale when no array object is shared: every key of the
    input dict holds an object of its own, the objects under the
    configured keys are writeable arrays of a dtype that takes a float
    and share their memory with no other array, and the label dict holds none of them.
    The returned inputs then hold, under each configured key, the array
    with the offset added (the factor multiplied), and the labels hold
    what they held. *)
Lemma inplace_call_no_sharing input label weight st xi xl ci cl :
  dicts st !! input = Some xi → dicts st !! label = Some xl →
  deref (arrays st) xi = Some ci → deref (arrays st) xl = Some cl →
  NoDup xi.*1 → NoDup xi.*2 → NoDup table.*1 →
  (∀ k r, k ∈ table.*1 → dict_get xi k = Some r → sole_owner (layout st) r) →
  (∀ k r, k ∈ table.*1 → (k, r) ∈ xi → r ∉ xl.*2) →
  ∃ st',
    inplace_call op table input label weight st
    = (Ok (length (dicts st), label, weight), st')
    ∧ content st' (length (dicts st)) = Some (adjusted op table <$> ci)
    ∧ content st' label = Some cl
    ∧ length (dicts st') = S (length (dicts st)).
Proof.
  intros Hin Hlab Hci Hcl Hk1 Hk2 Htab Hsole Hsep.
  assert (∀ k r, dict_get xi k = Some r → r < length (arrays st)) as Hvalid.
  { intros k r Hget. apply dict_get_Some_elem_of in Hget.
    apply list_elem_of_lookup in Hget as [i Hi].
    apply mapM_Some_1 in Hci.
    destruct (Forall2_lookup_l _ _ _ _ _ Hci Hi) as (kv & _ & Hkv).
    simpl in Hkv. destruct (arrays st !! r) eqn:Hr; [| done].
    by eapply lookup_lt_Some. }
  eexists. split.
  { apply inplace_call_run; [done |]. intros k r Hk Hget.
    split; [by eapply Hvalid |].
    apply sole_owner_updatable. by eapply Hsole. }
  rewrite (foldl_inplace_write_sole xi (layout st) table.*1 (arrays st) Hsole).
  unfold content. cbn [dicts arrays].
  split; [| split].
  - rewrite lookup_app_r by lia. rewrite Nat.sub_diag. simpl.
    apply mapM_Some_2. apply Forall2_fmap_r.
    apply mapM_Some_1 in Hci.
    apply Forall2_same_length_lookup. split; [by eapply Forall2_length |].
    intros i [k r] [k' v] Hi Hi'.
    pose proof (Forall2_lookup_lr _ _ _ _ _ _ Hci Hi Hi') as Hkv.
    simpl in Hkv. destruct (arrays st !! r) as [v0 |] eqn:Hr; [| done].
    simpl in Hkv. injection Hkv as <- <-. cbn [fst snd].
    rewrite (foldl_inplace_lookup xi table.*1 k r _ Htab Hk1 Hk2
               (list_elem_of_lookup_2 _ _ _ Hi)).
    unfold adjusted. simpl.
    destruct (decide (k ∈ table.*1)) as [Hk | Hk].
    + destruct (dict_get table k); by rewrite Hr.
    + rewrite Hr.
      destruct (dict_get table k) as [x |] eqn:Hx; [| done].
      exfalso. apply Hk. apply dict_get_is_Some. by rewrite Hx.
  - rewrite (lookup_app_l_Some _ _ _ _ Hlab). simpl.
    apply mapM_Some_2. apply mapM_Some_1 in Hcl.
    apply Forall2_same_length_lookup. split; [by eapply Forall2_length |].
    intros i [k r] kv Hi Hi'.
    pose proof (Forall2_lookup_lr _ _ _ _ _ _ Hcl Hi Hi') as Hkv.
    cbn [fst snd] in *.
    rewrite foldl_inplace_lookup_other; [done |].
    intros k0 _ Hk0 Hget. apply (Hsep k0 r Hk0).
    + by apply dict_get_Some_elem_of.
    + apply list_elem_of_fmap. exists (k, r). split; [done |].
      by eapply list_elem_of_lookup_2.
  - rewrite length_app. simpl. lia.
Qed.
End Inplace.

(** Translate and Scale themselves, when no array object is shared. *)
Lemma Translate_call_no_sharing {F : Type} (fadd : F → F → F)
    (self : Translate) input label weight (st : store F) xi xl ci cl :
  dicts st !! input = Some xi → dicts st !! label = Some xl →
  deref (arrays st) xi = Some ci → deref (arrays st) xl = Some cl →
  NoDup xi.*1 → NoDup xi.*2 → NoDup (Translate_offset self).*1 →
  (∀ k r, k ∈ (Translate_offset self).*1 → dict_get xi k = Some r →
          sole_owner (layout st) r) →
  (∀ k r, k ∈ (Translate_offset self).*1 → (k, r) ∈ xi → r ∉ xl.*2) →
  ∃ st',
    Translate_call fadd self input label weight st
    = (Ok (length (dicts st), label, weight), st')
    ∧ content st' (length (dicts st))
      = Some (adjusted fadd (Translate_offset self) <$> ci)
    ∧ content st' label = Some cl
    ∧ length (dicts st') = S (length (dicts st)).
Proof. apply inplace_call_no_sharing. Qed.

Lemma Scale_call_no_sharing {F : Type} (fmul : F → F → F)
    (self : Scale) input label weight (st : store F) xi xl ci cl :
  dicts st !! input = Some xi → dicts st !! label = Some xl →
  deref (arrays st) xi = Some ci → deref (arrays st) xl = Some cl →
  NoDup xi.*1 → NoDup xi.*2 → NoDup (Scale_scale self).*1 →
  (∀ k r, k ∈ (Scale_scale self).*1 → dict_get xi k = Some r →
          sole_owner (layout st) r) →
  (∀ k r, k ∈ (Scale_scale self).*1 → (k, r) ∈ xi → r ∉ xl.*2) →
  ∃ st',
    Scale_call fmul self input label weight st
    = (Ok (length (dicts st), label, weight), st')
    ∧ content st' (length (dicts st))
      = Some (adjusted fmul (Scale_scale self) <$> ci)
    ∧ content st' label = Some cl
    ∧ length (dicts st') = S (length (dicts st)).
Proof. apply inplace_call_no_sharing. Qed.

(** ** Translate and Scale write into the arrays of the caller *)

(** C1 (the code does otherwise).  Translate with offset [{"x": 2.0}] and
    Scale with factor [{"x": 1.5}] on an input dict that holds the array
    [[1.0]], respectively [[2.0]], under ["x"]: the copy of the dict
    holds the same array object, [+=] and [*=] overwrite its elements,
    and after the call the dict of the caller (object 0) holds [[3.0]]
    where it held [[1.0]], respectively [[2.0]]. *)
Theorem Translate_call_overwrites_argument :
  let st := new_store [[("x", 0)]; []; []] [mk_ndarray [1] [1%float]] in
  let st' := (Translate_call PrimFloat.add (Translate_init [("x", 2%float)])
                0 1 (Some 2) st).2 in
  let su := new_store [[("x", 0)]; []; []] [mk_ndarray [1] [2%float]] in
  let su' := (Scale_call PrimFloat.mul (Scale_init [("x", 1.5%float)])
                0 1 (Some 2) su).2 in
  (content st 0 = Some [("x", mk_ndarray [1] [1%float])]
   ∧ content st' 0 = Some [("x", mk_ndarray [1] [3%float])])
  ∧ (content su 0 = Some [("x", mk_ndarray [1] [2%float])]
     ∧ content su' 0 = Some [("x", mk_ndarray [1] [3%float])]).
Proof. vm_compute. repeat split. Qed.

(** C5 (the code does otherwise).  Translate with offsets
    [{"x": 1.0, "y": 2.0}] on an input dict whose keys ["x"] and ["y"]
    hold one array object [[1.0]], which the label dict holds too under
    ["u"]: both offsets are added into that object, so the returned
    inputs hold [[4.0]] under ["x"] and under ["y"], not [[2.0]] and
    [[3.0]], and the labels hold [[4.0]] where they held [[1.0]].  Scale
    with factors [{"x": 2.0, "y": 3.0}] multiplies the object by both. *)
Theorem Translate_call_shared_array :
  let st := new_store [[("x", 0); ("y", 0)]; [("u", 0)]; []]
                     [mk_ndarray [1] [1%float]] in
  let r := Translate_call PrimFloat.add
             (Translate_init [("x", 1%float); ("y", 2%float)])
             0 1 (Some 2) st in
  let r' := Scale_call PrimFloat.mul
              (Scale_init [("x", 2%float); ("y", 3%float)])
              0 1 (Some 2) st in
  (r.1 = Ok (3, 1, Some 2)
   ∧ content st 1 = Some [("u", mk_ndarray [1] [1%float])]
   ∧ content r.2 3 = Some [("x", mk_ndarray [1] [4%float]);
                           ("y", mk_ndarray [1] [4%float])]
   ∧ content r.2 1 = Some [("u", mk_ndarray [1] [4%float])])
  ∧ (r'.1 = Ok (3, 1, Some 2)
     ∧ content r'.2 3 = Some [("x", mk_ndarray [1] [6%float]);
                              ("y", mk_ndarray [1] [6%float])]
     ∧ content r'.2 1 = Some [("u", mk_ndarray [1] [6%float])]).
Proof. vm_compute. repeat split. Qed.

(** * Further properties of the transforms *)

(** ** Translate and Scale: what a call does to the store *)

Section InplaceEffect.
Context {F : Type}.
Variables (op : F → F → F) (table : list (string * F)).
Implicit Types (st : store F) (xi xd : dict) (arrs : list (ndarray F))
  (ci cd : list (string * ndarray F)) (lay : list memory).

Lemma deref_valid arrs xi ci k r :
  deref arrs xi = Some ci → dict_get xi k = Some r → r < length arrs.
Proof.
  intros Hci Hget. apply dict_get_Some_elem_of in Hget.
  apply list_elem_of_lookup in Hget as [i Hi].
  apply mapM_Some_1 in Hci.
  destruct (Forall2_lookup_l _ _ _ _ _ Hci Hi) as (kv & _ & Hkv).
  simpl in Hkv. destruct (arrs !! r) eqn:Hr; [| done].
  by eapply lookup_lt_Some.
Qed.

Lemma foldl_inplace_length xi (ks : list string) : ∀ arrs,
  length (foldl (inplace_step op table xi) arrs ks) = length arrs.
Proof.
  induction ks as [| key ks IH]; intros arrs; [done |].
  cbn [foldl]. by rewrite IH, length_inplace_step.
Qed.

Lemma foldl_inplace_shape xi (ks : list string) a : ∀ arrs,
  shape <$> foldl (inplace_step op table xi) arrs ks !! a = shape <$> arrs !! a.
Proof.
  induction ks as [| key ks IH]; intros arrs; [done |].
  cbn [foldl]. rewrite IH. unfold inplace_step.
  destruct (dict_get xi key) as [r |]; [| done].
  destruct (dict_get table key) as [x |]; [| done].
  rewrite lookup_overwrite. destruct (decide (r = a)); [| done].
  by destruct (arrs !! a).
Qed.

Lemma foldl_inplace_absent xi (ks : list string) arrs :
  (∀ k, k ∈ ks → dict_get xi k = None) →
  foldl (inplace_step op table xi) arrs ks = arrs.
Proof.
  induction ks as [| key ks IH]; intros Habs; [done |].
  cbn [foldl]. unfold inplace_step at 2.
  rewrite (Habs key) by (apply elem_of_cons; by left).
  apply IH. intros k Hk. apply Habs, elem_of_cons. by right.
Qed.

Lemma foldl_inplace_write_length xi lay (ks : list string) : ∀ arrs,
  length (foldl (inplace_write op table xi lay) arrs ks) = length arrs.
Proof.
  induction ks as [| key ks IH]; intros arrs; [done |].
  cbn [foldl]. by rewrite IH, length_inplace_write.
Qed.

Lemma foldl_inplace_write_shape xi lay (ks : list string) a : ∀ arrs,
  shape <$> foldl (inplace_write op table xi lay) arrs ks !! a
  = shape <$> arrs !! a.
Proof.
  induction ks as [| key ks IH]; intros arrs; [done |].
  cbn [foldl]. rewrite IH. unfold inplace_write.
  destruct (dict_get xi key) as [r |]; [| done].
  destruct (dict_get table key) as [x |]; [| done].
  destruct (lay !! r); [| done]. apply lookup_write_through_shape.
Qed.

Lemma foldl_inplace_write_absent xi lay (ks : list string) arrs :
  (∀ k, k ∈ ks → dict_get xi k = None) →
  foldl (inplace_write op table xi lay) arrs ks = arrs.
Proof.
  induction ks as [| key ks IH]; intros Habs; [done |].
  cbn [foldl]. unfold inplace_write at 2.
  rewrite (Habs key) by (apply elem_of_cons; by left).
  apply IH. intros k Hk. apply Habs, elem_of_cons. by right.
Qed.

(** The arrays of a dict whose keys hold an array object each, after the
    loop. *)
Lemma foldl_inplace_deref xi ci arrs :
  deref arrs xi = Some ci →
  NoDup xi.*1 → NoDup xi.*2 → NoDup table.*1 →
  deref (foldl (inplace_step op table xi) arrs table.*1) xi
  = Some (adjusted op table <$> ci).
Proof.
  intros Hci Hk1 Hk2 Htab.
  apply mapM_Some_2. apply Forall2_fmap_r.
  apply mapM_Some_1 in Hci.
  apply Forall2_same_length_lookup. split; [by eapply Forall2_length |].
  intros i [k r] [k' v] Hi Hi'.
  pose proof (Forall2_lookup_lr _ _ _ _ _ _ Hci Hi Hi') as Hkv.
  simpl in Hkv. destruct (arrs !! r) as [v0 |] eqn:Hr; [| done].
  simpl in Hkv. injection Hkv as <- <-. cbn [fst snd].
  rewrite (foldl_inplace_lookup op table xi table.*1 k r _ Htab Hk1 Hk2
             (list_elem_of_lookup_2 _ _ _ Hi)).
  unfold adjusted. simpl.
  destruct (decide (k ∈ table.*1)) as [Hk | Hk].
  - destruct (dict_get table k); by rewrite Hr.
  - rewrite Hr.
    destruct (dict_get table k) as [x |] eqn:Hx; [| done].
    exfalso. apply Hk. apply dict_get_is_Some. by rewrite Hx.
Qed.

(** The arrays of a dict that holds none of the array objects under the
    configured keys, after the loop. *)
Lemma foldl_inplace_deref_other xi xd cd arrs :
  deref arrs xd = Some cd →
  (∀ k r, k ∈ table.*1 → (k, r) ∈ xi → r ∉ xd.*2) →
  deref (foldl (inplace_step op table xi) arrs table.*1) xd = Some cd.
Proof.
  intros Hcd Hsep.
  apply mapM_Some_2. apply mapM_Some_1 in Hcd.
  apply Forall2_same_length_lookup. split; [by eapply Forall2_length |].
  intros i [k r] kv Hi Hi'.
  pose proof (Forall2_lookup_lr _ _ _ _ _ _ Hcd Hi Hi') as Hkv.
  cbn [fst snd] in *.
  rewrite foldl_inplace_lookup_other; [done |].
  intros k0 _ Hk0 Hget. apply (Hsep k0 r Hk0).
  - by apply dict_get_Some_elem_of.
  - apply list_elem_of_fmap. exists (k, r). split; [done |].
    by eapply list_elem_of_lookup_2.
Qed.

(** The call on a dict of arrays that numpy accepts: it returns, and
    this is the store it leaves. *)
Lemma inplace_call_store input label weight st xi ci :
  dicts st !! input = Some xi → deref (arrays st) xi = Some ci →
  (∀ k r, k ∈ table.*1 → dict_get xi k = Some r → updatable (layout st) r) →
  inplace_call op table input label weight st
  = (Ok (length (dicts st), label, weight),
     mk_store (dicts st ++ [xi])
              (foldl (inplace_write op table xi (layout st)) (arrays st)
                     table.*1)
              (layout st)).
Proof.
  intros Hin Hci Hup. apply inplace_call_run; [done |].
  intros k r Hk Hget. split; [| by eapply Hup].
  by apply deref_valid with (ci := ci) (xi := xi) (k := k).
Qed.

(** The same when the arrays under the configured keys share their
    memory with no other array object: they alone are written. *)
Lemma inplace_call_store_sole input label weight st xi ci :
  dicts st !! input = Some xi → deref (arrays st) xi = Some ci →
  (∀ k r, k ∈ table.*1 → dict_get xi k = Some r → sole_owner (layout st) r) →
  inplace_call op table input label weight st
  = (Ok (length (dicts st), label, weight),
     mk_store (dicts st ++ [xi])
              (foldl (inplace_step op table xi) (arrays st) table.*1)
              (layout st)).
Proof.
  intros Hin Hci Hsole.
  rewrite (inplace_call_store input label weight st xi ci Hin Hci).
  - by rewrite (foldl_inplace_write_sole op table xi (layout st) table.*1
                  (arrays st) Hsole).
  - intros k r Hk Hget. apply sole_owner_updatable. by eapply Hsole.
Qed.
End InplaceEffect.

(** X1.  On an input dict of arrays, Translate and Scale return whenever
    numpy accepts every array under a configured key on the left of
    [+=], respectively [*=], with a Python float: a writeable array of a
    dtype that takes a float (a floating or complex dtype), whatever
    memory it shares with other arrays.  The first result is one new dict object with the entries of
    the input dict (the same array objects); the second and third are the
    label and weight arguments themselves.  No other dict is added or
    changed, no array object is created, no array changes its memory, and
    every array keeps its shape. *)
Theorem Translate_Scale_call_outline
    {F : Type} (fadd fmul : F → F → F) (t : Translate) (s : Scale)
    (input_dict label_dict : nat) (weight_dict : option nat) (st : store F)
    (xi : dict) (ci : list (string * ndarray F)) :
  dicts st !! input_dict = Some xi →
  deref (arrays st) xi = Some ci →
  ((∀ k r, k ∈ (Translate_offset t).*1 → dict_get xi k = Some r →
           updatable (layout st) r) →
   ∃ st',
     Translate_call fadd t input_dict label_dict weight_dict st
     = (Ok (length (dicts st), label_dict, weight_dict), st')
     ∧ dicts st' = dicts st ++ [xi]
     ∧ layout st' = layout st
     ∧ length (arrays st') = length (arrays st)
     ∧ ∀ a, shape <$> arrays st' !! a = shape <$> arrays st !! a)
  ∧ ((∀ k r, k ∈ (Scale_scale s).*1 → dict_get xi k = Some r →
             updatable (layout st) r) →
     ∃ st',
       Scale_call fmul s input_dict label_dict weight_dict st
       = (Ok (length (dicts st), label_dict, weight_dict), st')
       ∧ dicts st' = dicts st ++ [xi]
       ∧ layout st' = layout st
       ∧ length (arrays st') = length (arrays st)
       ∧ ∀ a, shape <$> arrays st' !! a = shape <$> arrays st !! a).
Proof.
  intros Hin Hci. split; intros Hup.
  - eexists. split.
    + by apply (inplace_call_store fadd (Translate_offset t) _ _ _ _ xi ci).
    + simpl. split; [done |]. split; [done |]. split.
      * apply foldl_inplace_write_length.
      * intros a. apply foldl_inplace_write_shape.
  - eexists. split.
    + by apply (inplace_call_store fmul (Scale_scale s) _ _ _ _ xi ci).
    + simpl. split; [done |]. split; [done |]. split.
      * apply foldl_inplace_write_length.
      * intros a. apply foldl_inplace_write_shape.
Qed.

Lemma Translate_Scale_call_outline_witness :
  let st := new_store [[("x", 0); ("y", 1)]; [("u", 1)]]
                      [mk_ndarray [1] [1%float]; mk_ndarray [2] [5%float; 6%float]] in
  ∃ st',
    Translate_call PrimFloat.add
      (Translate_init [("x", 2%float); ("z", 1%float)]) 0 1 None st
    = (Ok (2, 1, None), st')
    ∧ dicts st' = [[("x", 0); ("y", 1)]; [("u", 1)]; [("x", 0); ("y", 1)]]
    ∧ length (arrays st') = 2.
Proof.
  intros st.
  destruct (proj1 (Translate_Scale_call_outline PrimFloat.add PrimFloat.mul
              (Translate_init [("x", 2%float); ("z", 1%float)])
              (Scale_init []) 0 1 None st
              [("x", 0); ("y", 1)]
              [("x", mk_ndarray [1] [1%float]);
               ("y", mk_ndarray [2] [5%float; 6%float])]
              eq_refl eq_refl))
    as (st' & Hrun & Hd & _ & Hlen & _).
  - intros k r _ Hget. apply dict_get_Some_elem_of, list_elem_of_In in Hget.
    simpl in Hget. destruct Hget as [[= <- <-] | [[= <- <-] | []]]; exact I.
  - exists st'. split; [exact Hrun |]. split; [exact Hd | exact Hlen].
Defined.

(** X2.  Translate on an input dict whose keys hold an array object
    each, where the arrays under the configured keys are writeable
    arrays of a dtype that takes a float and share their memory with no
    other array object (they are no views, and no view of them is
    there): the
    returned dict holds, under every key of the offset table that the
    input has, the array with the offset added to each element, and
    under every other key the array as it was; keys of the table that
    the input has not are skipped.  The dict of the caller holds the same
    arrays as the returned one, the shifted ones included.  Any dict that
    holds none of the array objects under the configured keys, labels
    and weights among them, has the content it had. *)
Theorem Translate_call_adds_offsets
    {F : Type} (fadd : F → F → F) (self : Translate)
    (input_dict label_dict : nat) (weight_dict : option nat) (st : store F)
    (xi : dict) (ci : list (string * ndarray F)) :
  dicts st !! input_dict = Some xi →
  deref (arrays st) xi = Some ci →
  NoDup xi.*1 → NoDup xi.*2 → NoDup (Translate_offset self).*1 →
  (∀ k r, k ∈ (Translate_offset self).*1 → dict_get xi k = Some r →
          sole_owner (layout st) r) →
  ∃ st',
    Translate_call fadd self input_dict label_dict weight_dict st
    = (Ok (length (dicts st), label_dict, weight_dict), st')
    ∧ content st' (length (dicts st))
      = Some (adjusted fadd (Translate_offset self) <$> ci)
    ∧ content st' input_dict
      = Some (adjusted fadd (Translate_offset self) <$> ci)
    ∧ ∀ d xd cd,
        dicts st !! d = Some xd → deref (arrays st) xd = Some cd →
        (∀ k r, k ∈ (Translate_offset self).*1 → (k, r) ∈ xi → r ∉ xd.*2) →
        content st' d = Some cd.
Proof.
  intros Hin Hci Hk1 Hk2 Htab Hsole.
  eexists. split.
  { by apply (inplace_call_store_sole fadd (Translate_offset self) _ _ _ _ xi ci). }
  unfold content. cbn [dicts arrays].
  split; [| split].
  - rewrite lookup_app_r by lia. rewrite Nat.sub_diag. simpl.
    by apply foldl_inplace_deref.
  - rewrite (lookup_app_l_Some _ _ _ _ Hin). simpl.
    by apply foldl_inplace_deref.
  - intros d xd cd Hd Hcd Hsep.
    rewrite (lookup_app_l_Some _ _ _ _ Hd). simpl.
    by apply foldl_inplace_deref_other.
Qed.

Lemma Translate_call_adds_offsets_witness :
  let st := new_store [[("x", 0); ("y", 1)]; [("u", 2)]]
                      [mk_ndarray [1] [1%float];
                       mk_ndarray [2] [5%float; 6%float];
                       mk_ndarray [1] [7%float]] in
  ∃ st',
    Translate_call PrimFloat.add
      (Translate_init [("x", 2%float); ("z", 1%float)]) 0 1 None st
    = (Ok (2, 1, None), st')
    ∧ content st' 2 = Some [("x", mk_ndarray [1] [3%float]);
                            ("y", mk_ndarray [2] [5%float; 6%float])]
    ∧ content st' 0 = Some [("x", mk_ndarray [1] [3%float]);
                            ("y", mk_ndarray [2] [5%float; 6%float])]
    ∧ content st' 1 = Some [("u", mk_ndarray [1] [7%float])].
Proof.
  intros st.
  destruct (Translate_call_adds_offsets PrimFloat.add
              (Translate_init [("x", 2%float); ("z", 1%float)])
              0 1 None st
              [("x", 0); ("y", 1)]
              [("x", mk_ndarray [1] [1%float]);
               ("y", mk_ndarray [2] [5%float; 6%float])]
              eq_refl eq_refl)
    as (st' & Hrun & Hcopy & Hcaller & Hother).
  - by apply (bool_decide_unpack _).
  - by apply (bool_decide_unpack _).
  - by apply (bool_decide_unpack _).
  - intros k r _ Hget. apply dict_get_Some_elem_of, list_elem_of_In in Hget.
    simpl in Hget. destruct Hget as [[= <- <-] | [[= <- <-] | []]]; exact I.
  - exists st'. split; [exact Hrun |]. split; [exact Hcopy |].
    split; [exact Hcaller |].
    apply (Hother 1 [("u", 2)] [("u", mk_ndarray [1] [7%float])] eq_refl eq_refl).
    intros k r Hk Hkr Hr.
    apply list_elem_of_In in Hkr, Hr. simpl in Hkr, Hr.
    destruct Hr as [<- | []].
    destruct Hkr as [[= _ ?] | [[= _ ?] | []]]; discriminate.
Defined.

(** X3.  Scale on an input dict whose keys hold an array object each,
    where the arrays under the configured keys are writeable arrays of a
    dtype that takes a float and share their memory with no other array
    object:
    the returned dict holds, under every key of the factor table that
    the input has, the array with each element multiplied by the factor,
    and under every other key the array as it was.  The dict of the
    caller holds the same arrays as the returned one.  Any dict that
    holds none of the array objects under the configured keys has the
    content it had. *)
Theorem Scale_call_multiplies_factors
    {F : Type} (fmul : F → F → F) (self : Scale)
    (input_dict label_dict : nat) (weight_dict : option nat) (st : store F)
    (xi : dict) (ci : list (string * ndarray F)) :
  dicts st !! input_dict = Some xi →
  deref (arrays st) xi = Some ci →
  NoDup xi.*1 → NoDup xi.*2 → NoDup (Scale_scale self).*1 →
  (∀ k r, k ∈ (Scale_scale self).*1 → dict_get xi k = Some r →
          sole_owner (layout st) r) →
  ∃ st',
    Scale_call fmul self input_dict label_dict weight_dict st
    = (Ok (length (dicts st), label_dict, weight_dict), st')
    ∧ content st' (length (dicts st))
      = Some (adjusted fmul (Scale_scale self) <$> ci)
    ∧ content st' input_dict
      = Some (adjusted fmul (Scale_scale self) <$> ci)
    ∧ ∀ d xd cd,
        dicts st !! d = Some xd → deref (arrays st) xd = Some cd →
        (∀ k r, k ∈ (Scale_scale self).*1 → (k, r) ∈ xi → r ∉ xd.*2) →
        content st' d = Some cd.
Proof.
  intros Hin Hci Hk1 Hk2 Htab Hsole.
  eexists. split.
  { by apply (inplace_call_store_sole fmul (Scale_scale self) _ _ _ _ xi ci). }
  unfold content. cbn [dicts arrays].
  split; [| split].
  - rewrite lookup_app_r by lia. rewrite Nat.sub_diag. simpl.
    by apply foldl_inplace_deref.
  - rewrite (lookup_app_l_Some _ _ _ _ Hin). simpl.
    by apply foldl_inplace_deref.
  - intros d xd cd Hd Hcd Hsep.
    rewrite (lookup_app_l_Some _ _ _ _ Hd). simpl.
    by apply foldl_inplace_deref_other.
Qed.

Lemma Scale_call_multiplies_factors_witness :
  let st := new_store [[("x", 0); ("y", 1)]; []]
                      [mk_ndarray [1] [2%float];
                       mk_ndarray [2] [5%float; 6%float]] in
  ∃ st',
    Scale_call PrimFloat.mul (Scale_init [("y", 2%float)]) 0 1 None st
    = (Ok (2, 1, None), st')
    ∧ content st' 2 = Some [("x", mk_ndarray [1] [2%float]);
                            ("y", mk_ndarray [2] [10%float; 12%float])]
    ∧ content st' 0 = Some [("x", mk_ndarray [1] [2%float]);
                            ("y", mk_ndarray [2] [10%float; 12%float])].
Proof.
  intros st.
  destruct (Scale_call_multiplies_factors PrimFloat.mul
              (Scale_init [("y", 2%float)]) 0 1 None st
              [("x", 0); ("y", 1)]
              [("x", mk_ndarray [1] [2%float]);
               ("y", mk_ndarray [2] [5%float; 6%float])]
              eq_refl eq_refl)
    as (st' & Hrun & Hcopy & Hcaller & _).
  - by apply (bool_decide_unpack _).
  - by apply (bool_decide_unpack _).
  - by apply (bool_decide_unpack _).
  - intros k r _ Hget. apply dict_get_Some_elem_of, list_elem_of_In in Hget.
    simpl in Hget. destruct Hget as [[= <- <-] | [[= <- <-] | []]]; exact I.
  - exists st'. split; [exact Hrun |]. split; [exact Hcopy | exact Hcaller].
Defined.

(** X4.  When the input dict has none of the keys of the table (an empty
    table included), Translate and Scale write nothing: the call returns
    a new dict with the entries of the input dict, and every array of the
    store is as it was. *)
Theorem Translate_Scale_call_absent_keys
    {F : Type} (fadd fmul : F → F → F) (t : Translate) (s : Scale)
    (input_dict label_dict : nat) (weight_dict : option nat) (st : store F)
    (xi : dict) (ci : list (string * ndarray F)) :
  dicts st !! input_dict = Some xi →
  deref (arrays st) xi = Some ci →
  ((∀ k, k ∈ (Translate_offset t).*1 → k ∉ xi.*1) →
   Translate_call fadd t input_dict label_dict weight_dict st
   = (Ok (length (dicts st), label_dict, weight_dict),
      mk_store (dicts st ++ [xi]) (arrays st) (layout st)))
  ∧ ((∀ k, k ∈ (Scale_scale s).*1 → k ∉ xi.*1) →
     Scale_call fmul s input_dict label_dict weight_dict st
     = (Ok (length (dicts st), label_dict, weight_dict),
        mk_store (dicts st ++ [xi]) (arrays st) (layout st))).
Proof.
  intros Hin Hci.
  assert (∀ op (table : list (string * F)),
            (∀ k, k ∈ table.*1 → k ∉ xi.*1) →
            inplace_call op table input_dict label_dict weight_dict st
            = (Ok (length (dicts st), label_dict, weight_dict),
               mk_store (dicts st ++ [xi]) (arrays st) (layout st))) as Hgen.
  { intros op table Habs.
    assert (∀ k, k ∈ table.*1 → dict_get xi k = None) as Hnone.
    { intros k Hk. destruct (dict_get xi k) as [r |] eqn:Hget; [| done].
      exfalso. apply (Habs k Hk). apply dict_get_is_Some. by rewrite Hget. }
    rewrite (inplace_call_store op table _ _ _ _ _ _ Hin Hci).
    - by rewrite foldl_inplace_write_absent.
    - intros k r Hk Hget. by rewrite (Hnone k Hk) in Hget. }
  split; intros Habs.
  - by apply (Hgen fadd (Translate_offset t)).
  - by apply (Hgen fmul (Scale_scale s)).
Qed.

Lemma Translate_Scale_call_absent_keys_witness :
  let st := new_store [[("x", 0)]; []] [mk_ndarray [1] [1%float]] in
  Translate_call PrimFloat.add (Translate_init [("z", 2%float)]) 0 1 None st
  = (Ok (2, 1, None),
     new_store [[("x", 0)]; []; [("x", 0)]] [mk_ndarray [1] [1%float]]).
Proof.
  intros st.
  apply (proj1 (Translate_Scale_call_absent_keys PrimFloat.add PrimFloat.mul
                  (Translate_init [("z", 2%float)]) (Scale_init [])
                  0 1 None st [("x", 0)] [("x", mk_ndarray [1] [1%float])]
                  eq_refl eq_refl)).
  intros k Hk Hx. apply list_elem_of_In in Hk, Hx. simpl in Hk, Hx.
  destruct Hk as [<- | []]. destruct Hx as [? | []]. discriminate.
Defined.

(** X5.  Translate, then Scale on the dict Translate returned, for an
    input dict whose keys hold an array object each, where the arrays
    under the keys either table names are writeable arrays of a dtype
    that takes a float and share their memory with no other array
    object: both calls return, and the dict Scale returns holds every
    array first shifted by its offset, then multiplied by its factor.  The dict of the
    caller, which neither call was asked to change, holds the same
    arrays. *)
Theorem Translate_then_Scale
    {F : Type} (fadd fmul : F → F → F) (t : Translate) (s : Scale)
    (input_dict label_dict : nat) (weight_dict : option nat) (st : store F)
    (xi : dict) (ci : list (string * ndarray F)) :
  dicts st !! input_dict = Some xi →
  deref (arrays st) xi = Some ci →
  NoDup xi.*1 → NoDup xi.*2 →
  NoDup (Translate_offset t).*1 → NoDup (Scale_scale s).*1 →
  (∀ k r, k ∈ (Translate_offset t).*1 ++ (Scale_scale s).*1 →
          dict_get xi k = Some r → sole_owner (layout st) r) →
  ∃ d1 st1 d2 st2,
    Translate_call fadd t input_dict label_dict weight_dict st
    = (Ok (d1, label_dict, weight_dict), st1)
    ∧ Scale_call fmul s d1 label_dict weight_dict st1
      = (Ok (d2, label_dict, weight_dict), st2)
    ∧ content st2 d2
      = Some (adjusted fmul (Scale_scale s)
                <$> (adjusted fadd (Translate_offset t) <$> ci))
    ∧ content st2 input_dict = content st2 d2.
Proof.
  intros Hin Hci Hk1 Hk2 Ht Hs Hsole.
  set (arrs1 := foldl (inplace_step fadd (Translate_offset t) xi)
                      (arrays st) (Translate_offset t).*1).
  set (st1 := mk_store (dicts st ++ [xi]) arrs1 (layout st)).
  assert (dicts st1 !! length (dicts st) = Some xi) as Hin1.
  { simpl. rewrite lookup_app_r by lia. by rewrite Nat.sub_diag. }
  assert (deref (arrays st1) xi
          = Some (adjusted fadd (Translate_offset t) <$> ci)) as Hci1.
  { by apply foldl_inplace_deref. }
  exists (length (dicts st)), st1, (length (dicts st1)).
  eexists. split; [| split; [| split]].
  - apply (inplace_call_store_sole fadd (Translate_offset t) _ _ _ _ _ _ Hin Hci).
    intros k r Hk. apply Hsole, elem_of_app. by left.
  - apply (inplace_call_store_sole fmul (Scale_scale s) _ _ _ _ _ _ Hin1 Hci1).
    intros k r Hk. apply Hsole, elem_of_app. by right.
  - unfold content. cbn [dicts arrays].
    rewrite lookup_app_r by done. rewrite Nat.sub_diag. simpl.
    by apply foldl_inplace_deref.
  - unfold content. cbn [dicts arrays].
    assert ((dicts st1 ++ [xi]) !! length (dicts st1) = Some xi) as ->.
    { rewrite lookup_app_r by done. by rewrite Nat.sub_diag. }
    assert ((dicts st1 ++ [xi]) !! input_dict = Some xi) as ->; [| done].
    apply lookup_app_l_Some. simpl. by apply lookup_app_l_Some.
Qed.

Lemma Translate_then_Scale_witness :
  let st := new_store [[("x", 0)]; []] [mk_ndarray [2] [1%float; 2%float]] in
  ∃ d1 st1 d2 st2,
    Translate_call PrimFloat.add (Translate_init [("x", 1%float)]) 0 1 None st
    = (Ok (d1, 1, None), st1)
    ∧ Scale_call PrimFloat.mul (Scale_init [("x", 2%float)]) d1 1 None st1
      = (Ok (d2, 1, None), st2)
    ∧ content st2 d2 = Some [("x", mk_ndarray [2] [4%float; 6%float])].
Proof.
  intros st.
  destruct (Translate_then_Scale PrimFloat.add PrimFloat.mul
              (Translate_init [("x", 1%float)]) (Scale_init [("x", 2%float)])
              0 1 None st [("x", 0)]
              [("x", mk_ndarray [2] [1%float; 2%float])] eq_refl eq_refl)
    as (d1 & st1 & d2 & st2 & H1 & H2 & Hc & _).
  - apply NoDup_singleton.
  - apply NoDup_singleton.
  - apply NoDup_singleton.
  - apply NoDup_singleton.
  - intros k r _ Hget. apply dict_get_Some_elem_of, list_elem_of_In in Hget.
    simpl in Hget. destruct Hget as [[= <- <-] | []]; exact I.
  - exists d1, st1, d2, st2. split; [exact H1 |]. split; [exact H2 | exact Hc].
Defined.

(** X6.  Translate called twice with the same dict of the caller, as a
    pipeline does that hands out the same sample again, where every key
    of the dict holds an array object of its own and the arrays under the
    configured keys are writeable arrays of a dtype that takes a float
    and share their memory with no other array object: the offsets are added to
    the caller's arrays at each call, so after the second call the dict
    of the caller holds every configured array with its offset added
    twice. *)
Theorem Translate_call_twice_accumulates
    {F : Type} (fadd : F → F → F) (self : Translate)
    (input_dict label_dict : nat) (weight_dict : option nat) (st : store F)
    (xi : dict) (ci : list (string * ndarray F)) :
  dicts st !! input_dict = Some xi →
  deref (arrays st) xi = Some ci →
  NoDup xi.*1 → NoDup xi.*2 → NoDup (Translate_offset self).*1 →
  (∀ k r, k ∈ (Translate_offset self).*1 → dict_get xi k = Some r →
          sole_owner (layout st) r) →
  ∃ d1 st1 d2 st2,
    Translate_call fadd self input_dict label_dict weight_dict st
    = (Ok (d1, label_dict, weight_dict), st1)
    ∧ Translate_call fadd self input_dict label_dict weight_dict st1
      = (Ok (d2, label_dict, weight_dict), st2)
    ∧ content st input_dict = Some ci
    ∧ content st1 input_dict
      = Some (adjusted fadd (Translate_offset self) <$> ci)
    ∧ content st2 input_dict
      = Some (adjusted fadd (Translate_offset self)
                <$> (adjusted fadd (Translate_offset self) <$> ci)).
Proof.
  intros Hin Hci Hk1 Hk2 Ht Hsole.
  set (arrs1 := foldl (inplace_step fadd (Translate_offset self) xi)
                      (arrays st) (Translate_offset self).*1).
  set (st1 := mk_store (dicts st ++ [xi]) arrs1 (layout st)).
  assert (dicts st1 !! input_dict = Some xi) as Hin1.
  { simpl. by apply lookup_app_l_Some. }
  assert (deref (arrays st1) xi
          = Some (adjusted fadd (Translate_offset self) <$> ci)) as Hci1.
  { by apply foldl_inplace_deref. }
  exists (length (dicts st)), st1, (length (dicts st1)).
  eexists. split; [| split; [| split; [| split]]].
  - by apply (inplace_call_store_sole fadd (Translate_offset self)
                _ _ _ _ _ _ Hin Hci).
  - by apply (inplace_call_store_sole fadd (Translate_offset self)
                _ _ _ _ _ _ Hin1 Hci1).
  - unfold content. by rewrite Hin.
  - unfold content. by rewrite Hin1.
  - unfold content. cbn [dicts arrays].
    rewrite (lookup_app_l_Some _ _ _ _ Hin1). simpl.
    by apply foldl_inplace_deref.
Qed.

Lemma Translate_call_twice_accumulates_witness :
  let st := new_store [[("x", 0)]; []] [mk_ndarray [1] [1%float]] in
  ∃ d1 st1 d2 st2,
    Translate_call PrimFloat.add (Translate_init [("x", 2%float)]) 0 1 None st
    = (Ok (d1, 1, None), st1)
    ∧ Translate_call PrimFloat.add (Translate_init [("x", 2%float)]) 0 1 None st1
      = (Ok (d2, 1, None), st2)
    ∧ content st 0 = Some [("x", mk_ndarray [1] [1%float])]
    ∧ content st2 0 = Some [("x", mk_ndarray [1] [5%float])].
Proof.
  intros st.
  destruct (Translate_call_twice_accumulates PrimFloat.add
              (Translate_init [("x", 2%float)]) 0 1 None st [("x", 0)]
              [("x", mk_ndarray [1] [1%float])] eq_refl eq_refl)
    as (d1 & st1 & d2 & st2 & H1 & H2 & H0 & _ & Hc).
  - apply NoDup_singleton.
  - apply NoDup_singleton.
  - apply NoDup_singleton.
  - intros k r _ Hget. apply dict_get_Some_elem_of, list_elem_of_In in Hget.
    simpl in Hget. destruct Hget as [[= <- <-] | []]; exact I.
  - exists d1, st1, d2, st2.
    split; [exact H1 |]. split; [exact H2 |]. split; [exact H0 | exact Hc].
Defined.

(** X20.  Translate and Scale raise where numpy refuses to write: at the
    first key of the table, in its order, that the input dict has and
    whose array is read-only ([ValueError]) or, being writeable, of a
    dtype that does not take a float ([UFuncTypeError]; for an integer
    or boolean array the float64 result cannot be cast to it).  The arrays under the keys before it have
    been written by then and stay written, and the dict the call had
    built is left in the store. *)
Theorem Translate_Scale_call_refused
    {F : Type} (fadd fmul : F → F → F) (t : Translate) (s : Scale)
    (input_dict label_dict : nat) (weight_dict : option nat) (st : store F)
    (xi : dict) (ci : list (string * ndarray F))
    (pre post : list string) (k : string) (r : nat) (m : memory) :
  dicts st !! input_dict = Some xi →
  deref (arrays st) xi = Some ci →
  (∀ k' r', k' ∈ pre → dict_get xi k' = Some r' → updatable (layout st) r') →
  dict_get xi k = Some r →
  layout st !! r = Some m →
  writeable m && takes_float m = false →
  ((Translate_offset t).*1 = pre ++ k :: post →
   Translate_call fadd t input_dict label_dict weight_dict st
   = (Raise (if writeable m then UFuncTypeError else ValueError_read_only),
      mk_store (dicts st ++ [xi])
        (foldl (inplace_write fadd (Translate_offset t) xi (layout st))
               (arrays st) pre)
        (layout st)))
  ∧ ((Scale_scale s).*1 = pre ++ k :: post →
     Scale_call fmul s input_dict label_dict weight_dict st
     = (Raise (if writeable m then UFuncTypeError else ValueError_read_only),
        mk_store (dicts st ++ [xi])
          (foldl (inplace_write fmul (Scale_scale s) xi (layout st))
                 (arrays st) pre)
          (layout st))).
Proof.
  intros Hin Hci Hpre Hget Hm Hbad.
  assert (refusal (layout st) r
          = Some (if writeable m then UFuncTypeError
                  else ValueError_read_only)) as Href.
  { unfold refusal. rewrite Hm.
    destruct (writeable m); simpl in *; [| done]. by rewrite Hbad. }
  assert (∀ k' r', dict_get xi k' = Some r' → r' < length (arrays st)) as Hlt.
  { intros k' r'. by apply deref_valid with (ci := ci). }
  split; intros Htab.
  - apply (inplace_call_refused fadd (Translate_offset t) input_dict label_dict
             weight_dict st xi pre k post r); [done | done | | done | | done].
    + intros k' r' Hk' Hget'. split; [by eapply Hlt | by eapply Hpre].
    + by eapply Hlt.
  - apply (inplace_call_refused fmul (Scale_scale s) input_dict label_dict
             weight_dict st xi pre k post r); [done | done | | done | | done].
    + intros k' r' Hk' Hget'. split; [by eapply Hlt | by eapply Hpre].
    + by eapply Hlt.
Qed.

Lemma Translate_Scale_call_refused_witness :
  let st := mk_store [[("x", 0); ("n", 1)]; []]
                     [mk_ndarray [1] [1%float]; mk_ndarray [2] [1%float; 2%float]]
                     [mk_memory 0 [0] true true; mk_memory 1 [0; 1] true false] in
  Translate_call PrimFloat.add
    (Translate_init [("x", 2%float); ("n", 1%float)]) 0 1 None st
  = (Raise UFuncTypeError,
     mk_store [[("x", 0); ("n", 1)]; []; [("x", 0); ("n", 1)]]
              [mk_ndarray [1] [3%float]; mk_ndarray [2] [1%float; 2%float]]
              [mk_memory 0 [0] true true; mk_memory 1 [0; 1] true false]).
Proof.
  intros st.
  apply (proj1 (Translate_Scale_call_refused PrimFloat.add PrimFloat.mul
                  (Translate_init [("x", 2%float); ("n", 1%float)])
                  (Scale_init []) 0 1 None st
                  [("x", 0); ("n", 1)]
                  [("x", mk_ndarray [1] [1%float]);
                   ("n", mk_ndarray [2] [1%float; 2%float])]
                  ["x"] [] "n" 1 (mk_memory 1 [0; 1] true false)
                  eq_refl eq_refl
                  ltac:(intros k' r' Hk' Hget';
                        apply list_elem_of_In in Hk'; simpl in Hk';
                        destruct Hk' as [<- | []];
                        injection Hget' as <-; exact I)
                  eq_refl eq_refl eq_refl) eq_refl).
Defined.

(** ** The transforms that build new arrays never write the caller's *)

Section AppendsArrays.
Context {F : Type}.
Implicit Types (st : store F).

Lemma bind_inv {A B} (m : M F A) (k : A → M F B) st res st' :
  (m ≫= k) st = (res, st') →
  (∃ a st1, m st = (Ok a, st1) ∧ k a st1 = (res, st'))
  ∨ (∃ e, m st = (Raise e, st') ∧ res = Raise e).
Proof.
  unfold mbind, M_bind. destruct (m st) as [[a | e] st1].
  - intros H. left. eauto.
  - intros [= <- <-]. right. eauto.
Qed.

Lemma appends_arrays_same {A} (m : M F A) :
  (∀ st res st', m st = (res, st') → arrays st' = arrays st) →
  appends_arrays m.
Proof. intros Hsame st res st' Hrun. by rewrite (Hsame _ _ _ Hrun). Qed.

Lemma appends_arrays_ret {A} (a : A) : appends_arrays (F:=F) (mret a).
Proof. apply appends_arrays_same. by intros st res st' [= _ <-]. Qed.

Lemma appends_arrays_raise {A} e : appends_arrays (F:=F) (raise (A:=A) e).
Proof. apply appends_arrays_same. by intros st res st' [= _ <-]. Qed.

Lemma appends_arrays_lift {A} (r : result A) : appends_arrays (F:=F) (lift r).
Proof. apply appends_arrays_same. by intros st res st' [= _ <-]. Qed.

Lemma appends_arrays_bind {A B} (m : M F A) (k : A → M F B) :
  appends_arrays m → (∀ a, appends_arrays (k a)) → appends_arrays (m ≫= k).
Proof.
  intros Hm Hk st res st' Hrun.
  apply bind_inv in Hrun as [(a & st1 & Hm1 & Hk1) | (e & Hm1 & _)].
  - etrans; [by eapply Hm | by eapply Hk].
  - by eapply Hm.
Qed.

Lemma appends_arrays_when (b : bool) (m : M F ()) :
  appends_arrays m → appends_arrays (if b then m else mret ()).
Proof. intros Hm. destruct b; [done | apply appends_arrays_ret]. Qed.

Lemma appends_arrays_for_each {A} (xs : list A) (body : A → M F ()) :
  (∀ a, appends_arrays (body a)) → appends_arrays (for_each xs body).
Proof.
  intros Hbody. induction xs as [| a xs IH]; simpl.
  - apply appends_arrays_ret.
  - apply appends_arrays_bind; [apply Hbody | by intros _].
Qed.

Lemma appends_arrays_dict_load d : appends_arrays (dict_load (F:=F) d).
Proof.
  apply appends_arrays_same. intros st res st'. unfold dict_load.
  by destruct (dicts st !! d); intros [= _ <-].
Qed.

Lemma appends_arrays_dict_setitem d key r :
  appends_arrays (dict_setitem (F:=F) d key r).
Proof.
  apply appends_arrays_same. intros st res st'. unfold dict_setitem.
  by destruct (dicts st !! d); intros [= _ <-].
Qed.

Lemma appends_arrays_array_load r : appends_arrays (array_load (F:=F) r).
Proof.
  apply appends_arrays_same. intros st res st'. unfold array_load.
  by destruct (arrays st !! r); intros [= _ <-].
Qed.

Lemma appends_arrays_array_new mem (a : ndarray F) :
  appends_arrays (array_new mem a).
Proof.
  intros st res st'. unfold array_new. intros [= _ <-]. simpl. by eexists.
Qed.

Lemma appends_arrays_update_values mem (f : ndarray F → result (ndarray F)) d :
  appends_arrays (update_values mem f d).
Proof.
  unfold update_values, dict_items.
  apply appends_arrays_bind; [apply appends_arrays_dict_load |]. intros items.
  apply appends_arrays_for_each. intros [k r]. unfold update_body.
  apply appends_arrays_bind; [apply appends_arrays_array_load |]. intros v.
  apply appends_arrays_bind; [apply appends_arrays_lift |]. intros t.
  apply appends_arrays_bind; [apply appends_arrays_array_new |]. intros r'.
  apply appends_arrays_dict_setitem.
Qed.

Lemma appends_arrays_squeeze_values d :
  appends_arrays (squeeze_values (F:=F) d).
Proof.
  unfold squeeze_values, dict_items.
  apply appends_arrays_bind; [apply appends_arrays_dict_load |]. intros items.
  apply appends_arrays_for_each. intros [k r]. unfold squeeze_body.
  apply appends_arrays_bind; [apply appends_arrays_array_load |]. intros v.
  apply appends_arrays_bind.
  - destruct (ndim v =? 4)%nat; [| apply appends_arrays_ret].
    destruct (shape v) as [| B [| C [| H [| W [| ? ?]]]]];
      try apply appends_arrays_raise.
    apply appends_arrays_bind; [apply appends_arrays_lift |]. intros t.
    apply appends_arrays_bind; [apply appends_arrays_array_new |]. intros r'.
    apply appends_arrays_dict_setitem.
  - intros _.
    destruct (negb _); [apply appends_arrays_raise | apply appends_arrays_ret].
Qed.

Lemma dict_copy_inv d st (res : result nat) st' :
  dict_copy d st = (res, st') →
  (∃ x, dicts st !! d = Some x ∧ res = Ok (length (dicts st))
        ∧ st' = mk_store (dicts st ++ [x]) (arrays st) (layout st))
  ∨ (dicts st !! d = None ∧ res = Raise InvalidReference ∧ st' = st).
Proof.
  unfold dict_copy, dict_load, dict_new, mbind, M_bind.
  destruct (dicts st !! d) as [x |].
  - intros [= <- <-]. left. eauto.
  - intros [= <- <-]. by right.
Qed.

(** Copy both dicts, run a loop on each copy: whatever happens, the
    objects that were there before are as they were. *)
Lemma on_selected_leaves_caller_objects apply_keys (loop : nat → M F ())
    input label weight :
  (∀ d K, keeps_keys d K (loop d)) →
  (∀ d, appends_arrays (loop d)) →
  leaves_caller_objects (on_selected apply_keys loop input label weight).
Proof.
  intros Hkeys Happ st res st' Hrun.
  assert ((∀ d, d < length (dicts st) → dicts st' !! d = dicts st !! d)
          ∧ arrays st `prefix_of` arrays st') as [Hd Ha].
  2:{ split.
      - intros d [x Hx]. apply Hd. by eapply lookup_lt_Some.
      - intros a [v Hv]. destruct Ha as [k ->].
        by rewrite (lookup_app_l_Some _ _ _ _ Hv). }
  unfold on_selected in Hrun.
  apply bind_inv in Hrun as [(n & st1 & Hcopy & Hrun) | (e & Hcopy & _)].
  2:{ apply dict_copy_inv in Hcopy as [(x & _ & [=] & _) | (_ & _ & ->)].
      split; [done | reflexivity]. }
  apply dict_copy_inv in Hcopy as [(xi & Hxi & [= ->] & ->) | (_ & [=] & _)].
  apply bind_inv in Hrun as [(n2 & st2 & Hcopy & Hrun) | (e & Hcopy & _)].
  2:{ apply dict_copy_inv in Hcopy as [(x & _ & [=] & _) | (_ & _ & ->)].
      simpl. split; [| reflexivity]. intros d Hd. by apply lookup_app_l. }
  apply dict_copy_inv in Hcopy as [(xl & Hxl & [= ->] & ->) | (_ & [=] & _)].
  cbn [dicts arrays] in *.
  set (n := length (dicts st)) in *.
  assert (length (dicts st ++ [xi]) = S n) as Hlen1.
  { unfold n. rewrite length_app. simpl. lia. }
  rewrite Hlen1 in Hrun.
  set (st2 := mk_store ((dicts st ++ [xi]) ++ [xl]) (arrays st) (layout st)) in *.
  assert (dicts st2 !! n = Some xi) as Hx2.
  { simpl. rewrite lookup_app_l by (rewrite Hlen1; lia).
    rewrite lookup_app_r by (unfold n; lia). unfold n.
    by rewrite Nat.sub_diag. }
  assert (∀ d, d < n → dicts st2 !! d = dicts st !! d) as Hold2.
  { intros d Hd. simpl. rewrite <- app_assoc. by apply lookup_app_l. }
  assert (length (dicts st2) = S (S n)) as Hlen2.
  { simpl. rewrite length_app, Hlen1. simpl. lia. }
  assert (∀ res3 st3,
            (if bool_decide ("input" ∈ apply_keys) then loop n else mret ()) st2
            = (res3, st3) →
            (∃ x', dicts st3 = <[n := x']> (dicts st2))
            ∧ arrays st `prefix_of` arrays st3) as Hloop1.
  { intros res3 st3 H3. split.
    - destruct (keeps_keys_when n xi.*1 _ _ (Hkeys n _) _ _ _ _ Hx2 eq_refl H3)
        as (x' & Hd3 & _). eauto.
    - apply (appends_arrays_when _ _ (Happ n) _ _ _ H3). }
  apply bind_inv in Hrun as [([] & st3 & H3 & Hrun) | (e & H3 & _)].
  2:{ destruct (Hloop1 _ _ H3) as [[x' Hd3] Ha3]. split; [| done].
      intros d Hd. rewrite Hd3, list_lookup_insert_ne by lia. by apply Hold2. }
  destruct (Hloop1 _ _ H3) as [[x' Hd3] Ha3].
  assert (dicts st3 !! S n = Some xl) as Hx3.
  { rewrite Hd3, list_lookup_insert_ne by lia. simpl.
    rewrite lookup_app_r by (rewrite Hlen1; lia).
    rewrite Hlen1. by rewrite Nat.sub_diag. }
  assert (∀ res4 st4,
            (if bool_decide ("label" ∈ apply_keys) then loop (S n) else mret ()) st3
            = (res4, st4) →
            (∃ x'', dicts st4 = <[S n := x'']> (dicts st3))
            ∧ arrays st3 `prefix_of` arrays st4) as Hloop2.
  { intros res4 st4 H4. split.
    - destruct (keeps_keys_when (S n) xl.*1 _ _ (Hkeys (S n) _) _ _ _ _
                  Hx3 eq_refl H4) as (x'' & Hd4 & _). eauto.
    - apply (appends_arrays_when _ _ (Happ (S n)) _ _ _ H4). }
  assert (∀ st4, (∃ x'', dicts st4 = <[S n := x'']> (dicts st3)) →
                 arrays st3 `prefix_of` arrays st4 →
                 (∀ d, d < n → dicts st4 !! d = dicts st !! d)
                 ∧ arrays st `prefix_of` arrays st4) as Hfin.
  { intros st4 [x'' Hd4] Ha4. split; [| by etrans].
    intros d Hd. rewrite Hd4, Hd3, !list_lookup_insert_ne by lia.
    by apply Hold2. }
  apply bind_inv in Hrun as [([] & st4 & H4 & Hrun) | (e & H4 & _)].
  - injection Hrun as _ <-. destruct (Hloop2 _ _ H4). by apply Hfin.
  - destruct (Hloop2 _ _ H4). by apply Hfin.
Qed.
End AppendsArrays.

(** X7.  Normalize, Log1p, CropData and SqueezeData never write an
    object of the caller: however the call ends, with a result or with an
    exception raised at any array, every dict object and every array
    object that existed before the call has the entries and the elements
    it had.  (Translate and Scale do not have this property.) *)
Theorem copying_transforms_leave_caller_objects
    {F : Type} (fsub fdiv : F → F → F) (flog1p : F → F)
    (n : Normalize) (l : Log1p) (c : CropData) (s : SqueezeData)
    (input_item label_item : nat) (weight_item : option nat) :
  leaves_caller_objects
    (Normalize_call fsub fdiv n input_item label_item weight_item)
  ∧ leaves_caller_objects
      (Log1p_call fdiv flog1p l input_item label_item weight_item)
  ∧ leaves_caller_objects
      (CropData_call (F:=F) c input_item label_item weight_item)
  ∧ leaves_caller_objects
      (SqueezeData_call (F:=F) s input_item label_item weight_item).
Proof.
  split; [| split; [| split]].
  - apply (on_selected_leaves_caller_objects (Normalize_apply_keys n)
             (update_values computed (normalize fsub fdiv n))).
    + intros d K. apply keeps_keys_update_values.
    + intros d. apply appends_arrays_update_values.
  - apply (on_selected_leaves_caller_objects (Log1p_apply_keys l)
             (update_values computed (log1p fdiv flog1p l))).
    + intros d K. apply keeps_keys_update_values.
    + intros d. apply appends_arrays_update_values.
  - apply (on_selected_leaves_caller_objects (CropData_apply_keys c)
             (update_values (view (crop c)) (crop c))).
    + intros d K. apply keeps_keys_update_values.
    + intros d. apply appends_arrays_update_values.
  - apply (on_selected_leaves_caller_objects (SqueezeData_apply_keys s)
             squeeze_values).
    + intros d K. apply keeps_keys_squeeze_values.
    + intros d. apply appends_arrays_squeeze_values.
Qed.

Lemma copying_transforms_leave_caller_objects_witness :
  let st := new_store [[("x", 0); ("y", 1)]; []]
                     [mk_ndarray [1; 2; 2] (replicate 4 1%float);
                      mk_ndarray [2; 2] (replicate 4 2%float)] in
  let r := CropData_call
             {| CropData_xmin := [0; 0]%Z; CropData_xmax := [1; 1]%Z;
                CropData_apply_keys := ["input"] |} 0 1 None st in
  r.1 = Raise (IndexError_too_many_indices 2)
  ∧ dicts r.2 !! 0 = Some [("x", 0); ("y", 1)]
  ∧ arrays r.2 !! 0 = Some (mk_ndarray [1; 2; 2] (replicate 4 1%float))
  ∧ arrays r.2 !! 1 = Some (mk_ndarray [2; 2] (replicate 4 2%float)).
Proof.
  intros st r.
  destruct (proj1 (proj2 (proj2
              (copying_transforms_leave_caller_objects
                 PrimFloat.sub PrimFloat.div (λ x, x)
                 {| Normalize_mean := mk_ndarray [] [0%float];
                    Normalize_std := mk_ndarray [] [1%float];
                    Normalize_apply_keys := ["input"] |}
                 {| Log1p_scale := 1%float; Log1p_apply_keys := ["input"] |}
                 {| CropData_xmin := [0; 0]%Z; CropData_xmax := [1; 1]%Z;
                    CropData_apply_keys := ["input"] |}
                 {| SqueezeData_apply_keys := ["input"] |}
                 0 1 None)))
              st r.1 r.2 (surjective_pairing r)) as [Hd Ha].
  split; [reflexivity |]. split; [| split].
  - apply (Hd 0). by eexists.
  - apply (Ha 0). by eexists.
  - apply (Ha 1). by eexists.
Defined.

(** ** Log1p *)

(** X8.  Log1p never raises on dicts of arrays, of any shape.  It
    returns two dict objects that did not exist before and the weights it
    was given.  A dict selected by [apply_keys] holds, under each name,
    an array of the same shape as the argument's, with the elements
    [log1p(x / scale)]; a dict that is not selected holds what the
    argument held. *)
Theorem Log1p_call_maps_elements
    {F : Type} (fdiv : F → F → F) (flog1p : F → F) (self : Log1p)
    (input_item label_item : nat) (weight_item : option nat) (st : store F)
    (ci cl : list (string * ndarray F)) :
  content st input_item = Some ci →
  content st label_item = Some cl →
  NoDup ci.*1 → NoDup cl.*1 →
  ∃ input_item_copy label_item_copy st',
    Log1p_call fdiv flog1p self input_item label_item weight_item st
    = (Ok (input_item_copy, label_item_copy, weight_item), st')
    ∧ dicts st !! input_item_copy = None
    ∧ dicts st !! label_item_copy = None
    ∧ content st' input_item_copy
      = Some (if bool_decide ("input" ∈ Log1p_apply_keys self)
              then prod_map id
                     (map_data (λ x, flog1p (fdiv x (Log1p_scale self)))) <$> ci
              else ci)
    ∧ content st' label_item_copy
      = Some (if bool_decide ("label" ∈ Log1p_apply_keys self)
              then prod_map id
                     (map_data (λ x, flog1p (fdiv x (Log1p_scale self)))) <$> cl
              else cl).
Proof.
  intros Hci Hcl Hndi Hndl.
  assert (∀ name (c : list (string * ndarray F)),
    selected_result (Log1p_apply_keys self) name (log1p fdiv flog1p self) c
      (if bool_decide (name ∈ Log1p_apply_keys self)
       then prod_map id
              (map_data (λ x, flog1p (fdiv x (Log1p_scale self)))) <$> c
       else c)) as Hsel.
  { intros name c. unfold selected_result. case_bool_decide; [| done].
    apply values_mapped_fmap. by apply Forall_true. }
  destruct (on_selected_update_ok (Log1p_apply_keys self) computed
              (log1p fdiv flog1p self)
              input_item label_item weight_item st ci cl _ _
              Hci Hcl Hndi Hndl (Hsel _ _) (Hsel _ _))
    as (st' & Hrun & Hci' & Hcl' & _).
  exists (length (dicts st)), (S (length (dicts st))), st'.
  split; [exact Hrun |].
  split; [apply lookup_ge_None; lia |].
  split; [apply lookup_ge_None; lia |]. done.
Qed.

Lemma Log1p_call_maps_elements_witness :
  ∃ input_item_copy label_item_copy st',
    Log1p_call Z.div (λ x, Z.log2 (1 + x))
      {| Log1p_scale := 2%Z; Log1p_apply_keys := ["label"] |} 0 1 None
      (new_store [[("x", 0)]; [("u", 1)]]
                [mk_ndarray [1] [5%Z]; mk_ndarray [2; 1] [6%Z; 14%Z]])
    = (Ok (input_item_copy, label_item_copy, None), st')
    ∧ content st' input_item_copy = Some [("x", mk_ndarray [1] [5%Z])]
    ∧ content st' label_item_copy
      = Some [("u", mk_ndarray [2; 1] [2%Z; 3%Z])].
Proof.
  destruct (Log1p_call_maps_elements Z.div (λ x, Z.log2 (1 + x))
              {| Log1p_scale := 2%Z; Log1p_apply_keys := ["label"] |} 0 1 None
              (new_store [[("x", 0)]; [("u", 1)]]
                        [mk_ndarray [1] [5%Z]; mk_ndarray [2; 1] [6%Z; 14%Z]])
              [("x", mk_ndarray [1] [5%Z])]
              [("u", mk_ndarray [2; 1] [6%Z; 14%Z])]
              eq_refl eq_refl (NoDup_singleton _) (NoDup_singleton _))
    as (i' & l' & st' & Hrun & _ & _ & Hi & Hl).
  exists i', l', st'. split; [exact Hrun |]. split; [exact Hi | exact Hl].
Defined.

(** ** The first array a transform cannot handle *)

Section FirstFailure.
Context {F : Type}.
Implicit Types (st : store F) (c : list (string * ndarray F))
  (f : ndarray F → result (ndarray F))
  (mem : nat → ndarray F → store F → memory).

Lemma first_failure_None f c :
  first_failure f c = None → ∃ c', values_mapped f c c'.
Proof.
  induction c as [| [k v] c IH]; simpl.
  - intros _. exists []. constructor.
  - destruct (f v) as [t | e] eqn:Hf; [| done].
    intros (c' & Hc')%IH. exists ((k, t) :: c'). by constructor.
Qed.

Lemma first_failure_Some f c e :
  first_failure f c = Some e →
  ∃ c1 k v c2, c = c1 ++ (k, v) :: c2
               ∧ Forall (λ kv, ∃ t, f kv.2 = Ok t) c1 ∧ f v = Raise e.
Proof.
  induction c as [| [k v] c IH]; simpl; [done |].
  destruct (f v) as [t | e'] eqn:Hf.
  - intros (c1 & k' & v' & c2 & -> & Hok & Hbad)%IH.
    exists ((k, v) :: c1), k', v', c2. split; [done |]. split; [| done].
    constructor; [by exists t | done].
  - intros [= ->]. exists [], k, v, c. by repeat split.
Qed.

Lemma first_failure_split f c1 k v c2 e :
  Forall (λ kv, ∃ t, f kv.2 = Ok t) c1 → f v = Raise e →
  first_failure f (c1 ++ (k, v) :: c2) = Some e.
Proof.
  intros Hok Hbad. induction Hok as [| kv c1 [t Ht] _ IH]; simpl.
  - by rewrite Hbad.
  - by rewrite Ht.
Qed.

Lemma first_failure_app f c c' :
  first_failure f (c ++ c')
  = match first_failure f c with
    | Some e => Some e
    | None => first_failure f c'
    end.
Proof.
  induction c as [| kv c IH]; simpl; [done |]. by destruct (f kv.2).
Qed.

Lemma for_each_update_raises mem f d (rest : dict) : ∀ st c1 k v c2 e,
  is_Some (dicts st !! d) →
  deref (arrays st) rest = Some (c1 ++ (k, v) :: c2) →
  Forall (λ kv, ∃ t, f kv.2 = Ok t) c1 → f v = Raise e →
  ∃ st', for_each rest (update_body mem f d) st = (Raise e, st').
Proof.
  unfold deref.
  induction rest as [| [k0 r] rest IH]; intros st c1 k v c2 e Hd Hc Hok Hbad.
  - apply mapM_Some_1 in Hc. apply Forall2_nil_inv_l in Hc. by destruct c1.
  - apply mapM_Some_1 in Hc.
    apply Forall2_cons_inv_l in Hc as ([k' v'] & c' & Hkv & Hc & Heq).
    simpl in Hkv.
    destruct (arrays st !! r) as [v0 |] eqn:Hr; [| done].
    simpl in Hkv, Heq. injection Hkv as -> ->. cbn [for_each].
    destruct c1 as [| [k1 v1] c1]; simpl in Heq; simplify_eq.
    + exists st.
      match goal with
      | |- context [update_body mem f d (?k0, r)] =>
          assert (update_body mem f d (k0, r) st = (Raise e, st)) as Hbody
      end.
      { unfold update_body.
        rewrite (bind_ok _ _ _ _ _ (array_load_ok _ _ _ Hr)).
        unfold mbind at 1, M_bind at 1. unfold lift at 1. by rewrite Hbad. }
      by rewrite (bind_raise _ _ _ _ _ Hbody).
    + apply Forall_cons in Hok as [[t Ht] Hok]. simpl in Ht.
      destruct Hd as [x Hx].
      match goal with
      | |- context [update_body mem f d (?k0, r)] =>
          set (st2 := mk_store
                        (<[d := dict_set x k0 (length (arrays st))]> (dicts st))
                        (arrays st ++ [t]) (layout st ++ [mem r t st]));
          assert (update_body mem f d (k0, r) st = (Ok (), st2)) as Hbody
      end.
      { unfold update_body.
        rewrite (bind_ok _ _ _ _ _ (array_load_ok _ _ _ Hr)).
        unfold lift at 1. unfold mbind at 1, M_bind at 1. rewrite Ht.
        unfold array_new at 1. unfold mbind at 1, M_bind at 1.
        by erewrite dict_setitem_ok by (simpl; exact Hx). }
      rewrite (bind_ok _ _ _ _ _ Hbody).
      apply (IH st2 c1 k v c2 e); [| | done | done].
      * simpl. rewrite list_lookup_insert_eq by (by eapply lookup_lt_Some).
        by eexists.
      * simpl. apply mapM_Some_2 in Hc. by apply deref_app.
Qed.

(** The outcome of one loop. *)
Lemma update_values_outcome mem f d st c :
  content st d = Some c → NoDup c.*1 →
  match first_failure f c with
  | Some e => ∃ st', update_values mem f d st = (Raise e, st')
  | None =>
      ∃ c' st', values_mapped f c c'
                ∧ update_values mem f d st = (Ok (), st')
                ∧ content st' d = Some c'
                ∧ (∀ d', d' ≠ d → dicts st' !! d' = dicts st !! d')
                ∧ arrays st `prefix_of` arrays st'
  end.
Proof.
  intros Hc Hnd. destruct (first_failure f c) as [e |] eqn:Hff.
  - apply first_failure_Some in Hff as (c1 & k & v & c2 & -> & Hok & Hbad).
    unfold content in Hc.
    destruct (dicts st !! d) as [x |] eqn:Hx; [| done]. simpl in Hc.
    unfold update_values, dict_items.
    rewrite (bind_ok _ _ _ _ _ (dict_load_ok _ _ _ Hx)).
    apply (for_each_update_raises mem f d x st c1 k v c2 e); [| done..].
    by rewrite Hx.
  - apply first_failure_None in Hff as [c' Hc'].
    destruct (update_values_post mem f d st c c' Hc Hnd Hc')
      as (st' & Hrun & Hcont & Hother & _ & Hpre).
    by exists c', st'.
Qed.

(** The outcome of a call that copies both dicts and replaces the arrays
    of the selected ones: it raises what the first visited array makes
    [f] raise, and returns when there is none. *)
Lemma on_selected_update_raises apply_keys mem f input label weight st ci cl e :
  content st input = Some ci → content st label = Some cl →
  NoDup ci.*1 → NoDup cl.*1 →
  first_failure f (visited apply_keys ci cl) = Some e →
  ∃ st', on_selected apply_keys (update_values mem f) input label weight st
         = (Raise e, st').
Proof.
  intros Hci Hcl Hndi Hndl Hff.
  destruct (on_selected_copies apply_keys (update_values mem f)
              input label weight st ci cl Hci Hcl)
    as (st2 & Hrun & Hci2 & Hcl2 & Harr & Hold).
  rewrite Hrun. clear Hrun.
  unfold visited in Hff. rewrite first_failure_app in Hff.
  destruct (bool_decide ("input" ∈ apply_keys)).
  - pose proof (update_values_outcome mem f _ _ _ Hci2 Hndi) as Hi.
    destruct (first_failure f ci) as [e' |].
    + injection Hff as ->. destruct Hi as [st' Hi]. exists st'.
      by rewrite (bind_raise _ _ _ _ _ Hi).
    + destruct Hi as (ci' & st3 & _ & Hi & _ & Hother & Hpre).
      rewrite (bind_ok _ _ _ _ _ Hi). cbv beta.
      destruct (bool_decide ("label" ∈ apply_keys)); [| done].
      assert (content st3 (S (length (dicts st))) = Some cl) as Hcl3.
      { apply (content_frame st2); [apply Hother; lia | done | done]. }
      pose proof (update_values_outcome mem f _ _ _ Hcl3 Hndl) as Hl.
      rewrite Hff in Hl. destruct Hl as [st' Hl]. exists st'.
      by rewrite (bind_raise _ _ _ _ _ Hl).
  - simpl in Hff.
    destruct (bool_decide ("label" ∈ apply_keys)); [| done].
    pose proof (update_values_outcome mem f _ _ _ Hcl2 Hndl) as Hl.
    rewrite Hff in Hl. destruct Hl as [st' Hl]. exists st'.
    unfold mbind at 1, M_bind at 1. unfold mret at 1, M_ret at 1.
    by rewrite (bind_raise _ _ _ _ _ Hl).
Qed.
End FirstFailure.

(** ** Arrays that CropData and Normalize cannot handle *)

(** X9.  CropData does not check the number of axes itself.  The arrays
    are cut in the order of the loops (inputs, then labels), and the
    first selected array with fewer than three axes makes the call raise
    numpy's [IndexError] for too many indices, with that array's number
    of axes; arrays with three axes or more before it are accepted. *)
Theorem CropData_call_too_few_axes
    {F : Type} (self : CropData) (x0 y0 x1 y1 : Z)
    (input_item label_item : nat) (weight_item : option nat) (st : store F)
    (ci cl c1 : list (string * ndarray F)) (k : string) (v : ndarray F)
    (c2 : list (string * ndarray F)) :
  CropData_xmin self !! 0 = Some x0 → CropData_xmin self !! 1 = Some y0 →
  CropData_xmax self !! 0 = Some x1 → CropData_xmax self !! 1 = Some y1 →
  content st input_item = Some ci →
  content st label_item = Some cl →
  NoDup ci.*1 → NoDup cl.*1 →
  visited (CropData_apply_keys self) ci cl = c1 ++ (k, v) :: c2 →
  Forall (λ kv, (3 ≤ ndim kv.2)%nat) c1 →
  (ndim v < 3)%nat →
  ∃ st',
    CropData_call self input_item label_item weight_item st
    = (Raise (IndexError_too_many_indices (ndim v)), st').
Proof.
  intros Hx0 Hy0 Hx1 Hy1 Hci Hcl Hndi Hndl Hvis H3 Hlt.
  apply (on_selected_update_raises (CropData_apply_keys self)
           (view (crop self)) (crop self)
           input_item label_item weight_item st ci cl); [done.. |].
  rewrite Hvis. apply first_failure_split.
  - eapply Forall_impl; [exact H3 |]. intros [k' v'] Hv'. simpl in *.
    eexists. by apply (crop_3d self x0 y0 x1 y1).
  - unfold crop, tuple_get. rewrite Hx0, Hy0, Hx1, Hy1. simpl.
    unfold getitem. simpl length.
    by apply Nat.ltb_lt in Hlt as ->.
Qed.

Lemma CropData_call_too_few_axes_witness :
  ∃ st',
    CropData_call
      {| CropData_xmin := [0; 0]%Z; CropData_xmax := [1; 1]%Z;
         CropData_apply_keys := ["input"; "label"] |} 0 1 None
      (new_store [[("x", 0)]; [("u", 1)]]
                [mk_ndarray [1; 2; 2] (replicate 4 1%float);
                 mk_ndarray [2; 2] (replicate 4 2%float)])
    = (Raise (IndexError_too_many_indices 2), st').
Proof.
  apply (CropData_call_too_few_axes
           {| CropData_xmin := [0; 0]%Z; CropData_xmax := [1; 1]%Z;
              CropData_apply_keys := ["input"; "label"] |} 0 0 1 1 0 1 None
           (new_store [[("x", 0)]; [("u", 1)]]
                     [mk_ndarray [1; 2; 2] (replicate 4 1%float);
                      mk_ndarray [2; 2] (replicate 4 2%float)])
           [("x", mk_ndarray [1; 2; 2] (replicate 4 1%float))]
           [("u", mk_ndarray [2; 2] (replicate 4 2%float))]
           [("x", mk_ndarray [1; 2; 2] (replicate 4 1%float))]
           "u" (mk_ndarray [2; 2] (replicate 4 2%float)) []
           eq_refl eq_refl eq_refl eq_refl eq_refl eq_refl
           (NoDup_singleton _) (NoDup_singleton _) eq_refl).
  - repeat constructor.
  - unfold ndim. simpl. lia.
Defined.



(** X11.  The constructor of CropData does not look at [xmin] and
    [xmax], and the call reads [xmin[0]], [xmax[0]], [xmin[1]] and
    [xmax[1]] only when it cuts an array.  With a corner of fewer than
    two entries the call raises [IndexError] at the first selected
    array, and returns copies as usual when the selected dicts are
    empty. *)
Theorem CropData_call_short_corner
    {F : Type} (self : CropData)
    (input_item label_item : nat) (weight_item : option nat) (st : store F)
    (ci cl : list (string * ndarray F)) :
  (length (CropData_xmin self) < 2 ∨ length (CropData_xmax self) < 2)%nat →
  content st input_item = Some ci →
  content st label_item = Some cl →
  NoDup ci.*1 → NoDup cl.*1 →
  (visited (CropData_apply_keys self) ci cl ≠ [] →
   ∃ st', CropData_call self input_item label_item weight_item st
          = (Raise IndexError_tuple, st'))
  ∧ (visited (CropData_apply_keys self) ci cl = [] →
     ∃ input_item_copy label_item_copy st',
       CropData_call self input_item label_item weight_item st
       = (Ok (input_item_copy, label_item_copy, weight_item), st')
       ∧ content st' input_item_copy = Some ci
       ∧ content st' label_item_copy = Some cl).
Proof.
  intros Hshort Hci Hcl Hndi Hndl.
  assert (∀ v : ndarray F, crop self v = Raise IndexError_tuple) as Hcrop.
  { intros v. unfold crop, tuple_get.
    destruct (CropData_xmin self) as [| a [| b ?]],
             (CropData_xmax self) as [| a' [| b' ?]];
      simpl in *; try done; lia. }
  split.
  - intros Hne.
    apply (on_selected_update_raises (CropData_apply_keys self)
           (view (crop self)) (crop self)
             input_item label_item weight_item st ci cl); [done.. |].
    destruct (visited (CropData_apply_keys self) ci cl) as [| [k v] c];
      [done |].
    simpl. by rewrite Hcrop.
  - intros Hnil. unfold visited in Hnil.
    apply app_eq_nil in Hnil as [Hi Hl].
    assert (∀ name (c : list (string * ndarray F)),
      (if bool_decide (name ∈ CropData_apply_keys self) then c else []) = [] →
      selected_result (CropData_apply_keys self) name (crop self) c c)
      as Hsel.
    { intros name c. unfold selected_result.
      destruct (bool_decide (name ∈ CropData_apply_keys self)); [| done].
      intros ->. constructor. }
    destruct (on_selected_update_ok (CropData_apply_keys self)
                (view (crop self)) (crop self)
                input_item label_item weight_item st ci cl ci cl
                Hci Hcl Hndi Hndl (Hsel _ _ Hi) (Hsel _ _ Hl))
      as (st' & Hrun & Hci' & Hcl' & _).
    by exists (length (dicts st)), (S (length (dicts st))), st'.
Qed.

Lemma CropData_call_short_corner_witness :
  (∃ st',
     CropData_call
       {| CropData_xmin := [0]%Z; CropData_xmax := [2; 3]%Z;
          CropData_apply_keys := ["input"] |} 0 1 None
       (new_store [[("x", 0)]; []] [mk_ndarray [1; 2; 2] (replicate 4 1%float)])
     = (Raise IndexError_tuple, st'))
  ∧ (∃ input_item_copy label_item_copy st',
       CropData_call
         {| CropData_xmin := [0]%Z; CropData_xmax := [2; 3]%Z;
            CropData_apply_keys := ["label"] |} 0 1 None
         (new_store [[("x", 0)]; []]
                   [mk_ndarray [1; 2; 2] (replicate 4 1%float)])
       = (Ok (input_item_copy, label_item_copy, None), st')).
Proof.
  split.
  - apply (proj1 (CropData_call_short_corner
             {| CropData_xmin := [0]%Z; CropData_xmax := [2; 3]%Z;
                CropData_apply_keys := ["input"] |} 0 1 None
             (new_store [[("x", 0)]; []]
                       [mk_ndarray [1; 2; 2] (replicate 4 1%float)])
             [("x", mk_ndarray [1; 2; 2] (replicate 4 1%float))] []
             ltac:(left; simpl; lia) eq_refl eq_refl
             (NoDup_singleton _) NoDup_nil_2)).
    discriminate.
  - destruct (proj2 (CropData_call_short_corner
             {| CropData_xmin := [0]%Z; CropData_xmax := [2; 3]%Z;
                CropData_apply_keys := ["label"] |} 0 1 None
             (new_store [[("x", 0)]; []]
                       [mk_ndarray [1; 2; 2] (replicate 4 1%float)])
             [("x", mk_ndarray [1; 2; 2] (replicate 4 1%float))] []
             ltac:(left; simpl; lia) eq_refl eq_refl
             (NoDup_singleton _) NoDup_nil_2) eq_refl)
      as (i' & l' & st' & Hrun & _).
    by exists i', l', st'.
Defined.

(** ** SqueezeData returns only what it was given *)

(** X12.  On dicts of arrays, SqueezeData returns exactly when every
    selected array has three axes.  Whenever it returns, the dicts it
    returns hold the arrays of the arguments, no array has been created
    or changed, and the weights are those given: a reshaped array is
    never returned. *)
Theorem SqueezeData_call_returns_iff
    {F : Type} (self : SqueezeData)
    (input_item label_item : nat) (weight_item : option nat) (st : store F)
    (ci cl : list (string * ndarray F)) :
  content st input_item = Some ci →
  content st label_item = Some cl →
  Forall (λ kv, wf_ndarray kv.2) (visited (SqueezeData_apply_keys self) ci cl) →
  ((∃ r st', SqueezeData_call self input_item label_item weight_item st
             = (Ok r, st'))
   ↔ Forall (λ kv, ndim kv.2 = 3) (visited (SqueezeData_apply_keys self) ci cl))
  ∧ (∀ input_item_copy label_item_copy weight' st',
       SqueezeData_call self input_item label_item weight_item st
       = (Ok (input_item_copy, label_item_copy, weight'), st') →
       content st' input_item_copy = Some ci
       ∧ content st' label_item_copy = Some cl
       ∧ weight' = weight_item
       ∧ arrays st' = arrays st).
Proof.
  intros Hci Hcl Hwf.
  assert (Forall (λ kv : string * ndarray F, ndim kv.2 = 4 → wf_ndarray kv.2)
                 (visited (SqueezeData_apply_keys self) ci cl)) as Hwf4.
  { eapply Forall_impl; [exact Hwf |]. by intros kv Hkv _. }
  pose proof (SqueezeData_call_outcome self input_item label_item weight_item
                st ci cl Hci Hcl Hwf4) as Hout.
  destruct (first_unsupported (visited (SqueezeData_apply_keys self) ci cl))
    as [n |] eqn:Hfirst.
  - destruct Hout as [st1 Hrun]. split.
    + split.
      * intros (r & st' & Hok). by rewrite Hrun in Hok.
      * intros H3%first_unsupported_None. by rewrite H3 in Hfirst.
    + intros i' l' w' st' Hok. by rewrite Hrun in Hok.
  - destruct Hout as (st1 & Hrun & Hci' & Hcl' & Harr & _). split.
    + split; [| by eauto]. intros _. by apply first_unsupported_None.
    + intros i' l' w' st' Hok. rewrite Hrun in Hok.
      by injection Hok as <- <- <- <-.
Qed.

Lemma SqueezeData_call_returns_iff_witness :
  ¬ ∃ r st',
      SqueezeData_call {| SqueezeData_apply_keys := ["input"] |} 0 1 None
        (new_store [[("x", 0)]; []]
                  [mk_ndarray [1; 1; 1; 2] [1%float; 2%float]])
      = (Ok r, st').
Proof.
  intros Hok.
  apply (proj1 (SqueezeData_call_returns_iff
                  {| SqueezeData_apply_keys := ["input"] |} 0 1 None
                  (new_store [[("x", 0)]; []]
                            [mk_ndarray [1; 1; 1; 2] [1%float; 2%float]])
                  [("x", mk_ndarray [1; 1; 1; 2] [1%float; 2%float])] []
                  eq_refl eq_refl ltac:(repeat constructor))) in Hok.
  apply Forall_cons in Hok as [Hn _]. discriminate Hn.
Defined.

(** ** What CropData cuts *)

Section CropMore.
Context {F : Type}.
Implicit Types (v : ndarray F) (self : CropData).

Lemma slice_shape_nil (s : list nat) : slice_shape [] s = s.
Proof. induction s as [| n s IH]; simpl; [done |]. by rewrite IH. Qed.

Lemma slice_indices_bound (start stop : Z) (n : nat) :
  ((slice_indices start stop n).1 + (slice_indices start stop n).2 ≤ n)%nat.
Proof.
  unfold slice_indices. simpl.
  destruct (Z.ltb_spec start 0), (Z.ltb_spec stop 0); lia.
Qed.

Lemma slice_indices_covering (stop : Z) (n : nat) :
  (Z.of_nat n ≤ stop)%Z → slice_indices 0 stop n = (0, n).
Proof.
  intros H. unfold slice_indices. simpl.
  destruct (Z.ltb_spec stop 0); [lia |]. f_equal; lia.
Qed.



Lemma length_flat_map_const {A B} (f : A → list B) (l : list A) m :
  (∀ x, x ∈ l → length (f x) = m) →
  length (flat_map f l) = (length l * m)%nat.
Proof.
  induction l as [| x l IH]; intros Hf; simpl; [done |].
  rewrite length_app, (Hf x) by (apply elem_of_cons; by left).
  rewrite IH; [done |]. intros y Hy. apply Hf, elem_of_cons. by right.
Qed.
End CropMore.

(** X13.  CropData accepts an array with more than three axes: it cuts
    the second and the third axis and keeps the first and every later
    axis whole, so shape [[C, H, W, ...]] becomes
    [[C, len(x0:x1), len(y0:y1), ...]]. *)
Theorem crop_more_than_three_axes
    {F : Type} (self : CropData) (x0 y0 x1 y1 : Z) (v : ndarray F)
    (C H W : nat) (rest : list nat) :
  CropData_xmin self !! 0 = Some x0 → CropData_xmin self !! 1 = Some y0 →
  CropData_xmax self !! 0 = Some x1 → CropData_xmax self !! 1 = Some y1 →
  shape v = C :: H :: W :: rest →
  ∃ t, crop self v = Ok t
       ∧ shape t = C :: (slice_indices x0 x1 H).2
                     :: (slice_indices y0 y1 W).2 :: rest.
Proof.
  intros Hx0 Hy0 Hx1 Hy1 Hs.
  exists (crop_box x0 x1 y0 y1 v). split.
  - apply crop_3d; [done.. |]. unfold ndim. rewrite Hs. simpl. lia.
  - unfold crop_box. rewrite Hs. simpl. by rewrite slice_shape_nil.
Qed.

Lemma crop_more_than_three_axes_witness :
  ∃ t, crop {| CropData_xmin := [0; 1]%Z; CropData_xmax := [1; 3]%Z;
               CropData_apply_keys := ["input"] |}
            (mk_ndarray [1; 2; 3; 2] (Z.of_nat <$> seq 0 12))
       = Ok t
       ∧ shape t = [1; 1; 2; 2].
Proof.
  apply (crop_more_than_three_axes
           {| CropData_xmin := [0; 1]%Z; CropData_xmax := [1; 3]%Z;
              CropData_apply_keys := ["input"] |} 0 1 1 3
           (mk_ndarray [1; 2; 3; 2] (Z.of_nat <$> seq 0 12)) 1 2 3 [2]
           eq_refl eq_refl eq_refl eq_refl eq_refl).
Defined.

(** X14.  The corners are clamped to the array as Python slices are: a
    box that starts at the origin and reaches the end of both cropped
    axes, or lies beyond them, returns an array equal to the one given. *)
Theorem crop_covering_box
    {F : Type} (self : CropData) (x1 y1 : Z) (v : ndarray F) (C H W : nat) :
  CropData_xmin self !! 0 = Some 0%Z → CropData_xmin self !! 1 = Some 0%Z →
  CropData_xmax self !! 0 = Some x1 → CropData_xmax self !! 1 = Some y1 →
  (Z.of_nat H ≤ x1)%Z → (Z.of_nat W ≤ y1)%Z →
  wf_ndarray v → shape v = [C; H; W] →
  crop self v = Ok v.
Proof.
  intros Hx0 Hy0 Hx1 Hy1 HH HW Hwf Hs.
  rewrite (crop_3d self 0 0 x1 y1 v Hx0 Hy0 Hx1 Hy1)
    by (unfold ndim; rewrite Hs; simpl; lia).
  f_equal.
  pose proof (crop_box_shape 0 x1 0 y1 v C H W Hs) as Hshape.
  pose proof (crop_box_data 0 x1 0 y1 v C H W Hs) as Hdata.
  rewrite !slice_indices_covering in Hshape, Hdata by done.
  cbn [fst snd] in Hshape, Hdata.
  assert (length (data v) = (C * (H * W))%nat) as Hlen.
  { unfold wf_ndarray in Hwf. rewrite Hwf, Hs. simpl. lia. }
  assert (data (crop_box 0 x1 0 y1 v) = data v) as Hdata'.
  { rewrite Hdata.
    rewrite <- (chunks_concat C (H * W) (data v) Hlen) at 2.
    apply flat_map_ext_elem. intros channel Hch.
    pose proof (chunks_elem_length _ _ _ _ Hlen Hch) as Hchlen.
    rewrite drop_0, take_ge by (by rewrite chunks_length).
    rewrite <- (chunks_concat H W channel Hchlen) at 2.
    apply flat_map_ext_elem. intros row Hrow.
    rewrite drop_0. by apply (chunks_take H W channel). }
  destruct v as [s xs], (crop_box 0 x1 0 y1 (mk_ndarray s xs)) as [s' xs'].
  simpl in *. congruence.
Qed.

Lemma crop_covering_box_witness :
  crop {| CropData_xmin := [0; 0]%Z; CropData_xmax := [256; 512]%Z;
          CropData_apply_keys := ["input"; "label"] |}
       (mk_ndarray [2; 2; 3] (Z.of_nat <$> seq 0 12))
  = Ok (mk_ndarray [2; 2; 3] (Z.of_nat <$> seq 0 12)).
Proof.
  apply (crop_covering_box
           {| CropData_xmin := [0; 0]%Z; CropData_xmax := [256; 512]%Z;
              CropData_apply_keys := ["input"; "label"] |} 256 512
           (mk_ndarray [2; 2; 3] (Z.of_nat <$> seq 0 12)) 2 2 3
           eq_refl eq_refl eq_refl eq_refl);
    [lia | lia | reflexivity | reflexivity].
Defined.



(** X16.  Whatever the corners, also negative ones or ones beyond the
    array, cropping an array of shape [[C, H, W]] whose data fill its
    shape gives an array whose data fill its shape, with the same number
    of channels and at most [H] rows and [W] columns: CropData never
    enlarges an array and never fails on one of three axes. *)
Theorem crop_keeps_well_formed
    {F : Type} (self : CropData) (x0 y0 x1 y1 : Z) (v : ndarray F)
    (C H W : nat) :
  CropData_xmin self !! 0 = Some x0 → CropData_xmin self !! 1 = Some y0 →
  CropData_xmax self !! 0 = Some x1 → CropData_xmax self !! 1 = Some y1 →
  wf_ndarray v → shape v = [C; H; W] →
  ∃ t h w, crop self v = Ok t
           ∧ shape t = [C; h; w] ∧ (h ≤ H)%nat ∧ (w ≤ W)%nat
           ∧ wf_ndarray t.
Proof.
  intros Hx0 Hy0 Hx1 Hy1 Hwf Hs.
  pose proof (slice_indices_bound x0 x1 H) as HbH.
  pose proof (slice_indices_bound y0 y1 W) as HbW.
  exists (crop_box x0 x1 y0 y1 v),
         (slice_indices x0 x1 H).2, (slice_indices y0 y1 W).2.
  split; [| split; [| split; [| split]]].
  - apply crop_3d; [done.. |]. unfold ndim. rewrite Hs. simpl. lia.
  - by apply crop_box_shape.
  - lia.
  - lia.
  - unfold wf_ndarray.
    rewrite (crop_box_shape x0 x1 y0 y1 v C H W Hs).
    rewrite (crop_box_data x0 x1 y0 y1 v C H W Hs).
    assert (length (data v) = (C * (H * W))%nat) as Hlen.
    { unfold wf_ndarray in Hwf. rewrite Hwf, Hs. simpl. lia. }
    rewrite (length_flat_map_const _ _
               ((slice_indices x0 x1 H).2 * (slice_indices y0 y1 W).2)%nat).
    { rewrite chunks_length. simpl. lia. }
    intros channel Hch.
    pose proof (chunks_elem_length _ _ _ _ Hlen Hch) as Hchlen.
    rewrite (length_flat_map_const _ _ (slice_indices y0 y1 W).2).
    { rewrite length_take, length_drop, chunks_length.
      rewrite Nat.min_l by lia. done. }
    intros row (i & Hrow & _)%elem_of_take.
    rewrite lookup_drop in Hrow. apply list_elem_of_lookup_2 in Hrow.
    pose proof (chunks_elem_length _ _ _ _ Hchlen Hrow) as Hrowlen.
    rewrite length_take, length_drop. lia.
Qed.

Lemma crop_keeps_well_formed_witness :
  ∃ t h w,
    crop {| CropData_xmin := [-1; 1]%Z; CropData_xmax := [7; -1]%Z;
            CropData_apply_keys := ["label"] |}
         (mk_ndarray [2; 2; 3] (Z.of_nat <$> seq 0 12))
    = Ok t
    ∧ shape t = [2; h; w] ∧ (h ≤ 2)%nat ∧ (w ≤ 3)%nat ∧ wf_ndarray t.
Proof.
  apply (crop_keeps_well_formed
           {| CropData_xmin := [-1; 1]%Z; CropData_xmax := [7; -1]%Z;
              CropData_apply_keys := ["label"] |} (-1) 1 7 (-1)
           (mk_ndarray [2; 2; 3] (Z.of_nat <$> seq 0 12)) 2 2 3
           eq_refl eq_refl eq_refl eq_refl);
    reflexivity.
Defined.

(** ** FunctionalTransform: what it refuses, and the function of its docstring *)

(** X17.  FunctionalTransform raises without calling the wrapped
    function when it is not given exactly three arguments (the
    [ValueError] of the unpacking) and when the data or the label
    argument is [None] (the [TypeError] of [{**None}]); only the weights
    may be [None].  No array is touched and no dict of the caller
    changes. *)
Theorem FunctionalTransform_call_rejects
    {F R : Type} (self : FunctionalTransform (F:=F) R)
    (data : list (option nat)) (st : store F) :
  Forall (λ o, ∀ d, o = Some d → is_Some (dicts st !! d)) data →
  length data ≠ 3 ∨ data !! 0 = Some None ∨ data !! 1 = Some None →
  ∃ st',
    FunctionalTransform_call self data st
    = (Raise (if bool_decide (length data = 3)
              then TypeError_not_a_mapping
              else ValueError_unpack (length data)), st')
    ∧ arrays st' = arrays st
    ∧ dicts st `prefix_of` dicts st'.
Proof.
  intros Hvalid Hbad.
  destruct (decide (length data = 3)) as [Hlen | Hlen].
  - rewrite bool_decide_true by done.
    destruct data as [| a [| b [| c [| ? ?]]]]; try discriminate Hlen.
    destruct Hbad as [Hne | Hnone]; [done |].
    destruct a as [d |].
    + destruct Hnone as [[=] | [= ->]].
      apply Forall_cons in Hvalid as [Hd _].
      destruct (Hd d eq_refl) as [x Hx].
      exists (mk_store (dicts st ++ [x]) (arrays st) (layout st)).
      split; [| split; [done | by eexists]].
      unfold FunctionalTransform_call, dict_copy_object.
      by rewrite (bind_ok _ _ _ _ _ (dict_copy_ok _ _ _ Hx)).
    + exists st. by split.
  - rewrite bool_decide_false by done.
    exists st. split; [| by split].
    by apply FunctionalTransform_call_arity.
Qed.

Lemma FunctionalTransform_call_rejects_witness :
  ∃ st',
    FunctionalTransform_call
      (FunctionalTransform_init (λ d l w, mret (d, l, w)))
      [Some 0; None; None] (new_store [[("x", 0)]] [mk_ndarray [1] [2%float]])
    = (Raise TypeError_not_a_mapping, st')
    ∧ arrays st' = [mk_ndarray [1] [2%float]]
    ∧ [[("x", 0)]] `prefix_of` dicts st'.
Proof.
  apply (FunctionalTransform_call_rejects
           (FunctionalTransform_init (λ d l w, mret (d, l, w)))
           [Some 0; None; None]
           (new_store [[("x", 0)]] [mk_ndarray [1] [2%float]])).
  - repeat constructor; intros d [= <-]; by eexists.
  - right. right. reflexivity.
Defined.

Section ExampleFacts.
Context {F : Type}.
Variable fmul : F → F → F.
Implicit Types (st : store F).

Lemma FunctionalTransform_call_run {R} (self : FunctionalTransform (F:=F) R)
    (data_dict label_dict : nat) (weight_dict : option nat) st (xd xl xw : dict) :
  dicts st !! data_dict = Some xd →
  dicts st !! label_dict = Some xl →
  match weight_dict with
  | Some w => dicts st !! w = Some xw
  | None => xw = []
  end →
  FunctionalTransform_call self [Some data_dict; Some label_dict; weight_dict] st
  = transform_func self (length (dicts st)) (S (length (dicts st)))
      (S (S (length (dicts st))))
      (mk_store (((dicts st ++ [xd]) ++ [xl]) ++ [xw]) (arrays st) (layout st)).
Proof.
  intros Hxd Hxl Hxw.
  set (n := length (dicts st)).
  unfold FunctionalTransform_call, dict_copy_object.
  rewrite (bind_ok _ _ _ _ _ (dict_copy_ok _ _ _ Hxd)).
  assert (dicts (mk_store (dicts st ++ [xd]) (arrays st) (layout st)) !! label_dict
          = Some xl) as Hxl1 by (simpl; by apply lookup_app_l_Some).
  rewrite (bind_ok _ _ _ _ _ (dict_copy_ok _ _ _ Hxl1)).
  cbn [dicts arrays]. rewrite length_app. simpl length. fold n.
  replace (n + 1) with (S n) by lia.
  destruct weight_dict as [w |].
  - assert (dicts (mk_store ((dicts st ++ [xd]) ++ [xl]) (arrays st) (layout st)) !! w
            = Some xw) as Hxw2.
    { simpl. apply lookup_app_l_Some. by apply lookup_app_l_Some. }
    rewrite (bind_ok _ _ _ _ _ (dict_copy_ok _ _ _ Hxw2)).
    cbn [dicts arrays]. rewrite !length_app. simpl length. fold n.
    by replace (n + 1 + 1) with (S (S n)) by lia.
  - subst xw. unfold mbind at 1, M_bind at 1. unfold dict_new at 1.
    cbn [dicts arrays]. rewrite !length_app. simpl length. fold n.
    by replace (n + 1 + 1) with (S (S n)) by lia.
Qed.

(** The loop over the keys does what the loop over the items does. *)
Lemma for_each_keys_update (rand_ratio : F) d rest : ∀ pre st,
  dicts st !! d = Some (pre ++ rest) →
  NoDup (pre ++ rest).*1 →
  for_each rest.*1 (example_body fmul rand_ratio d) st
  = for_each rest
      (update_body computed (λ v, Ok (map_data (λ x, fmul x rand_ratio) v)) d) st.
Proof.
  induction rest as [| [k r] rest IH]; intros pre st Hd Hnd; [done |].
  rewrite fmap_cons. cbn [for_each fst].
  assert (dict_getitem d k st = (Ok r, st)) as Hget.
  { rewrite (dict_getitem_run _ _ _ _ Hd).
    rewrite (dict_get_elem_of (pre ++ (k, r) :: rest) k r); [done | done |].
    apply elem_of_app. right. apply elem_of_cons. by left. }
  assert (example_body fmul rand_ratio d k st
          = update_body computed (λ v, Ok (map_data (λ x, fmul x rand_ratio) v)) d
                        (k, r) st) as Hsame.
  { unfold example_body. by rewrite (bind_ok _ _ _ _ _ Hget). }
  assert (k ∉ pre.*1) as Hk.
  { rewrite fmap_app in Hnd. apply NoDup_app in Hnd as (_ & Hdisj & _).
    intros Hin. apply (Hdisj k Hin). simpl. apply elem_of_cons. by left. }
  destruct (arrays st !! r) as [v |] eqn:Hv.
  - set (t := map_data (λ x, fmul x rand_ratio) v).
    set (st2 := mk_store (<[d := pre ++ (k, length (arrays st)) :: rest]> (dicts st))
                         (arrays st ++ [t])
                         (layout st ++ [computed r t st])).
    assert (update_body computed (λ v, Ok (map_data (λ x, fmul x rand_ratio) v)) d
                        (k, r) st = (Ok (), st2)) as Hbody.
    { unfold update_body.
      rewrite (bind_ok _ _ _ _ _ (array_load_ok _ _ _ Hv)).
      unfold lift at 1. unfold mbind at 1, M_bind at 1.
      unfold array_new at 1. unfold mbind at 1, M_bind at 1.
      erewrite dict_setitem_ok by (simpl; exact Hd).
      simpl. by rewrite dict_set_middle. }
    rewrite (bind_ok _ _ _ _ _ Hbody).
    rewrite Hbody in Hsame. rewrite (bind_ok _ _ _ _ _ Hsame).
    apply (IH (pre ++ [(k, length (arrays st))]) st2).
    + subst st2. simpl. rewrite <- app_assoc. simpl.
      apply list_lookup_insert_eq. by eapply lookup_lt_Some.
    + rewrite <- app_assoc. simpl.
      rewrite !fmap_app in *. simpl in *. done.
  - assert (update_body computed (λ v, Ok (map_data (λ x, fmul x rand_ratio) v)) d
                        (k, r) st = (Raise InvalidReference, st)) as Hbody.
    { unfold update_body, array_load, mbind, M_bind. by rewrite Hv. }
    rewrite (bind_raise _ _ _ _ _ Hbody).
    rewrite Hbody in Hsame. by rewrite (bind_raise _ _ _ _ _ Hsame).
Qed.
End ExampleFacts.

(** X18.  With the function of its docstring, which assigns
    [data_dict[key] * rand_ratio] to every key of the dict it receives,
    FunctionalTransform returns three new dicts: the first holds every
    data array multiplied by [rand_ratio] as a new array, the other two
    the entries of the labels and the weights.  The caller's dicts and
    arrays are as they were: the function writes to the copy, and the
    product builds a new array. *)
Theorem FunctionalTransform_call_docstring_example
    {F : Type} (fmul : F → F → F) (rand_ratio : F)
    (data_dict label_dict : nat) (weight_dict : option nat) (st : store F)
    (ci : list (string * ndarray F)) (xl xw : dict) :
  content st data_dict = Some ci → NoDup ci.*1 →
  dicts st !! label_dict = Some xl →
  match weight_dict with
  | Some w => dicts st !! w = Some xw
  | None => xw = []
  end →
  ∃ data_dict_copy label_dict_copy weight_dict_copy st',
    FunctionalTransform_call
      (FunctionalTransform_init (example_transform_func fmul rand_ratio))
      [Some data_dict; Some label_dict; weight_dict] st
    = (Ok (data_dict_copy, label_dict_copy, weight_dict_copy), st')
    ∧ content st' data_dict_copy
      = Some (prod_map id (map_data (λ x, fmul x rand_ratio)) <$> ci)
    ∧ dicts st' !! label_dict_copy = Some xl
    ∧ dicts st' !! weight_dict_copy = Some xw
    ∧ dicts st !! data_dict_copy = None
    ∧ dicts st !! label_dict_copy = None
    ∧ dicts st !! weight_dict_copy = None
    ∧ content st' data_dict = Some ci
    ∧ (∀ d, is_Some (dicts st !! d) → dicts st' !! d = dicts st !! d)
    ∧ arrays st `prefix_of` arrays st'.
Proof.
  intros Hci Hnd Hxl Hxw.
  pose proof Hci as Hci0. unfold content in Hci0.
  destruct (dicts st !! data_dict) as [xd |] eqn:Hxd; [| done].
  simpl in Hci0.
  set (n := length (dicts st)).
  set (st3 := mk_store (((dicts st ++ [xd]) ++ [xl]) ++ [xw]) (arrays st) (layout st)).
  set (f := λ v : ndarray F, Ok (map_data (λ x, fmul x rand_ratio) v)).
  assert (dicts st3 !! n = Some xd) as Hn.
  { unfold st3. cbn [dicts]. rewrite <- !app_assoc.
    rewrite lookup_app_r by (unfold n; lia). unfold n.
    by rewrite Nat.sub_diag. }
  assert (dicts st3 !! S n = Some xl) as HSn.
  { unfold st3. cbn [dicts]. rewrite <- !app_assoc.
    rewrite lookup_app_r by (unfold n; lia). unfold n.
    by replace (S (length (dicts st)) - length (dicts st)) with 1 by lia. }
  assert (dicts st3 !! S (S n) = Some xw) as HSSn.
  { unfold st3. cbn [dicts]. rewrite <- !app_assoc.
    rewrite lookup_app_r by (unfold n; lia). unfold n.
    by replace (S (S (length (dicts st))) - length (dicts st)) with 2 by lia. }
  assert (content st3 n = Some ci) as Hci3.
  { unfold content. by rewrite Hn. }
  assert (values_mapped f ci
            (prod_map id (map_data (λ x, fmul x rand_ratio)) <$> ci)) as Hm.
  { apply values_mapped_fmap. by apply Forall_forall. }
  destruct (update_values_post computed f n st3 ci _ Hci3 Hnd Hm)
    as (st' & Hrun & Hc' & Hframe & _ & Hpre).
  unfold update_values, dict_items in Hrun.
  rewrite (bind_ok _ _ _ _ _ (dict_load_ok _ _ _ Hn)) in Hrun.
  assert (NoDup xd.*1) as Hndx by (by rewrite <- (deref_keys _ _ _ Hci0)).
  exists n, (S n), (S (S n)), st'.
  split; [| split; [| split; [| split; [| split; [| split; [| split; [| split; [| split]]]]]]]].
  - rewrite (FunctionalTransform_call_run _ _ _ _ _ xd xl xw Hxd Hxl Hxw).
    fold n st3. unfold FunctionalTransform_init, transform_func.
    unfold example_transform_func.
    rewrite (bind_ok _ _ _ _ _ (dict_load_ok _ _ _ Hn)).
    assert (for_each xd.*1 (example_body fmul rand_ratio n) st3 = (Ok (), st'))
      as Hloop.
    { rewrite <- Hrun. by apply (for_each_keys_update fmul rand_ratio n xd []). }
    by rewrite (bind_ok _ _ _ _ _ Hloop).
  - done.
  - rewrite Hframe by lia. done.
  - rewrite Hframe by lia. done.
  - apply lookup_ge_None. unfold n. lia.
  - apply lookup_ge_None. unfold n. lia.
  - apply lookup_ge_None. unfold n. lia.
  - apply (content_frame st st' data_dict ci); [| done | done].
    assert (data_dict < n) as Hlt by (by eapply lookup_lt_Some).
    rewrite Hframe by lia. unfold st3. cbn [dicts].
    rewrite <- !app_assoc. by rewrite lookup_app_l by done.
  - intros d [x Hx].
    assert (d < n) as Hlt by (by eapply lookup_lt_Some).
    rewrite Hframe by lia. unfold st3. cbn [dicts].
    rewrite <- !app_assoc. by rewrite lookup_app_l by done.
  - done.
Qed.

Lemma FunctionalTransform_call_docstring_example_witness :
  ∃ data_dict_copy label_dict_copy weight_dict_copy st',
    FunctionalTransform_call
      (FunctionalTransform_init (example_transform_func Z.mul 2%Z))
      [Some 0; Some 1; None]
      (new_store [[("x", 0)]; []] [mk_ndarray [2] [3; 4]%Z])
    = (Ok (data_dict_copy, label_dict_copy, weight_dict_copy), st')
    ∧ content st' data_dict_copy
      = Some [("x", mk_ndarray [2] [6; 8]%Z)]
    ∧ content st' 0 = Some [("x", mk_ndarray [2] [3; 4]%Z)].
Proof.
  destruct (FunctionalTransform_call_docstring_example Z.mul 2%Z 0 1 None
              (new_store [[("x", 0)]; []] [mk_ndarray [2] [3; 4]%Z])
              [("x", mk_ndarray [2] [3; 4]%Z)] [] []
              eq_refl ltac:(apply NoDup_singleton) eq_refl eq_refl)
    as (d' & l' & w' & st' & Hrun & Hd' & _ & _ & _ & _ & _ & Hd & _).
  exists d', l', w', st'. split; [exact Hrun | split; [exact Hd' | exact Hd]].
Defined.

(** ** Normalize with one mean and one deviation per entry of the last axis *)

Section LastAxis.
Context {F : Type}.
Implicit Types (a b v : ndarray F) (s : list nat).

Lemma concat_replicate_mul {A} n m (xs : list A) :
  concat (replicate n (concat (replicate m xs)))
  = concat (replicate (n * m) xs).
Proof.
  induction n as [| n IH]; simpl; [done |].
  by rewrite replicate_add, concat_app, IH.
Qed.

Lemma numel_app s1 s2 : numel (s1 ++ s2) = (numel s1 * numel s2)%nat.
Proof.
  induction s1 as [| n s1 IH]; simpl; [lia |].
  fold (numel (s1 ++ s2)). fold (numel s1). rewrite IH. lia.
Qed.

Lemma numel_ones_last k W : numel (replicate k 1 ++ [W]) = W.
Proof. rewrite numel_app, numel_ones. simpl. lia. Qed.

(** An array of shape [[W]] is broadcast along the last axis: its
    elements are repeated once for every index of the axes before. *)
Lemma expand_last_axis {A} s W (xs : list A) :
  length xs = W →
  expand (s ++ [W]) (replicate (length s) 1 ++ [W]) xs
  = concat (replicate (numel s) xs).
Proof.
  intros Hlen. induction s as [| n s IH].
  - cbn [length replicate app expand numel foldr concat].
    rewrite Nat.eqb_refl, app_nil_r.
    change (numel []) with 1.
    apply chunks_concat. lia.
  - cbn [length replicate app expand].
    rewrite numel_ones_last.
    destruct (1 =? n)%nat eqn:E.
    + apply Nat.eqb_eq in E as <-.
      cbn [chunks flat_map]. rewrite app_nil_r.
      rewrite take_ge by lia. rewrite IH.
      f_equal. f_equal. simpl. fold (numel s). lia.
    + rewrite IH, concat_replicate_mul. done.
Qed.

Lemma lookup_concat_replicate {A} n (xs : list A) i :
  (i < n * length xs)%nat →
  concat (replicate n xs) !! i = xs !! (i mod length xs)%nat.
Proof.
  revert i. induction n as [| n IH]; intros i Hi; [simpl in Hi; lia |].
  simpl. destruct (decide (i < length xs)%nat) as [Hlt | Hge].
  - rewrite lookup_app_l by done. by rewrite Nat.mod_small.
  - rewrite lookup_app_r by lia. rewrite IH by (simpl in Hi; lia).
    f_equal.
    replace i with ((i - length xs) + 1 * length xs)%nat at 2 by lia.
    by rewrite Nat.Div0.mod_add.
Qed.

Lemma broadcast_shapes_last_axis s W :
  broadcast_shapes (s ++ [W]) [W] = Some (s ++ [W]).
Proof.
  unfold broadcast_shapes. rewrite reverse_app, !reverse_singleton.
  cbn [app broadcast_rev]. rewrite Nat.eqb_refl.
  assert (broadcast_rev (reverse s) [] = Some (reverse s)) as ->
    by (by destruct (reverse s)).
  simpl. by rewrite reverse_cons, reverse_involutive.
Qed.

Lemma np_binop_last_axis (op : F → F → F) a b s W :
  shape a = s ++ [W] → shape b = [W] → wf_ndarray a → wf_ndarray b →
  np_binop op a b
  = Ok (mk_ndarray (s ++ [W])
          (zip_with op (data a) (concat (replicate (numel s) (data b))))).
Proof.
  intros Ha Hb Hwa Hwb. unfold np_binop. rewrite Ha, Hb.
  rewrite broadcast_shapes_last_axis. unfold broadcast_to. rewrite Ha, Hb.
  rewrite Nat.sub_diag. cbn [replicate app].
  rewrite expand_same by (unfold wf_ndarray in Hwa; by rewrite <- Ha).
  rewrite length_app. cbn [length].
  replace (length s + 1 - 1)%nat with (length s) by lia.
  rewrite expand_last_axis; [done |].
  unfold wf_ndarray in Hwb. rewrite Hwb, Hb. simpl. lia.
Qed.

Lemma length_concat_replicate {A} n (xs : list A) :
  length (concat (replicate n xs)) = (n * length xs)%nat.
Proof.
  induction n as [| n IH]; simpl; [done |]. by rewrite length_app, IH.
Qed.
End LastAxis.

(** X19.  With a mean and a deviation of one axis of [W] entries, as the
    tuples of the docstring are, Normalize accepts every array whose
    last axis has [W] entries, whatever axes come before, and keeps its
    shape: the element at position [i] of the row-major data, whose index
    on the last axis is [i mod W], becomes
    [(x - mean[i mod W]) / std[i mod W]]. *)
Theorem normalize_last_axis
    {F : Type} (fsub fdiv : F → F → F) (self : Normalize)
    (v : ndarray F) (s : list nat) (W : nat) :
  shape (Normalize_mean self) = [W] → wf_ndarray (Normalize_mean self) →
  shape (Normalize_std self) = [W] → wf_ndarray (Normalize_std self) →
  shape v = s ++ [W] → wf_ndarray v →
  ∃ t, normalize fsub fdiv self v = Ok t
       ∧ shape t = shape v
       ∧ length (data t) = length (data v)
       ∧ ∀ i x, data v !! i = Some x →
           ∃ m sd, data (Normalize_mean self) !! (i mod W)%nat = Some m
                   ∧ data (Normalize_std self) !! (i mod W)%nat = Some sd
                   ∧ data t !! i = Some (fdiv (fsub x m) sd).
Proof.
  intros Hms Hmw Hss Hsw Hv Hvw.
  assert (length (data (Normalize_mean self)) = W) as Hml.
  { unfold wf_ndarray in Hmw. rewrite Hmw, Hms. simpl. lia. }
  assert (length (data (Normalize_std self)) = W) as Hsl.
  { unfold wf_ndarray in Hsw. rewrite Hsw, Hss. simpl. lia. }
  assert (length (data v) = (numel s * W)%nat) as Hvl.
  { unfold wf_ndarray in Hvw. rewrite Hvw, Hv, numel_app. simpl. lia. }
  set (d := mk_ndarray (s ++ [W])
              (zip_with fsub (data v)
                 (concat (replicate (numel s) (data (Normalize_mean self)))))).
  assert (length (data d) = (numel s * W)%nat) as Hdl.
  { unfold d. cbn [data]. rewrite length_zip_with, length_concat_replicate. lia. }
  assert (wf_ndarray d) as Hdw.
  { unfold wf_ndarray. rewrite Hdl. unfold d. cbn [shape].
    rewrite numel_app. simpl. lia. }
  exists (mk_ndarray (s ++ [W])
            (zip_with fdiv (data d)
               (concat (replicate (numel s) (data (Normalize_std self)))))).
  split; [| split; [| split]].
  - unfold normalize, np_sub, np_div.
    rewrite (np_binop_last_axis fsub v _ s W Hv Hms Hvw Hmw). fold d.
    apply (np_binop_last_axis fdiv d _ s W eq_refl Hss Hdw Hsw).
  - by rewrite Hv.
  - cbn [data]. rewrite length_zip_with, length_concat_replicate. lia.
  - intros i x Hx.
    assert (i < numel s * W)%nat as Hi.
    { rewrite <- Hvl. by eapply lookup_lt_Some. }
    assert (i mod W < W)%nat as Hmod by (apply Nat.mod_upper_bound; lia).
    destruct (lookup_lt_is_Some_2 (data (Normalize_mean self)) (i mod W)%nat)
      as [m Hm]; [lia |].
    destruct (lookup_lt_is_Some_2 (data (Normalize_std self)) (i mod W)%nat)
      as [sd Hsd]; [lia |].
    exists m, sd. split; [done | split; [done |]].
    assert (data d !! i = Some (fsub x m)) as Hd.
    { unfold d. cbn [data]. rewrite lookup_zip_with.
      rewrite lookup_concat_replicate by lia.
      by rewrite Hml, Hx, Hm. }
    cbn [data]. rewrite lookup_zip_with.
    rewrite lookup_concat_replicate by lia.
    by rewrite Hsl, Hd, Hsd.
Qed.

Lemma normalize_last_axis_witness :
  ∃ t, normalize Z.sub Z.div
         {| Normalize_mean := mk_ndarray [3] [1; 2; 3]%Z;
            Normalize_std := mk_ndarray [3] [1; 2; 1]%Z;
            Normalize_apply_keys := ["input"; "label"] |}
         (mk_ndarray [2; 1; 3] [5; 6; 7; 8; 10; 12]%Z)
       = Ok t
       ∧ shape t = [2; 1; 3]
       ∧ data t !! 4 = Some 4%Z.
Proof.
  destruct (normalize_last_axis Z.sub Z.div
              {| Normalize_mean := mk_ndarray [3] [1; 2; 3]%Z;
                 Normalize_std := mk_ndarray [3] [1; 2; 1]%Z;
                 Normalize_apply_keys := ["input"; "label"] |}
              (mk_ndarray [2; 1; 3] [5; 6; 7; 8; 10; 12]%Z) [2; 1] 3
              eq_refl eq_refl eq_refl eq_refl eq_refl eq_refl)
    as (t & Hrun & Hshape & _ & Hdata).
  exists t. split; [exact Hrun | split; [exact Hshape |]].
  destruct (Hdata 4 10%Z eq_refl) as (m & sd & Hm & Hsd & Ht).
  simpl in Hm, Hsd. injection Hm as <-. injection Hsd as <-. exact Ht.
Defined.

(** ** A view made by CropData is written through *)

Section SliceNatural.
Context {A B : Type}.
Implicit Types (R : A → B → Prop) (s : list nat) (idx : list index).

Lemma Forall2_chunks R n sz : ∀ (xs : list A) (ys : list B),
  Forall2 R xs ys → Forall2 (Forall2 R) (chunks n sz xs) (chunks n sz ys).
Proof.
  induction n as [| n IH]; intros xs ys H; simpl; [constructor |].
  constructor; [by apply Forall2_take | by apply IH, Forall2_drop].
Qed.

Lemma Forall2_flat_map {C D} (P : C → D → Prop) R
    (f : C → list A) (g' : D → list B) (ls : list C) (ks : list D) :
  Forall2 P ls ks → (∀ l k, P l k → Forall2 R (f l) (g' k)) →
  Forall2 R (flat_map f ls) (flat_map g' ks).
Proof.
  intros H Hfg. induction H as [| l k ls ks Hlk _ IH]; simpl; [constructor |].
  apply Forall2_app; [by apply Hfg | done].
Qed.

(** A subscript picks elements by their place alone: related arrays
    have related cuts. *)
Lemma Forall2_slice_data R s : ∀ idx (xs : list A) (ys : list B),
  Forall2 R xs ys → Forall2 R (slice_data idx s xs) (slice_data idx s ys).
Proof.
  induction s as [| n rest IH]; intros idx xs ys H; [done |].
  cbn [slice_data]. destruct (index_range (head idx) n) as [lo cnt].
  apply (Forall2_flat_map (Forall2 R) R).
  - by apply Forall2_take, Forall2_drop, Forall2_chunks.
  - intros l k. apply IH.
Qed.
End SliceNatural.

Section WrittenView.
Context {F : Type}.

Lemma slice_data_fmap {A B} (h : A → B) idx s (l : list A) :
  slice_data idx s (h <$> l) = h <$> slice_data idx s l.
Proof.
  assert (Forall2 (λ a b, b = h a) (slice_data idx s l)
                  (slice_data idx s (h <$> l))) as H.
  { apply Forall2_slice_data. apply Forall2_fmap_r.
    by apply Forall_Forall2_diag, Forall_true. }
  induction H as [| a b l1 l2 -> _ IH]; [done |]. simpl. by f_equal.
Qed.

(** The elements a subscript cuts from an array, once the elements in
    the cells the same subscript cuts have changed: all of them have. *)
Lemma slice_data_written (g : F → F) idx s (cs : list nat) (xs : list F) :
  length cs = length xs →
  slice_data idx s
    (imap (λ j x, match cs !! j with
                  | Some c => if bool_decide (c ∈ slice_data idx s cs)
                              then g x else x
                  | None => x
                  end) xs)
  = g <$> slice_data idx s xs.
Proof.
  intros Hlen.
  set (C := slice_data idx s cs).
  set (h := λ cx : nat * F, if bool_decide (cx.1 ∈ C) then g cx.2 else cx.2).
  assert (imap (λ j x, match cs !! j with
                       | Some c => if bool_decide (c ∈ C) then g x else x
                       | None => x
                       end) xs
          = h <$> zip cs xs) as ->.
  { apply list_eq. intros j.
    rewrite list_lookup_imap, list_lookup_fmap, lookup_zip_with.
    destruct (xs !! j) as [x |] eqn:Hx; simpl.
    - destruct (lookup_lt_is_Some_2 cs j) as [c Hc].
      { rewrite Hlen. by eapply lookup_lt_Some. }
      by rewrite Hc.
    - by destruct (cs !! j). }
  rewrite slice_data_fmap.
  rewrite <- (snd_zip cs xs) at 2 by lia.
  rewrite slice_data_fmap, <- list_fmap_compose.
  apply list_fmap_ext. intros i [c x] Hi. unfold h. simpl.
  rewrite bool_decide_true; [done |].
  unfold C. rewrite <- (fst_zip cs xs) at 1 by lia.
  rewrite slice_data_fmap. apply list_elem_of_fmap.
  exists (c, x). split; [done |]. by eapply list_elem_of_lookup_2.
Qed.
End WrittenView.

(** X21.  The array CropData returns is a view of the caller's array,
    so the copy of the dict does not keep Translate away from it.
    CropData on an input dict with one writeable array of a dtype that
    takes a float and at least three axes, then Translate with an offset for its
    key on the dict CropData returned: both calls return, the dict
    Translate returns holds the cropped array with the offset added, and
    the array of the caller, which neither call was given to change, has
    kept its shape but holds the offset too: cut with the same box, it
    is the array Translate returned. *)
Theorem CropData_then_Translate_writes_caller
    {F : Type} (fadd : F → F → F) (self : CropData) (t : Translate)
    (x0 y0 x1 y1 : Z) (input_item label_item : nat) (weight_item : option nat)
    (st : store F) (key : string) (r : nat) (v : ndarray F) (m : memory)
    (offset : F) :
  CropData_apply_keys self = ["input"] →
  CropData_xmin self !! 0 = Some x0 → CropData_xmin self !! 1 = Some y0 →
  CropData_xmax self !! 0 = Some x1 → CropData_xmax self !! 1 = Some y1 →
  Translate_offset t = [(key, offset)] →
  dicts st !! input_item = Some [(key, r)] →
  is_Some (dicts st !! label_item) →
  arrays st !! r = Some v → (3 ≤ ndim v)%nat →
  layout st !! r = Some m → length (layout st) = length (arrays st) →
  writeable m = true → takes_float m = true →
  length (cells m) = length (data v) →
  ∃ d1 l1 st1 d2 st2 v',
    CropData_call self input_item label_item weight_item st
    = (Ok (d1, l1, weight_item), st1)
    ∧ Translate_call fadd t d1 l1 weight_item st1
      = (Ok (d2, l1, weight_item), st2)
    ∧ content st2 d2
      = Some [(key, map_data (λ y, fadd y offset) (crop_box x0 x1 y0 y1 v))]
    ∧ content st input_item = Some [(key, v)]
    ∧ content st2 input_item = Some [(key, v')]
    ∧ shape v' = shape v
    ∧ crop_box x0 x1 y0 y1 v'
      = map_data (λ y, fadd y offset) (crop_box x0 x1 y0 y1 v).
Proof.
  intros Hkeys Hx0 Hy0 Hx1 Hy1 Htab Hin [xl Hxl] Hv Hnd Hm Hlay Hw Hi Hcells.
  set (n := length (dicts st)).
  set (a1 := length (arrays st)).
  set (g := λ y, fadd y offset).
  set (t0 := crop_box x0 x1 y0 y1 v).
  set (idx := [Full; Slice x0 x1; Slice y0 y1]).
  set (m1 := mk_memory (buffer m) (slice_data idx (shape v) (cells m))
                       (writeable m) (takes_float m)).
  set (stb := mk_store ((dicts st ++ [[(key, r)]]) ++ [xl]) (arrays st)
                       (layout st)).
  set (st1 := mk_store (<[n := [(key, a1)]]> (dicts stb)) (arrays st ++ [t0])
                       (layout st ++ [m1])).
  set (v' := written g m1 m v).
  assert (input_item < n) as Hlt_in by (by eapply lookup_lt_Some).
  assert (r < a1) as Hlt_r by (by eapply lookup_lt_Some).
  assert (length (dicts stb) = S (S n)) as Hlenb.
  { unfold stb, n. simpl. rewrite !length_app. simpl. lia. }
  assert (dicts stb !! n = Some [(key, r)]) as Hnb.
  { unfold stb. simpl. rewrite lookup_app_l by (rewrite length_app; simpl; lia).
    rewrite lookup_app_r by (unfold n; lia). unfold n.
    by rewrite Nat.sub_diag. }
  (* CropData *)
  assert (update_values (view (crop self)) (crop self) n stb = (Ok (), st1))
    as Hloop.
  { unfold update_values, dict_items.
    rewrite (bind_ok _ _ _ _ _ (dict_load_ok _ _ _ Hnb)). cbn [for_each].
    assert (update_body (view (crop self)) (crop self) n (key, r) stb
            = (Ok (), st1)) as Hbody.
    { unfold update_body.
      rewrite (bind_ok _ _ _ _ _ (array_load_ok stb r v Hv)).
      unfold lift at 1. unfold mbind at 1, M_bind at 1.
      rewrite (crop_3d self x0 y0 x1 y1 v Hx0 Hy0 Hx1 Hy1 Hnd).
      unfold array_new at 1. unfold mbind at 1, M_bind at 1.
      erewrite dict_setitem_ok by (simpl; exact Hnb).
      unfold st1. cbn [dicts arrays layout]. f_equal. f_equal.
      - simpl. by rewrite decide_True.
      - f_equal. f_equal. unfold view, stb. cbn [arrays layout]. rewrite Hv, Hm.
        by rewrite (crop_3d self x0 y0 x1 y1 (mk_ndarray (shape v) (cells m))
                      Hx0 Hy0 Hx1 Hy1 Hnd). }
    by rewrite (bind_ok _ _ _ _ _ Hbody). }
  assert (CropData_call self input_item label_item weight_item st
          = (Ok (n, S n, weight_item), st1)) as Hcrop.
  { unfold CropData_call. rewrite Hkeys.
    rewrite (bind_ok _ _ _ _ _ (dict_copy_ok _ _ _ Hin)).
    assert (dicts (mk_store (dicts st ++ [[(key, r)]]) (arrays st) (layout st))
            !! label_item = Some xl) as Hxl1
      by (simpl; by apply lookup_app_l_Some).
    rewrite (bind_ok _ _ _ _ _ (dict_copy_ok _ _ _ Hxl1)).
    cbn [dicts arrays layout]. fold stb.
    rewrite (bool_decide_true ("input" ∈ ["input"]))
      by (by apply list_elem_of_singleton).
    rewrite (bool_decide_false ("label" ∈ ["input"]))
      by (by intros ?%list_elem_of_singleton).
    rewrite length_app. simpl length. fold n.
    rewrite (bind_ok _ _ _ _ _ Hloop).
    unfold mbind, M_bind, mret, M_ret.
    by replace (n + 1) with (S n) by lia. }
  (* Translate *)
  assert (dicts st1 !! n = Some [(key, a1)]) as Hn1.
  { unfold st1. simpl. apply list_lookup_insert_eq.
    rewrite !length_app. simpl. unfold n. lia. }
  assert (arrays st1 !! a1 = Some t0) as Ha1.
  { unfold st1. simpl. rewrite lookup_app_r by (unfold a1; lia).
    unfold a1. by rewrite Nat.sub_diag. }
  assert (layout st1 !! a1 = Some m1) as Hm1.
  { unfold st1. simpl. rewrite lookup_app_r by (unfold a1; lia).
    unfold a1. by rewrite Hlay, Nat.sub_diag. }
  assert (deref (arrays st1) [(key, a1)] = Some [(key, t0)]) as Hci1.
  { unfold deref. cbn [mapM fst snd]. by rewrite Ha1. }
  set (arrs2 := write_through g a1 m1 (arrays st1) (layout st1)).
  set (st2 := mk_store (dicts st1 ++ [[(key, a1)]]) arrs2 (layout st1)).
  assert (Translate_call fadd t n (S n) weight_item st1
          = (Ok (length (dicts st1), S n, weight_item), st2)) as Htrans.
  { change (Translate_call fadd t) with (inplace_call fadd (Translate_offset t)).
    rewrite (inplace_call_store fadd (Translate_offset t) n (S n) weight_item
               st1 [(key, a1)] [(key, t0)] Hn1 Hci1).
    - rewrite Htab. unfold st2, arrs2. simpl. unfold inplace_write. simpl.
      rewrite !decide_True by done.
      change (layout st ++ [m1]) with (layout st1). by rewrite Hm1.
    - intros k r' _ Hget. simpl in Hget.
      destruct (decide (key = k)); [| done]. injection Hget as <-.
      unfold updatable. rewrite Hm1. simpl. by rewrite Hw, Hi. }
  assert (arrays st2 !! a1 = Some (map_data g t0)) as Ha2.
  { unfold st2, arrs2, write_through. simpl.
    rewrite list_lookup_imap. change (arrays st ++ [t0]) with (arrays st1).
    rewrite Ha1. simpl. by rewrite decide_True. }
  assert (arrays st2 !! r = Some v') as Hr2.
  { unfold st2, arrs2, write_through. simpl.
    rewrite list_lookup_imap, (lookup_app_l_Some _ _ _ _ Hv). simpl.
    rewrite decide_False by lia.
    by rewrite (lookup_app_l_Some _ _ _ _ Hm). }
  exists n, (S n), st1, (length (dicts st1)), st2, v'.
  split; [done |]. split; [done |].
  split; [| split; [| split; [| split]]].
  - unfold content, st2. cbn [dicts arrays].
    rewrite lookup_app_r by done. rewrite Nat.sub_diag. simpl.
    unfold deref. simpl. fold arrs2.
    change arrs2 with (arrays st2). by rewrite Ha2.
  - unfold content. rewrite Hin. simpl. unfold deref. simpl. by rewrite Hv.
  - unfold content, st2. cbn [dicts arrays].
    assert ((dicts st1 ++ [[(key, a1)]]) !! input_item = Some [(key, r)]) as ->.
    { apply lookup_app_l_Some. unfold st1. cbn [dicts].
      rewrite list_lookup_insert_ne by lia. unfold stb. simpl.
      apply lookup_app_l_Some. by apply lookup_app_l_Some. }
    simpl. unfold deref. simpl. change arrs2 with (arrays st2).
    by rewrite Hr2.
  - apply shape_written.
  - unfold v', written, m1. cbn [buffer cells]. rewrite decide_True by done.
    unfold crop_box, map_data. cbn [shape data]. f_equal.
    by apply slice_data_written.
Qed.

Lemma CropData_then_Translate_writes_caller_witness :
  let st := new_store [[("input", 0)]; []]
                      [mk_ndarray [1; 2; 2] [0; 1; 2; 3]%Z] in
  ∃ d1 l1 st1 d2 st2,
    CropData_call {| CropData_xmin := [0; 0]%Z; CropData_xmax := [1; 1]%Z;
                     CropData_apply_keys := ["input"] |} 0 1 None st
    = (Ok (d1, l1, None), st1)
    ∧ Translate_call Z.add (Translate_init [("input", 10%Z)]) d1 l1 None st1
      = (Ok (d2, l1, None), st2)
    ∧ content st2 d2 = Some [("input", mk_ndarray [1; 1; 1] [10%Z])]
    ∧ content st 0 = Some [("input", mk_ndarray [1; 2; 2] [0; 1; 2; 3]%Z)]
    ∧ content st2 0 = Some [("input", mk_ndarray [1; 2; 2] [10; 1; 2; 3]%Z)].
Proof.
  intros st.
  destruct (CropData_then_Translate_writes_caller Z.add
              {| CropData_xmin := [0; 0]%Z; CropData_xmax := [1; 1]%Z;
                 CropData_apply_keys := ["input"] |}
              (Translate_init [("input", 10%Z)]) 0 0 1 1 0 1 None st
              "input" 0 (mk_ndarray [1; 2; 2] [0; 1; 2; 3]%Z)
              (mk_memory 0 [0; 1; 2; 3] true true) 10%Z
              eq_refl eq_refl eq_refl eq_refl eq_refl eq_refl eq_refl
              ltac:(by eexists) eq_refl ltac:(unfold ndim; simpl; lia)
              eq_refl eq_refl eq_refl eq_refl eq_refl)
    as (d1 & l1 & st1 & d2 & st2 & v' & H1 & H2 & Hc2 & Hc0 & Hc & Hs & Hv').
  exists d1, l1, st1, d2, st2.
  split; [exact H1 |]. split; [exact H2 |]. split; [exact Hc2 |].
  split; [exact Hc0 |].
  assert (v' = mk_ndarray [1; 2; 2] [10; 1; 2; 3]%Z) as <-; [| exact Hc].
  pose proof H1 as H1'. vm_compute in H1'. injection H1' as <- <- <-.
  pose proof H2 as H2'. vm_compute in H2'. injection H2' as <- <-.
  vm_compute in Hc. by injection Hc as ->.
Defined.
